(** * code-everyday: a catalogue of design-pattern demonstrations

    Shallow embedding of the JavaScript demonstrations (Memento, Composite,
    Decorator, Observer, Singleton, Proxy, Bridge, Simple Factory, Adapter,
    Facade) and the properties the specification states about them.

    Conventions of the embedding.
    - A JavaScript [number] is a double ([float], the binary64 numbers of
      IEEE 754 with [NaN] and the infinities) where the source computes
      with decimals or stores what it is passed: the cost of a coffee, the
      volume of a device, an amount of money.  It is an integer ([Z]) where
      the source counts (sizes in bytes, positions, indices, levels), and a
      rational ([Q]) for channels, frequencies, temperatures and the prices
      of stocks, which the source compares, stores and steps; there [NaN],
      the infinities and the rounding of doubles are not represented.
    - A method that mutates [this] is a function from the object's state to
      its new state; a method that may [throw] returns a [completion].
    - [console.log] output is not part of the state.
    - [new Date()], [Date.now()] and [Math.random()] read the host: the value
      read is an argument, or comes from the clock the example carries. *)

From stdpp Require Import gmap strings list.
From Stdlib Require Import ZArith QArith Qminmax Qround Lqa Lia DecimalString Ascii.
From Stdlib Require Import Floats.

Close Scope Q_scope.

(** A decimal such as [0.2] is no binary64 value: it stands for the double
    nearest to it. *)
Set Warnings "-inexact-float".

(** ** JavaScript conventions shared by the examples *)

Module JS.

(** [new Error(message)] *)
Record Error : Type := mkError { message : string }.

(** The outcome of a call: a normal return or a [throw]. *)
Inductive completion (A : Type) : Type :=
| Return (a : A)
| Throw (e : Error).
Arguments Return {A} a.
Arguments Throw {A} e.

Definition bind {A B} (c : completion A) (k : A -> completion B) : completion B :=
  match c with
  | Return a => k a
  | Throw e => Throw e
  end.

Definition throws {A} (c : completion A) : Prop :=
  exists e, c = Throw e.

Definition returns {A} (c : completion A) : Prop :=
  exists a, c = Return a.

(** [String.prototype.endsWith(search)] with the default end position:
    the last [search.length] characters are compared with [search]. *)
Definition endsWith (s search : string) : bool :=
  let len := String.length s in
  let searchLength := String.length search in
  if (len <? searchLength)%nat then false
  else bool_decide (String.substring (len - searchLength) searchLength s = search).

(** A variable that holds an object, [null] or [undefined]. *)
Inductive maybe (A : Type) : Type :=
| null
| undefined
| object (a : A).
Arguments null {A}.
Arguments undefined {A}.
Arguments object {A} a.

(** The test of [if (value)] on such a variable. *)
Definition truthy {A} (value : maybe A) : bool :=
  match value with
  | object _ => true
  | null | undefined => false
  end.

(** The test of [if (s)] on a string: the empty string is falsy. *)
Definition truthy_string (s : string) : bool := negb (bool_decide (s = "")).

(** The same value of another representation of the object. *)
Definition maybe_map {A B} (f : A -> B) (value : maybe A) : maybe B :=
  match value with
  | null => null
  | undefined => undefined
  | object a => object (f a)
  end.

(** [array[index]]: [undefined] outside the array. *)
Definition get {A} (array : list A) (index : Z) : maybe A :=
  if (index <? 0)%Z then undefined
  else match array !! Z.to_nat index with
       | Some a => object a
       | None => undefined
       end.

(** [array.length] and [string.length].  A string is the sequence of its
    code units, here those below 256. *)
Definition length {A} (array : list A) : Z := Z.of_nat (List.length array).
Definition strlen (s : string) : Z := Z.of_nat (String.length s).

(** A relative index of [slice] and [splice]: negative counts from the end. *)
Definition relative (len index : Z) : Z :=
  if (index <? 0)%Z then Z.max (len + index) 0 else Z.min index len.

(** [array.slice(0, end)] *)
Definition slice0 {A} (array : list A) (end_ : Z) : list A :=
  take (Z.to_nat (relative (length array) end_)) array.

(** [array.splice(start, 1)]: what is left in the array. *)
Definition splice1 {A} (array : list A) (start : Z) : list A :=
  delete (Z.to_nat (relative (length array) start)) array.

(** [array.indexOf(x)]: the first position of [x], or -1. *)
Fixpoint indexOf {A} `{EqDecision A} (array : list A) (x : A) : Z :=
  match array with
  | [] => -1
  | y :: rest =>
      if decide (y = x) then 0
      else let i := indexOf rest x in if (i =? -1)%Z then -1 else i + 1
  end%Z.

(** [array.includes(x)] *)
Definition includes {A} `{EqDecision A} (array : list A) (x : A) : bool :=
  bool_decide (x ∈ array).

(** [string.substring(indexStart, indexEnd)]: both indices are clamped to
    the string and swapped when out of order. *)
Definition substring (s : string) (indexStart indexEnd : Z) : string :=
  let len := strlen s in
  let a := Z.max 0 (Z.min indexStart len) in
  let b := Z.max 0 (Z.min indexEnd len) in
  let from := Z.min a b in
  let to := Z.max a b in
  String.substring (Z.to_nat from) (Z.to_nat (to - from)) s.

(** [string.substring(indexStart)] *)
Definition substringFrom (s : string) (indexStart : Z) : string :=
  substring s indexStart (strlen s).

(** An integer inside a template literal. *)
Definition toString (n : Z) : string := NilZero.string_of_int (Z.to_int n).

(** The values a client can pass where the source expects "an object":
    a primitive, or an object with its own properties. *)
Inductive primitive : Type :=
| Undefined
| Null
| Boolean (b : bool)
| Number (n : Q)
| String_ (s : string).

Inductive value : Type :=
| Primitive (p : primitive)
| Object (properties : list (string * primitive)).

(** [!!v] *)
Definition truthy_value (v : value) : bool :=
  match v with
  | Primitive Undefined | Primitive Null => false
  | Primitive (Boolean b) => b
  | Primitive (Number n) => negb (Qeq_bool n 0)
  | Primitive (String_ s) => truthy_string s
  | Object _ => true
  end.

(** [typeof v] *)
Definition typeof (v : value) : string :=
  match v with
  | Primitive Undefined => "undefined"
  | Primitive Null => "object"
  | Primitive (Boolean _) => "boolean"
  | Primitive (Number _) => "number"
  | Primitive (String_ _) => "string"
  | Object _ => "object"
  end.

(** Comparisons of numbers. *)
Definition le (x y : Q) : bool := Qle_bool x y.
Definition lt (x y : Q) : bool := negb (Qle_bool y x).

(** [Math.max(x, y)] and [Math.min(x, y)] *)
Definition Math_max (x y : Q) : Q := Qmax x y.
Definition Math_min (x y : Q) : Q := Qmin x y.

(** [array[index]] for an index that is any number: only an integer
    names an element. *)
Definition getQ {A} (array : list A) (index : Q) : maybe A :=
  if Qeq_bool index (inject_Z (Qfloor index)) then get array (Qfloor index)
  else undefined.

(** [string.toLowerCase()], on the ASCII letters. *)
Definition toLowerCase_char (c : ascii) : ascii :=
  let n := nat_of_ascii c in
  if (65 <=? n)%nat && (n <=? 90)%nat then ascii_of_nat (n + 32) else c.

Fixpoint toLowerCase (s : string) : string :=
  match s with
  | EmptyString => EmptyString
  | String c rest => String (toLowerCase_char c) (toLowerCase rest)
  end.

(** [string.lastIndexOf(c)] for a character [c]: its last position, or -1. *)
Fixpoint lastIndexOf (s : string) (c : ascii) : Z :=
  match s with
  | EmptyString => -1
  | String d rest =>
      let i := lastIndexOf rest c in
      if (i =? -1)%Z then (if bool_decide (d = c) then 0 else -1) else i + 1
  end%Z.

(** [string.includes(searchString)] *)
Fixpoint includes_string (s searchString : string) : bool :=
  String.prefix searchString s
  || match s with
     | EmptyString => false
     | String _ rest => includes_string rest searchString
     end.

(** [Math.round(x)]: the nearest integer, a half rounded up. *)
Definition Math_round (x : Q) : Z := Qfloor (x + (1 # 2))%Q.

(** *** Doubles

    Where the result of the source depends on the rounding of its
    arithmetic, or on [NaN], a number is the double it is in JavaScript: a
    binary64 float with the IEEE 754 operations [+], [-], [*], [/] and
    comparisons, every comparison with [NaN] being false.  A decimal literal
    denotes the double nearest to it, in JavaScript as here. *)
Module Double.

(** [Number.isNaN(x)] *)
Definition isNaN (x : float) : bool := is_nan x.

(** [Math.max(x, y)] and [Math.min(x, y)]: [NaN] when an argument is [NaN],
    and [+0] counts as larger than [-0]. *)
Definition Math_max (x y : float) : float :=
  if isNaN x || isNaN y then nan
  else if (x <? y)%float then y
  else if (y <? x)%float then x
  else match classify x with
       | NZero => y
       | _ => x
       end.

Definition Math_min (x y : float) : float :=
  if isNaN x || isNaN y then nan
  else if (y <? x)%float then y
  else if (x <? y)%float then x
  else match classify x with
       | PZero => y
       | _ => x
       end.

(** The double of an integer below 2^53 in absolute value, and the double
    that a decimal literal with such a numerator and denominator denotes:
    the quotient of two doubles is the double nearest to their ratio. *)
Definition of_Z (z : Z) : float :=
  if (z <? 0)%Z then (- of_uint63 (Uint63.of_Z (- z)))%float
  else of_uint63 (Uint63.of_Z z).

Definition decimal (q : Q) : float :=
  (of_Z (Qnum q) / of_Z (Zpos (Qden q)))%float.

(** [Number.isFinite(x)]: neither [NaN] nor an infinity. *)
Definition finite (x : float) : Prop :=
  match Prim2SF x with
  | S754_zero _ | S754_finite _ _ _ => True
  | _ => False
  end.

End Double.

End JS.

(** ** Decorator: coffee orders *)

Module Decorator.

(** The class hierarchy below [Coffee].  [CoffeeDecorator] is the base
    decorator, which only delegates to the wrapped object. *)
Inductive Coffee : Type :=
| SimpleCoffee
| CoffeeDecorator (coffee : Coffee)
| MilkDecorator (coffee : Coffee)
| SugarDecorator (coffee : Coffee)
| WhippedCreamDecorator (coffee : Coffee)
| VanillaSyrupDecorator (coffee : Coffee).

(** The arithmetic of the costs: [number] gives the number that a decimal
    literal of the source denotes and [plus] is [+].  The code computes in
    doubles; the same additions can be read in exact rationals. *)
Class Arithmetic (N : Type) : Type := {
  number : Q -> N;
  plus : N -> N -> N
}.

#[export] Instance double_arithmetic : Arithmetic float :=
  {| number := JS.Double.decimal; plus := PrimFloat.add |}.

#[export] Instance exact_arithmetic : Arithmetic Q :=
  {| number := fun q => q; plus := Qplus |}.

Fixpoint getCost {N : Type} `{Arithmetic N} (this : Coffee) : N :=
  match this with
  | SimpleCoffee => number 2.0
  | CoffeeDecorator coffee => getCost coffee
  | MilkDecorator coffee => plus (getCost coffee) (number 0.5)
  | SugarDecorator coffee => plus (getCost coffee) (number 0.2)
  | WhippedCreamDecorator coffee => plus (getCost coffee) (number 0.7)
  | VanillaSyrupDecorator coffee => plus (getCost coffee) (number 0.6)
  end.

Fixpoint getDescription (this : Coffee) : string :=
  match this with
  | SimpleCoffee => "Simple coffee"
  | CoffeeDecorator coffee => getDescription coffee
  | MilkDecorator coffee => getDescription coffee +:+ ", with milk"
  | SugarDecorator coffee => getDescription coffee +:+ ", with sugar"
  | WhippedCreamDecorator coffee => getDescription coffee +:+ ", with whipped cream"
  | VanillaSyrupDecorator coffee => getDescription coffee +:+ ", with vanilla syrup"
  end.

(** The four concrete decorators a client can apply. *)
Inductive topping : Type := Milk | Sugar | WhippedCream | VanillaSyrup.

(** [new XDecorator(coffee)] *)
Definition wrap (t : topping) (coffee : Coffee) : Coffee :=
  match t with
  | Milk => MilkDecorator coffee
  | Sugar => SugarDecorator coffee
  | WhippedCream => WhippedCreamDecorator coffee
  | VanillaSyrup => VanillaSyrupDecorator coffee
  end.

(** Applying a chain of decorators, the first of the list innermost. *)
Definition decorate (ts : list topping) (base : Coffee) : Coffee :=
  fold_left (fun coffee t => wrap t coffee) ts base.

(** The fixed increment and the suffix of each decorator, as read off the
    class bodies. *)
Definition increment {N : Type} `{Arithmetic N} (t : topping) : N :=
  match t with
  | Milk => number 0.5
  | Sugar => number 0.2
  | WhippedCream => number 0.7
  | VanillaSyrup => number 0.6
  end.

Definition suffix (t : topping) : string :=
  match t with
  | Milk => ", with milk"
  | Sugar => ", with sugar"
  | WhippedCream => ", with whipped cream"
  | VanillaSyrup => ", with vanilla syrup"
  end.

Definition Qsum (l : list Q) : Q := fold_right Qplus 0%Q l.

(** The sum of some doubles, taken from the left and taken from the right. *)
Definition sum_left (l : list float) : float := fold_left PrimFloat.add l 0%float.
Definition sum_right (l : list float) : float := fold_right PrimFloat.add 0%float l.

(** The cost of a chain as the specification writes it, in the arithmetic
    of the code: the base cost plus the sum of the increments. *)
Definition cost_is_base_plus_sum : Prop :=
  forall ts : list topping,
    getCost (decorate ts SimpleCoffee) = (2.0 + sum_left (map increment ts))%float.

Definition concat_strings (l : list string) : string :=
  fold_right String.append "" l.

(** The orders built in [clientCode]. *)
Definition specialCoffee : Coffee :=
  WhippedCreamDecorator (VanillaSyrupDecorator (MilkDecorator SimpleCoffee)).

End Decorator.

(** ** Composite: a file-system tree *)

Module Composite.

(** [Directory] and its subclass [ProjectDirectory], which overrides
    [getType] and [print] and adds source-code statistics; the statistics do
    not take part in the aggregate queries and are left out. *)
Inductive directoryClass : Type := PlainDirectory | ProjectDirectory.

(** A component is a leaf ([File]) or a composite with its children in
    insertion order.  The tree is finite and acyclic.  A size is a whole
    number of bytes: doubles add such numbers without rounding as long as
    the sum stays below 2^53. *)
Unset Elimination Schemes.
Inductive FileSystemComponent : Type :=
| File (name : string) (size : Z) (parentPath : string)
| Directory (cls : directoryClass) (name : string)
    (children : list FileSystemComponent) (parentPath : string).
Set Elimination Schemes.

Definition getName (this : FileSystemComponent) : string :=
  match this with
  | File name _ _ => name
  | Directory _ name _ _ => name
  end.

Definition getType (this : FileSystemComponent) : string :=
  match this with
  | File _ _ _ => "file"
  | Directory PlainDirectory _ _ _ => "directory"
  | Directory ProjectDirectory _ _ _ => "project"
  end.

Definition isLeaf (this : FileSystemComponent) : bool :=
  match this with
  | File _ _ _ => true
  | Directory _ _ _ _ => false
  end.

Definition getChildren (this : FileSystemComponent) : list FileSystemComponent :=
  match this with
  | File _ _ _ => []
  | Directory _ _ children _ => children
  end.

Definition getPath (this : FileSystemComponent) : string :=
  let join parentPath name :=
    if bool_decide (parentPath = "") then name else parentPath +:+ "/" +:+ name in
  match this with
  | File name _ parentPath => join parentPath name
  | Directory _ name _ parentPath => join parentPath name
  end.

(** [children.reduce((total, child) => total + child.getSize(), 0)] *)
Fixpoint getSize (this : FileSystemComponent) : Z :=
  match this with
  | File _ size _ => size
  | Directory _ _ children _ =>
      fold_left (fun total child => total + getSize child)%Z children 0%Z
  end.

(** [Directory.find].  [results] is the array the method fills with [push];
    the method exists on composites only and is never called on a leaf. *)
Fixpoint find (predicate : FileSystemComponent -> bool)
    (this : FileSystemComponent) : list FileSystemComponent :=
  match this with
  | File _ _ _ => []
  | Directory _ _ children _ =>
      let results := if predicate this then [this] else [] in
      fold_left
        (fun results child =>
           if isLeaf child
           then if predicate child then results ++ [child] else results
           else results ++ find predicate child)
        children results
  end.

(** What one child contributes to the results of [find]. *)
Definition found (predicate : FileSystemComponent -> bool)
    (child : FileSystemComponent) : list FileSystemComponent :=
  if isLeaf child then (if predicate child then [child] else [])
  else find predicate child.

Definition findByExtension (extension : string)
    (this : FileSystemComponent) : list FileSystemComponent :=
  find (fun component =>
          bool_decide (getType component = "file")
          && JS.endsWith (getName component) extension) this.

Definition findLargerThan (size : Z)
    (this : FileSystemComponent) : list FileSystemComponent :=
  find (fun component =>
          bool_decide (getType component = "file")
          && (size <? getSize component)%Z) this.

(** Nodes strictly below a component, at any depth. *)
Inductive descendant (x : FileSystemComponent) : FileSystemComponent -> Prop :=
| descendant_child cls name children parentPath :
    In x children -> descendant x (Directory cls name children parentPath)
| descendant_deeper cls name children parentPath child :
    In child children -> descendant x child ->
    descendant x (Directory cls name children parentPath).

(** The leaf files below a component, in traversal order. *)
Fixpoint files (this : FileSystemComponent) : list FileSystemComponent :=
  match this with
  | File _ _ _ => []
  | Directory _ _ children _ =>
      flat_map (fun child => if isLeaf child then [child] else files child) children
  end.

Definition Zsum (l : list Z) : Z := fold_right Z.add 0%Z l.


(** The object graph that [FileSystemFactory.createSampleFileSystem]
    returns, with the parent paths its [add] calls have written. *)
Definition sampleFileSystem : FileSystemComponent :=
  Directory PlainDirectory "root" [
    Directory PlainDirectory "home" [
      Directory PlainDirectory "user1" [
        File "document.txt" 2048 "root/home/user1";
        File "image.jpg" 4096000 "root/home/user1";
        Directory PlainDirectory "documents" [
          File "resume.pdf" 102400 "root/home/user1/documents";
          File "notes.txt" 1024 "root/home/user1/documents"
        ] "root/home/user1"
      ] "root/home";
      Directory PlainDirectory "user2" [
        File "profile.jpg" 2048000 "root/home/user2";
        Directory ProjectDirectory "my-website" [
          Directory PlainDirectory "src" [
            File "index.html" 5120 "root/home/user2/my-website/src";
            File "styles.css" 2048 "root/home/user2/my-website/src";
            File "app.js" 8192 "root/home/user2/my-website/src";
            Directory PlainDirectory "components" [
              File "header.js" 1024 "root/home/user2/my-website/src/components";
              File "footer.js" 1024 "root/home/user2/my-website/src/components";
              File "sidebar.js" 2048 "root/home/user2/my-website/src/components"
            ] "root/home/user2/my-website/src"
          ] "root/home/user2/my-website"
        ] "root/home/user2"
      ] "root/home"
    ] "root"
  ] "".

(** [Directory.count] *)
Definition count (this : FileSystemComponent) : Z := JS.length (getChildren this).

(** [Directory.countFiles] and [Directory.countDirectories]: like [find],
    they exist on composites only; the walk calls them on children that are
    not of type 'file', respectively on children of type 'directory'. *)
Fixpoint countFiles (this : FileSystemComponent) : Z :=
  match this with
  | File _ _ _ => 0
  | Directory _ _ children _ =>
      fold_left
        (fun count child =>
           if bool_decide (getType child = "file") then count + 1
           else count + countFiles child)%Z
        children 0%Z
  end.

Fixpoint countDirectories (this : FileSystemComponent) : Z :=
  match this with
  | File _ _ _ => 0
  | Directory _ _ children _ =>
      fold_left
        (fun count child =>
           if bool_decide (getType child = "directory")
           then count + 1 + countDirectories child
           else count)%Z
        children 0%Z
  end.

(** [component.parentPath = path] *)
Definition setParentPath (path : string) (this : FileSystemComponent)
    : FileSystemComponent :=
  match this with
  | File name size _ => File name size path
  | Directory cls name children _ => Directory cls name children path
  end.

(** [add(component)]: the component as it is returned, and the directory
    after the call.  A file inherits the method of the base class, which
    throws. *)
Definition add (component this : FileSystemComponent)
    : JS.completion (FileSystemComponent * FileSystemComponent) :=
  match this with
  | File _ _ _ => JS.Throw (JS.mkError "Operation not supported")
  | Directory cls name children parentPath =>
      let component := setParentPath (getPath this) component in
      JS.Return (component, Directory cls name (children ++ [component]) parentPath)
  end.

(** [getChild(name)]:
    [this.children.find((child) => child.getName() === name) || null] *)
Definition getChild (name : string) (this : FileSystemComponent)
    : JS.completion (JS.maybe FileSystemComponent) :=
  match this with
  | File _ _ _ => JS.Throw (JS.mkError "Operation not supported")
  | Directory _ _ children _ =>
      JS.Return
        match List.find (fun child => bool_decide (getName child = name)) children with
        | Some child => JS.object child
        | None => JS.null
        end
  end.

(** A component and the components below it, parents before children and
    children in insertion order. *)
Fixpoint nodes (this : FileSystemComponent) : list FileSystemComponent :=
  match this with
  | File _ _ _ => [this]
  | Directory _ _ children _ => this :: flat_map nodes children
  end.

(** Whether a project directory lies below a component. *)
Fixpoint hasProject (this : FileSystemComponent) : bool :=
  match this with
  | File _ _ _ => false
  | Directory _ _ children _ =>
      existsb (fun child => bool_decide (getType child = "project") || hasProject child)
        children
  end.

(** The source-code analysis of [ProjectDirectory]. *)
Module ProjectDirectory.

Record Stats : Type := mkStats { files : Z; lines : Z; size : Z }.

Record SourceCodeStats : Type := mkSourceCodeStats {
  js : Stats;
  css : Stats;
  html : Stats
}.

Definition estimateLines (size avgBytesPerLine : Z) : Z :=
  JS.Math_round (inject_Z size / inject_Z avgBytesPerLine)%Q.

(** One of the three [forEach] loops of [analyzeSourceCode], which differ in
    the extension and in the average number of bytes per line. *)
Definition analyze (found : list FileSystemComponent) (avgBytesPerLine : Z) : Stats :=
  fold_left
    (fun stats file =>
       {| files := files stats + 1;
          size := size stats + getSize file;
          lines := lines stats + estimateLines (getSize file) avgBytesPerLine |})%Z
    found {| files := 0; lines := 0; size := 0 |}.

(** [analyzeSourceCode()]: the statistics it returns. *)
Definition analyzeSourceCode (this : FileSystemComponent) : SourceCodeStats :=
  let jsFiles := findByExtension ".js" this in
  let cssFiles := findByExtension ".css" this in
  let htmlFiles := findByExtension ".html" this in
  {| js := analyze jsFiles 50;
     css := analyze cssFiles 40;
     html := analyze htmlFiles 80 |}.

End ProjectDirectory.

End Composite.

(** ** Memento: text editor with undo history, game character with saves *)

Module Memento.

(** How a [Date] prints ([toLocaleTimeString], [toLocaleString]) depends on
    the host's locale. *)
Class Locale : Type := {
  toLocaleTimeString : Z -> string;
  toLocaleString : Z -> string
}.

(** The narrow interface of a memento, the only one a caretaker calls:
    [getDescription()] and, for a game save, [setLabel(label)]. *)
Class Describable (M : Type) : Type := getDescription : M -> string.
Class Labelled (M : Type) : Type := setLabel : string -> M -> M.

(** What a caretaker calls on the originator it saves: [character.name],
    [character.save()] and [character.restore(memento)]. *)
Class Originator (C M : Type) : Type := {
  name : C -> string;
  save : Z -> C -> M;
  restore : JS.maybe M -> C -> C
}.

(** Positions in a text, counts of characters, indices into arrays, points
    of health and experience, and the amounts added to or taken from them
    are integers ([Z]), as in every call the demonstrations make: what the
    methods do with a fraction or with [NaN] is not described here. *)
Record Selection : Type := mkSelection { start : Z; end_ : Z }.

(** The fields of a [TextEditor]; the object that
    [TextEditorMemento.getState] returns has the same five fields. *)
Record TextEditorState : Type := mkTextEditorState {
  content : string;
  cursorPosition : Z;
  selection : Selection;
  fontName : string;
  fontSize : Z
}.

Module TextEditorMemento.

Record t : Type := new {
  _content : string;
  _cursorPosition : Z;
  _selection : Selection;
  _fontName : string;
  _fontSize : Z;
  _timestamp : Z
}.

Definition getState (this : t) : TextEditorState :=
  {| content := _content this;
     cursorPosition := _cursorPosition this;
     selection := _selection this;
     fontName := _fontName this;
     fontSize := _fontSize this |}.

Definition getDescription `{Locale} (this : t) : string :=
  let dateStr := toLocaleTimeString (_timestamp this) in
  dateStr +:+ " - " +:+ JS.substring (_content this) 0 15
    +:+ (if (15 <? JS.strlen (_content this))%Z then "..." else "").

Definition getTimestamp (this : t) : Z := _timestamp this.

(** The methods of the class, and the memento a call leaves behind: none of
    them assigns to a field. *)
Inductive method : Type := GetState | GetDescription | GetTimestamp.

Definition after (m : method) (this : t) : t :=
  match m with
  | GetState | GetDescription | GetTimestamp => this
  end.

End TextEditorMemento.

#[export] Instance TextEditorMemento_describable `{Locale} :
  Describable TextEditorMemento.t := TextEditorMemento.getDescription.

Module TextEditor.

Definition t : Type := TextEditorState.

(** [new TextEditor()] *)
Definition new : t :=
  {| content := ""; cursorPosition := 0;
     selection := {| start := 0; end_ := 0 |};
     fontName := "Arial"; fontSize := 12 |}.

Definition hasSelection (this : t) : bool :=
  negb (start (selection this) =? end_ (selection this))%Z.

Definition write (text : string) (this : t) : t :=
  let before := JS.substring (content this) 0 (cursorPosition this) in
  let after := JS.substringFrom (content this) (cursorPosition this) in
  let cursorPosition := (cursorPosition this + JS.strlen text)%Z in
  {| content := before +:+ text +:+ after;
     cursorPosition := cursorPosition;
     selection := {| start := cursorPosition; end_ := cursorPosition |};
     fontName := fontName this; fontSize := fontSize this |}.

(** [delete(count = 1)] *)
Definition delete (count : Z) (this : t) : t :=
  if hasSelection this then
    let before := JS.substring (content this) 0 (start (selection this)) in
    let after := JS.substringFrom (content this) (end_ (selection this)) in
    let cursorPosition := start (selection this) in
    {| content := before +:+ after;
       cursorPosition := cursorPosition;
       selection := {| start := cursorPosition; end_ := cursorPosition |};
       fontName := fontName this; fontSize := fontSize this |}
  else
    let before := JS.substring (content this) 0 (cursorPosition this) in
    let after := JS.substringFrom (content this) (cursorPosition this + count) in
    {| content := before +:+ after;
       cursorPosition := cursorPosition this;
       selection := {| start := cursorPosition this; end_ := cursorPosition this |};
       fontName := fontName this; fontSize := fontSize this |}.

Definition select (startPosition endPosition : Z) (this : t) : t :=
  if (0 <=? startPosition)%Z && (endPosition <=? JS.strlen (content this))%Z
     && (startPosition <=? endPosition)%Z
  then {| content := content this;
          cursorPosition := endPosition;
          selection := {| start := startPosition; end_ := endPosition |};
          fontName := fontName this; fontSize := fontSize this |}
  else this.

Definition moveCursor (position : Z) (this : t) : t :=
  if (0 <=? position)%Z && (position <=? JS.strlen (content this))%Z
  then {| content := content this;
          cursorPosition := position;
          selection := {| start := position; end_ := position |};
          fontName := fontName this; fontSize := fontSize this |}
  else this.

Definition changeFont (fontName : string) (fontSize : Z) (this : t) : t :=
  {| content := content this; cursorPosition := cursorPosition this;
     selection := selection this;
     fontName := fontName; fontSize := fontSize |}.

(** [save()]: the selection is copied ([{ ...this.selection }]), so the
    memento shares nothing with the editor.  [now] is the clock reading
    of [new Date()] in the memento's constructor. *)
Definition save (now : Z) (this : t) : TextEditorMemento.t :=
  TextEditorMemento.new (content this) (cursorPosition this)
    {| start := start (selection this); end_ := end_ (selection this) |}
    (fontName this) (fontSize this) now.

(** [restore(memento)]: anything that is not a [TextEditorMemento] is
    refused and the editor is left as it is. *)
Definition restore (memento : JS.maybe TextEditorMemento.t) (this : t) : t :=
  match memento with
  | JS.object memento =>
      let state := TextEditorMemento.getState memento in
      {| content := content state;
         cursorPosition := cursorPosition state;
         selection := {| start := start (selection state);
                         end_ := end_ (selection state) |};
         fontName := fontName state;
         fontSize := fontSize state |}
  | JS.null | JS.undefined => this
  end.

End TextEditor.

(** The caretaker of the editor.  It is written against mementos of any
    type [M]; only [getStateList] calls a method of them. *)
Module EditorHistory.

Record t (M : Type) : Type := mk {
  states : list M;
  currentStateIndex : Z
}.
Arguments mk {M} states currentStateIndex.
Arguments states {M} this : rename.
Arguments currentStateIndex {M} this : rename.

Section Methods.
Context {M : Type}.

(** [new EditorHistory()] *)
Definition new : t M := {| states := []; currentStateIndex := -1 |}.

Definition push (memento : M) (this : t M) : t M :=
  let states :=
    if (currentStateIndex this <? JS.length (states this) - 1)%Z
    then JS.slice0 (states this) (currentStateIndex this + 1)
    else states this in
  let states := states ++ [memento] in
  {| states := states; currentStateIndex := JS.length states - 1 |}.

(** [undo()] and [redo()] return the memento together with the history
    whose cursor has moved. *)
Definition undo (this : t M) : JS.maybe M * t M :=
  if (0 <? currentStateIndex this)%Z then
    let currentStateIndex := (currentStateIndex this - 1)%Z in
    (JS.get (states this) currentStateIndex,
     {| states := states this; currentStateIndex := currentStateIndex |})
  else (JS.null, this).

Definition redo (this : t M) : JS.maybe M * t M :=
  if (currentStateIndex this <? JS.length (states this) - 1)%Z then
    let currentStateIndex := (currentStateIndex this + 1)%Z in
    (JS.get (states this) currentStateIndex,
     {| states := states this; currentStateIndex := currentStateIndex |})
  else (JS.null, this).

Definition getStateList {D : Describable M} (this : t M) : list string :=
  imap (fun index memento =>
          let description := getDescription memento in
          let currentMarker :=
            if (Z.of_nat index =? currentStateIndex this)%Z then "> " else "  " in
          currentMarker +:+ JS.toString (Z.of_nat index + 1) +:+ ". " +:+ description)
       (states this).

Definition goToState (index : Z) (this : t M) : JS.maybe M * t M :=
  if (0 <=? index)%Z && (index <? JS.length (states this))%Z then
    (JS.get (states this) index,
     {| states := states this; currentStateIndex := index |})
  else (JS.null, this).

Definition clear (this : t M) : t M :=
  {| states := []; currentStateIndex := -1 |}.

End Methods.

(** The same history over another representation of the mementos. *)
Definition mapMementos {M M'} (f : M -> M') (this : t M) : t M' :=
  {| states := f <$> states this; currentStateIndex := currentStateIndex this |}.

End EditorHistory.

(** The pattern of [clientCode]:
    [const s = history.undo(); if (s) { editor.restore(s); }], and the same
    with [redo]. *)
Definition undoStep (p : EditorHistory.t TextEditorMemento.t * TextEditor.t)
    : EditorHistory.t TextEditorMemento.t * TextEditor.t :=
  let '(history, editor) := p in
  let '(previousState, history) := EditorHistory.undo history in
  (history,
   if JS.truthy previousState then TextEditor.restore previousState editor
   else editor).

Definition redoStep (p : EditorHistory.t TextEditorMemento.t * TextEditor.t)
    : EditorHistory.t TextEditorMemento.t * TextEditor.t :=
  let '(history, editor) := p in
  let '(nextState, history) := EditorHistory.redo history in
  (history,
   if JS.truthy nextState then TextEditor.restore nextState editor
   else editor).

(** The mementos [S0..Sk] of a list of editor states, each saved at its
    clock reading. *)
Definition saveAll (saved : list (TextEditor.t * Z)) : list TextEditorMemento.t :=
  map (fun '(editor, now) => TextEditor.save now editor) saved.

(** [history.push(editor.save())] for each editor state of a list, in order;
    every state comes with the clock reading of its save. *)
Definition pushAll (saved : list (TextEditor.t * Z))
    (history : EditorHistory.t TextEditorMemento.t)
    : EditorHistory.t TextEditorMemento.t :=
  fold_left (fun history '(editor, now) =>
               EditorHistory.push (TextEditor.save now editor) history)
            saved history.

(** *** The game character and its saves *)

Record Position : Type := mkPosition { x : Z; y : Z }.

(** The fields of a [GameCharacter]; the object that
    [GameCharacterMemento.getState] returns has the same six fields. *)
Record GameCharacterState : Type := mkGameCharacterState {
  characterName : string;
  level : Z;
  health : Z;
  inventory : list string;
  position : Position;
  skills : list string
}.

Module GameCharacterMemento.

Record t : Type := mk {
  _name : string;
  _level : Z;
  _health : Z;
  _inventory : list string;
  _position : Position;
  _skills : list string;
  _timestamp : Z;
  _label : string
}.

(** The constructor; [now] is the clock reading of [new Date()]. *)
Definition new (name : string) (level health : Z) (inventory : list string)
    (position : Position) (skills : list string) (now : Z) : t :=
  {| _name := name; _level := level; _health := health;
     _inventory := inventory; _position := position; _skills := skills;
     _timestamp := now;
     _label := "Save - " +:+ name +:+ " (Lvl " +:+ JS.toString level +:+ ")" |}.

(** [getState()] returns copies of the arrays and of the position. *)
Definition getState (this : t) : GameCharacterState :=
  {| characterName := _name this;
     level := _level this;
     health := _health this;
     inventory := _inventory this;
     position := {| x := x (_position this); y := y (_position this) |};
     skills := _skills this |}.

Definition getDescription `{Locale} (this : t) : string :=
  _label this +:+ " - " +:+ toLocaleString (_timestamp this).

Definition setLabel (label : string) (this : t) : t :=
  {| _name := _name this; _level := _level this; _health := _health this;
     _inventory := _inventory this; _position := _position this;
     _skills := _skills this; _timestamp := _timestamp this;
     _label := label |}.

Definition getTimestamp (this : t) : Z := _timestamp this.

(** The methods of the class, and the memento a call leaves behind. *)
Inductive method : Type :=
| GetState | GetDescription | SetLabel (label : string) | GetTimestamp.

Definition after (m : method) (this : t) : t :=
  match m with
  | SetLabel label => setLabel label this
  | GetState | GetDescription | GetTimestamp => this
  end.

End GameCharacterMemento.

#[export] Instance GameCharacterMemento_describable `{Locale} :
  Describable GameCharacterMemento.t := GameCharacterMemento.getDescription.
#[export] Instance GameCharacterMemento_labelled :
  Labelled GameCharacterMemento.t := GameCharacterMemento.setLabel.

Module GameCharacter.

Definition t : Type := GameCharacterState.

(** [new GameCharacter(name)] *)
Definition new (name : string) : t :=
  {| characterName := name; level := 1; health := 100; inventory := [];
     position := {| x := 0; y := 0 |}; skills := [] |}.

Definition moveTo (x y : Z) (this : t) : t :=
  {| characterName := characterName this; level := level this;
     health := health this; inventory := inventory this;
     position := {| x := x; y := y |}; skills := skills this |}.

Definition takeDamage (amount : Z) (this : t) : t :=
  {| characterName := characterName this; level := level this;
     health := Z.max 0 (health this - amount); inventory := inventory this;
     position := position this; skills := skills this |}.

Definition heal (amount : Z) (this : t) : t :=
  {| characterName := characterName this; level := level this;
     health := Z.min 100 (health this + amount); inventory := inventory this;
     position := position this; skills := skills this |}.

Definition gainExperience (exp : Z) (this : t) : t :=
  let xpNeeded := (level this * 100)%Z in
  if (xpNeeded <=? exp)%Z then
    {| characterName := characterName this; level := level this + 1;
       health := 100; inventory := inventory this;
       position := position this; skills := skills this |}
  else this.

Definition addItem (item : string) (this : t) : t :=
  {| characterName := characterName this; level := level this;
     health := health this; inventory := inventory this ++ [item];
     position := position this; skills := skills this |}.

(** [removeItem(item)] returns whether the item was there. *)
Definition removeItem (item : string) (this : t) : bool * t :=
  let index := JS.indexOf (inventory this) item in
  if negb (index =? -1)%Z then
    (true,
     {| characterName := characterName this; level := level this;
        health := health this; inventory := JS.splice1 (inventory this) index;
        position := position this; skills := skills this |})
  else (false, this).

Definition learnSkill (skill : string) (this : t) : t :=
  if negb (JS.includes (skills this) skill) then
    {| characterName := characterName this; level := level this;
       health := health this; inventory := inventory this;
       position := position this; skills := skills this ++ [skill] |}
  else this.

(** [save()]: the arrays and the position are copied. *)
Definition save (now : Z) (this : t) : GameCharacterMemento.t :=
  GameCharacterMemento.new (characterName this) (level this) (health this)
    (inventory this) {| x := x (position this); y := y (position this) |}
    (skills this) now.

(** [restore(memento)]: refused unless the memento is a
    [GameCharacterMemento] saved for a character of the same name. *)
Definition restore (memento : JS.maybe GameCharacterMemento.t) (this : t) : t :=
  match memento with
  | JS.object memento =>
      let state := GameCharacterMemento.getState memento in
      if negb (bool_decide (characterName state = characterName this)) then this
      else
        {| characterName := characterName this;
           level := level state;
           health := health state;
           inventory := inventory state;
           position := {| x := x (position state); y := y (position state) |};
           skills := skills state |}
  | JS.null | JS.undefined => this
  end.

End GameCharacter.

#[export] Instance GameCharacter_originator :
  Originator GameCharacter.t GameCharacterMemento.t :=
  {| name := characterName;
     save := GameCharacter.save;
     restore := GameCharacter.restore |}.

(** The caretaker of the game saves: a [Map] from the character's name to
    the array of its saves.  It is written against any originator [C] and
    memento [M] that offer the methods it calls. *)
Module SaveManager.

Record t (M : Type) : Type := mk { savedGames : gmap string (list M) }.
Arguments mk {M} savedGames.
Arguments savedGames {M} this : rename.

Section Methods.
Context {C M : Type} {O : Originator C M} {L : Labelled M} {D : Describable M}.

(** [new SaveManager()] *)
Definition new : t M := {| savedGames := ∅ |}.

(** [saveCharacter(character, label = null)] *)
Definition saveCharacter (now : Z) (character : C) (label : option string)
    (this : t M) : t M :=
  let memento := save now character in
  let memento :=
    match label with
    | Some label => if JS.truthy_string label then setLabel label memento else memento
    | None => memento
    end in
  let savedGames :=
    if bool_decide (is_Some (savedGames this !! name character))
    then savedGames this
    else <[name character := []]> (savedGames this) in
  let saves := default [] (savedGames !! name character) in
  {| savedGames := <[name character := saves ++ [memento]]> savedGames |}.

(** [loadCharacter(character, index)]: the character after the call. *)
Definition loadCharacter (character : C) (index : Z) (this : t M) : C :=
  match savedGames this !! name character with
  | None => character
  | Some saves =>
      if (index <? 0)%Z || (JS.length saves <=? index)%Z then character
      else restore (JS.get saves index) character
  end.

Definition getSaveList (characterName : string) (this : t M) : list string :=
  match savedGames this !! characterName with
  | None => []
  | Some saves =>
      imap (fun index memento =>
              JS.toString (Z.of_nat index + 1) +:+ ". " +:+ getDescription memento)
           saves
  end.

Definition deleteSave (characterName : string) (index : Z) (this : t M) : t M :=
  match savedGames this !! characterName with
  | None => this
  | Some saves =>
      if (index <? 0)%Z || (JS.length saves <=? index)%Z then this
      else {| savedGames :=
                <[characterName := JS.splice1 saves index]> (savedGames this) |}
  end.

End Methods.

(** The same saves over another representation of the mementos. *)
Definition mapMementos {M M'} (f : M -> M') (this : t M) : t M' :=
  {| savedGames := (fun saves : list M => f <$> saves) <$> savedGames this |}.

End SaveManager.

(** The claim of the specification as it is written: no call of a method
    of a memento changes the memento. *)
Definition mementos_never_mutated : Prop :=
  (forall m this, TextEditorMemento.after m this = this) /\
  (forall m this, GameCharacterMemento.after m this = this).

(** The editor states that [clientCode] saves, each with a clock reading
    for its save. *)
Definition clientEditor0 : TextEditor.t := TextEditor.new.
Definition clientEditor1 : TextEditor.t :=
  TextEditor.write "Hello, world!" clientEditor0.
Definition clientEditor2 : TextEditor.t :=
  TextEditor.write "Memento Pattern"
    (TextEditor.delete 1 (TextEditor.select 7 12 clientEditor1)).
Definition clientEditor3 : TextEditor.t :=
  TextEditor.changeFont "Times New Roman" 14
    (TextEditor.write "Implementing the " (TextEditor.moveCursor 0 clientEditor2)).

Definition clientSaved : list (TextEditor.t * Z) :=
  [(clientEditor0, 0%Z); (clientEditor1, 1%Z); (clientEditor2, 2%Z); (clientEditor3, 3%Z)].

(** A host that prints a date as its number of milliseconds. *)
Definition plainLocale : Locale :=
  {| toLocaleTimeString := JS.toString; toLocaleString := JS.toString |}.

(** *** Sequences of calls

    The calls a client makes on a history, on an editor and on a character,
    and what a sequence of them leaves behind. *)

Inductive historyCall (M : Type) : Type :=
| CallPush (memento : M)
| CallUndo
| CallRedo
| CallGoToState (index : Z)
| CallClear.
Arguments CallPush {M} memento.
Arguments CallUndo {M}.
Arguments CallRedo {M}.
Arguments CallGoToState {M} index.
Arguments CallClear {M}.

Definition historyStep {M} (history : EditorHistory.t M) (c : historyCall M)
    : EditorHistory.t M :=
  match c with
  | CallPush memento => EditorHistory.push memento history
  | CallUndo => snd (EditorHistory.undo history)
  | CallRedo => snd (EditorHistory.redo history)
  | CallGoToState index => snd (EditorHistory.goToState index history)
  | CallClear => EditorHistory.clear history
  end.

Definition historyRun {M} (calls : list (historyCall M)) (history : EditorHistory.t M)
    : EditorHistory.t M :=
  fold_left historyStep calls history.

(** The cursor of a history is on a stored state, or the history is empty. *)
Definition historyInvariant {M} (history : EditorHistory.t M) : Prop :=
  (-1 <= EditorHistory.currentStateIndex history
   < JS.length (EditorHistory.states history))%Z /\
  (EditorHistory.currentStateIndex history = (-1)%Z ->
   EditorHistory.states history = []).

Inductive editorCall : Type :=
| CallWrite (text : string)
| CallDelete (count : Z)
| CallSelect (startPosition endPosition : Z)
| CallMoveCursor (position : Z)
| CallChangeFont (fontName : string) (fontSize : Z).

Definition editorStep (editor : TextEditor.t) (c : editorCall) : TextEditor.t :=
  match c with
  | CallWrite text => TextEditor.write text editor
  | CallDelete count => TextEditor.delete count editor
  | CallSelect startPosition endPosition =>
      TextEditor.select startPosition endPosition editor
  | CallMoveCursor position => TextEditor.moveCursor position editor
  | CallChangeFont fontName fontSize => TextEditor.changeFont fontName fontSize editor
  end.

Definition editorRun (calls : list editorCall) (editor : TextEditor.t) : TextEditor.t :=
  fold_left editorStep calls editor.

Inductive characterCall : Type :=
| CallMoveTo (x y : Z)
| CallTakeDamage (amount : Z)
| CallHeal (amount : Z)
| CallGainExperience (exp : Z)
| CallAddItem (item : string)
| CallRemoveItem (item : string)
| CallLearnSkill (skill : string).

Definition characterStep (character : GameCharacter.t) (c : characterCall)
    : GameCharacter.t :=
  match c with
  | CallMoveTo x y => GameCharacter.moveTo x y character
  | CallTakeDamage amount => GameCharacter.takeDamage amount character
  | CallHeal amount => GameCharacter.heal amount character
  | CallGainExperience exp => GameCharacter.gainExperience exp character
  | CallAddItem item => GameCharacter.addItem item character
  | CallRemoveItem item => snd (GameCharacter.removeItem item character)
  | CallLearnSkill skill => GameCharacter.learnSkill skill character
  end.

Definition characterRun (calls : list characterCall) (character : GameCharacter.t)
    : GameCharacter.t :=
  fold_left characterStep calls character.

(** A damage or a healing that is not negative. *)
Definition amountNotNegative (c : characterCall) : Prop :=
  match c with
  | CallTakeDamage amount | CallHeal amount => (0 <= amount)%Z
  | _ => True
  end.

(** The selection lies inside the content and the cursor is at its end. *)
Definition editorInvariant (editor : TextEditor.t) : Prop :=
  (0 <= start (selection editor) <= end_ (selection editor))%Z /\
  (end_ (selection editor) <= JS.strlen (content editor))%Z /\
  cursorPosition editor = end_ (selection editor).

(** The health of a character is a percentage and its level is at least 1. *)
Definition characterInvariant (character : GameCharacter.t) : Prop :=
  (0 <= health character <= 100)%Z /\ (1 <= level character)%Z.

End Memento.

(** ** Observer: weather station and its displays *)

Module Observer.

(** An observer is an object with an identity: a reference into the store
    of observer objects.  [includes] and [indexOf] compare references. *)
Definition ref : Type := nat.

Module WeatherStation.

Record t : Type := mk {
  observers : list ref;
  temperature : Q;
  humidity : Q;
  pressure : Q
}.

(** [new WeatherStation()] *)
Definition new : t :=
  {| observers := []; temperature := 0; humidity := 0; pressure := 0 |}.

Definition attach (observer : ref) (this : t) : t :=
  let isExist := JS.includes (observers this) observer in
  if isExist then this
  else {| observers := observers this ++ [observer];
          temperature := temperature this; humidity := humidity this;
          pressure := pressure this |}.

Definition detach (observer : ref) (this : t) : t :=
  let observerIndex := JS.indexOf (observers this) observer in
  if (observerIndex =? -1)%Z then this
  else {| observers := JS.splice1 (observers this) observerIndex;
          temperature := temperature this; humidity := humidity this;
          pressure := pressure this |}.

Definition getTemperature (this : t) : Q := temperature this.
Definition getHumidity (this : t) : Q := humidity this.
Definition getPressure (this : t) : Q := pressure this.

End WeatherStation.

(** The concrete observers of the weather station, with their fields. *)
Inductive WeatherObserver : Type :=
| CurrentConditionsDisplay (temperature humidity : Q)
| StatisticsDisplay (temperatures : list Q)
| ForecastDisplay (currentPressure lastPressure : Q)
| HeatIndexDisplay (heatIndex : Q).

(** [HeatIndexDisplay.computeHeatIndex(t, rh)], the formula read in exact
    rationals; the code evaluates it in doubles, so that the display holds
    this value up to rounding.  No property below depends on the value. *)
Definition computeHeatIndex (t rh : Q) : Q :=
  (let tf := (t * 9) / 5 + 32 in
   let index :=
     16.923 +
     0.185212 * tf +
     5.37941 * rh -
     0.100254 * tf * rh +
     0.00941695 * (tf * tf) +
     0.00728898 * (rh * rh) +
     0.000345372 * (tf * tf * rh) -
     0.000814971 * (tf * rh * rh) +
     0.0000102102 * (tf * tf * rh * rh) -
     0.000038646 * (tf * tf * tf) +
     0.0000291583 * (rh * rh * rh) +
     0.00000142721 * (tf * tf * tf * rh) +
     0.000000197483 * (tf * rh * rh * rh) -
     0.0000000218429 * (tf * tf * tf * rh * rh) +
     0.000000000843296 * (tf * tf * rh * rh * rh) -
     0.0000000000481975 * (tf * tf * tf * rh * rh * rh) in
   ((index - 32) * 5) / 9)%Q.

(** [observer.update(subject)] for a weather station as subject; the
    [display()] that follows only logs. *)
Definition update (subject : WeatherStation.t) (this : WeatherObserver) : WeatherObserver :=
  match this with
  | CurrentConditionsDisplay _ _ =>
      CurrentConditionsDisplay (WeatherStation.getTemperature subject)
        (WeatherStation.getHumidity subject)
  | StatisticsDisplay temperatures =>
      StatisticsDisplay (temperatures ++ [WeatherStation.getTemperature subject])
  | ForecastDisplay currentPressure _ =>
      ForecastDisplay (WeatherStation.getPressure subject) currentPressure
  | HeatIndexDisplay _ =>
      HeatIndexDisplay (computeHeatIndex (WeatherStation.getTemperature subject)
                          (WeatherStation.getHumidity subject))
  end.

(** The constructors of the displays. *)
Definition newCurrentConditionsDisplay : WeatherObserver := CurrentConditionsDisplay 0 0.
Definition newStatisticsDisplay : WeatherObserver := StatisticsDisplay [].
Definition newForecastDisplay : WeatherObserver := ForecastDisplay 29.92 0.
Definition newHeatIndexDisplay : WeatherObserver := HeatIndexDisplay 0.

(** The station, the store of observer objects and the log of the [update]
    calls made so far, each entry naming the observer that was called. *)
Record world : Type := mkWorld {
  station : WeatherStation.t;
  store : gmap ref WeatherObserver;
  updates : list ref
}.

(** [notify()]: [for (const observer of this.observers) observer.update(this)] *)
Definition notify (w : world) : world :=
  fold_left
    (fun w observer =>
       {| station := station w;
          store := alter (update (station w)) observer (store w);
          updates := updates w ++ [observer] |})
    (WeatherStation.observers (station w)) w.

Definition setMeasurements (temperature humidity pressure : Q) (w : world) : world :=
  notify
    {| station :=
         {| WeatherStation.observers := WeatherStation.observers (station w);
            WeatherStation.temperature := temperature;
            WeatherStation.humidity := humidity;
            WeatherStation.pressure := pressure |};
       store := store w; updates := updates w |}.

(** The calls a client makes on the station. *)
Inductive call : Type :=
| Attach (observer : ref)
| Detach (observer : ref)
| Notify
| SetMeasurements (temperature humidity pressure : Q).

Definition step (w : world) (c : call) : world :=
  match c with
  | Attach observer =>
      {| station := WeatherStation.attach observer (station w);
         store := store w; updates := updates w |}
  | Detach observer =>
      {| station := WeatherStation.detach observer (station w);
         store := store w; updates := updates w |}
  | Notify => notify w
  | SetMeasurements temperature humidity pressure =>
      setMeasurements temperature humidity pressure w
  end.

Definition run (calls : list call) (w : world) : world := fold_left step calls w.

(** A new station with the observer objects created so far. *)
Definition initial (store : gmap ref WeatherObserver) : world :=
  {| station := WeatherStation.new; store := store; updates := [] |}.

(** How many [update] calls an observer has received. *)
Definition received (observer : ref) (w : world) : nat :=
  count_occ Nat.eq_dec (updates w) observer.

(** The statistics of a [StatisticsDisplay], as functions of its
    [temperatures]; [Math.min(...temperatures)] folds [Math.min] over the
    array. *)
Definition getMinTemperature (temperatures : list Q) : Q :=
  match temperatures with
  | [] => 0%Q
  | first :: rest => fold_left JS.Math_min rest first
  end.

Definition getMaxTemperature (temperatures : list Q) : Q :=
  match temperatures with
  | [] => 0%Q
  | first :: rest => fold_left JS.Math_max rest first
  end.

(** The station of [setMeasurements] before it notifies. *)
Definition measured (temperature humidity pressure : Q) (this : WeatherStation.t)
    : WeatherStation.t :=
  {| WeatherStation.observers := WeatherStation.observers this;
     WeatherStation.temperature := temperature;
     WeatherStation.humidity := humidity;
     WeatherStation.pressure := pressure |}.

(** *** The stock market

    [observers] is a [Map] from the observer to the symbols it subscribed
    to: an association list in insertion order with one entry per observer.
    [stocks] maps a symbol to its price. *)
Module StockMarket.

Record t : Type := mk {
  observers : list (ref * list string);
  stocks : gmap string Q
}.

(** [new StockMarket()] *)
Definition new : t := {| observers := []; stocks := ∅ |}.

(** [Map.prototype.set]: the value of a key that is present is replaced
    where it stands, a new key goes to the end. *)
Fixpoint set (key : ref) (value : list string) (entries : list (ref * list string))
    : list (ref * list string) :=
  match entries with
  | [] => [(key, value)]
  | (k, v) :: rest =>
      if decide (k = key) then (key, value) :: rest
      else (k, v) :: set key value rest
  end.

(** [Map.prototype.has] and [Map.prototype.delete] *)
Definition has (key : ref) (entries : list (ref * list string)) : bool :=
  bool_decide (key ∈ entries.*1).

Definition delete (key : ref) (entries : list (ref * list string))
    : list (ref * list string) :=
  filter (fun entry => entry.1 <> key) entries.

(** [attach(observer, stocks = [])] *)
Definition attach (observer : ref) (stocks : list string) (this : t) : t :=
  {| observers := set observer stocks (observers this);
     StockMarket.stocks := StockMarket.stocks this |}.

Definition detach (observer : ref) (this : t) : t :=
  let isExist := has observer (observers this) in
  if negb isExist then this
  else {| observers := delete observer (observers this);
          stocks := stocks this |}.

Definition getStockPrice (symbol : string) (this : t) : JS.maybe Q :=
  match stocks this !! symbol with
  | Some price => JS.object price
  | None => JS.undefined
  end.

Definition getAllStocks (this : t) : gmap string Q := stocks this.

(** The test of [notify]: [stocks.length === 0 || stocks.includes(symbol)] *)
Definition subscribed (symbol : string) (stocks : list string) : bool :=
  (JS.length stocks =? 0)%Z || JS.includes stocks symbol.

End StockMarket.

(** The observers of the stock market.  A dashboard keeps the prices it was
    told; an alert service keeps its thresholds [{ min, max }]. *)
Inductive StockObserver : Type :=
| StockDashboard (name : string) (stocks : gmap string (JS.maybe Q))
| StockAlertService (alertThresholds : gmap string (Q * Q)).

(** What [triggerAlert] reports. *)
Record Alert : Type := mkAlert {
  alertSymbol : string;
  alertPrice : Q;
  direction : string;
  threshold : Q
}.

(** An alert reports the symbol and the price that changed, and a price
    outside the threshold it names. *)
Definition alertFor (symbol : string) (price : Q) (alert : Alert) : Prop :=
  alertSymbol alert = symbol /\ alertPrice alert = price /\
  ((direction alert = "below" /\ (price < threshold alert)%Q) \/
   (direction alert = "above" /\ (threshold alert < price)%Q)).

(** [observer.update(subject, symbol)] for a stock market as subject: the
    observer after the call and the alerts it triggered.  The displays of a
    dashboard only log. *)
Definition updateStock (subject : StockMarket.t) (symbol : string)
    (this : StockObserver) : StockObserver * list Alert :=
  match this with
  | StockDashboard name stocks =>
      if JS.truthy_string symbol then
        (StockDashboard name
           (<[symbol := StockMarket.getStockPrice symbol subject]> stocks), [])
      else
        (StockDashboard name (JS.object <$> StockMarket.getAllStocks subject), [])
  | StockAlertService alertThresholds =>
      if JS.truthy_string symbol then
        match StockMarket.getStockPrice symbol subject,
              alertThresholds !! symbol with
        | JS.object price, Some (min, max) =>
            if JS.lt price min then (this, [mkAlert symbol price "below" min])
            else if JS.lt max price then (this, [mkAlert symbol price "above" max])
            else (this, [])
        | _, _ => (this, [])
        end
      else (this, [])
  end.

(** The market, the store of its observer objects, the log of the [update]
    calls made so far and the alerts triggered so far. *)
Record market : Type := mkMarket {
  subject : StockMarket.t;
  objects : gmap ref StockObserver;
  updated : list (ref * string);
  alerts : list Alert
}.

(** [notify(symbol)]: the observers whose subscription is empty or includes
    the symbol are updated, in the order of the map.  [notifyEntry] is one
    turn of the loop. *)
Definition notifyEntry (symbol : string) (m : market) (entry : ref * list string)
    : market :=
  let '(observer, stocks) := entry in
  if StockMarket.subscribed symbol stocks then
    match objects m !! observer with
    | Some object =>
        let '(object, triggered) := updateStock (subject m) symbol object in
        {| subject := subject m;
           objects := <[observer := object]> (objects m);
           updated := updated m ++ [(observer, symbol)];
           alerts := alerts m ++ triggered |}
    | None =>
        {| subject := subject m; objects := objects m;
           updated := updated m ++ [(observer, symbol)];
           alerts := alerts m |}
    end
  else m.

Definition notifyStock (symbol : string) (m : market) : market :=
  fold_left (notifyEntry symbol) (StockMarket.observers (subject m)) m.

(** [setStockPrice(symbol, price)] *)
Definition setStockPrice (symbol : string) (price : Q) (m : market) : market :=
  notifyStock symbol
    {| subject :=
         {| StockMarket.observers := StockMarket.observers (subject m);
            StockMarket.stocks := <[symbol := price]> (StockMarket.stocks (subject m)) |};
       objects := objects m; updated := updated m; alerts := alerts m |}.

(** The calls a client makes on the market. *)
Inductive marketCall : Type :=
| AttachStocks (observer : ref) (stocks : list string)
| DetachStocks (observer : ref)
| SetStockPrice (symbol : string) (price : Q).

Definition marketStep (m : market) (c : marketCall) : market :=
  match c with
  | AttachStocks observer stocks =>
      {| subject := StockMarket.attach observer stocks (subject m);
         objects := objects m; updated := updated m; alerts := alerts m |}
  | DetachStocks observer =>
      {| subject := StockMarket.detach observer (subject m);
         objects := objects m; updated := updated m; alerts := alerts m |}
  | SetStockPrice symbol price => setStockPrice symbol price m
  end.

Definition marketRun (calls : list marketCall) (m : market) : market :=
  fold_left marketStep calls m.

(** A new market with the observer objects created so far. *)
Definition newMarket (objects : gmap ref StockObserver) : market :=
  {| subject := StockMarket.new; objects := objects; updated := []; alerts := [] |}.

(** *** The event emitter

    [events] maps an event name to the array of its callbacks; a callback is
    a function object, known by its identity.  The callbacks are taken not
    to call back into the emitter. *)
Module EventEmitter.

Definition callback : Type := nat.

Record t : Type := mk { events : gmap string (list callback) }.

(** [new EventEmitter()] *)
Definition new : t := {| events := ∅ |}.

(** [on(eventName, callback)]: the emitter after the call.  The function it
    returns is [unsubscribe eventName callback]. *)
Definition on (eventName : string) (callback : callback) (this : t) : t :=
  let events :=
    if bool_decide (is_Some (events this !! eventName)) then events this
    else <[eventName := []]> (events this) in
  {| events :=
       <[eventName := default [] (events !! eventName) ++ [callback]]> events |}.

(** The function returned by [on].  [None]: the call fails with a
    [TypeError], the event having no array of callbacks any more. *)
Definition unsubscribe (eventName : string) (callback : callback) (this : t)
    : option t :=
  match events this !! eventName with
  | Some callbacks =>
      let index := JS.indexOf callbacks callback in
      if negb (index =? -1)%Z
      then Some {| events := <[eventName := JS.splice1 callbacks index]> (events this) |}
      else Some this
  | None => None
  end.

(** [emit(eventName, ...args)]: the calls it makes, in order. *)
Definition emit {A} (eventName : string) (args : A) (this : t)
    : list (callback * A) :=
  match events this !! eventName with
  | Some callbacks => map (fun callback => (callback, args)) callbacks
  | None => []
  end.

(** [removeAllListeners(eventName)]; [None] is a call without argument. *)
Definition removeAllListeners (eventName : option string) (this : t) : t :=
  match eventName with
  | Some eventName =>
      if JS.truthy_string eventName
      then {| events := base.delete eventName (events this) |}
      else {| events := ∅ |}
  | None => {| events := ∅ |}
  end.

Definition listenerCount (eventName : string) (this : t) : Z :=
  match events this !! eventName with
  | Some callbacks => JS.length callbacks
  | None => 0
  end.

End EventEmitter.

End Observer.

(** ** Singleton *)

Module Singleton.

(** Objects have an identity: [new] hands out a reference never used before. *)
Definition ref : Type := nat.

(** The static property [Singleton.instance] ([None] is [undefined]) and
    the number of objects allocated so far. *)
Record world : Type := mkWorld {
  instance : option ref;
  allocated : nat
}.

(** The class as it is loaded: [static instance = undefined]. *)
Definition initial : world := {| instance := None; allocated := 0 |}.

(** [new Singleton()]: the object is allocated, then the constructor runs and
    throws when an instance exists. *)
Definition construct (w : world) : JS.completion ref * world :=
  let this := allocated w in
  let w := {| instance := instance w; allocated := S (allocated w) |} in
  match instance w with
  | Some _ =>
      (JS.Throw (JS.mkError "Singleton instance already exists. Use getInstance() instead."),
       w)
  | None => (JS.Return this, w)
  end.

(** [Singleton.getInstance()] *)
Definition getInstance (w : world) : JS.completion ref * world :=
  match instance w with
  | None =>
      match construct w with
      | (JS.Return created, w) =>
          let w := {| instance := Some created; allocated := allocated w |} in
          (JS.Return created, w)
      | (JS.Throw e, w) => (JS.Throw e, w)
      end
  | Some existing => (JS.Return existing, w)
  end.

(** The calls a client can make on the class. *)
Inductive call : Type := GetInstance | New.

Definition step (w : world) (c : call) : world :=
  match c with
  | GetInstance => snd (getInstance w)
  | New => snd (construct w)
  end.

Definition run (calls : list call) (w : world) : world := fold_left step calls w.

End Singleton.

(** ** Proxy: cached, access-checked database *)

Module Proxy.

(** The clock of the host in milliseconds.  The delays the example simulates
    are idealised: awaiting [setTimeout(resolve, ms)] advances the clock by
    [ms], and [new Date()] reads it.  Exactly one operation is in flight at a
    time. *)
Definition clock : Type := Z.

Record record_ : Type := mkRecord { id : Z; recordName : string }.

(** What [DatabaseSource.getData] returns. *)
Record QueryResult : Type := mkQueryResult {
  query : string;
  timestamp : Z;
  results : list record_
}.

Module DatabaseSource.

Record t : Type := mk {
  connectionString : string;
  isConnected : bool;
  connectionTime : option Z
}.

Definition new (connectionString : string) : t :=
  {| connectionString := connectionString; isConnected := false;
     connectionTime := None |}.

Definition connect (this : t) (now : clock) : t * clock :=
  let now := (now + 1000)%Z in
  ({| connectionString := connectionString this; isConnected := true;
      connectionTime := Some now |}, now).

Definition disconnect (this : t) (now : clock) : t * clock :=
  if isConnected this then
    let now := (now + 300)%Z in
    ({| connectionString := connectionString this; isConnected := false;
        connectionTime := connectionTime this |}, now)
  else (this, now).

Definition getData (query : string) (this : t) (now : clock)
    : QueryResult * t * clock :=
  let '(this, now) := if negb (isConnected this) then connect this now else (this, now) in
  let now := (now + 500)%Z in
  let result :=
    {| query := query; timestamp := now;
       results := [ mkRecord 1 "Sample data 1"; mkRecord 2 "Sample data 2";
                    mkRecord 3 "Sample data 3" ] |} in
  (result, this, now).

Definition saveData (data : JS.value) (this : t) (now : clock) : bool * t * clock :=
  let '(this, now) := if negb (isConnected this) then connect this now else (this, now) in
  let now := (now + 800)%Z in
  (true, this, now).

End DatabaseSource.

Module DatabaseProxy.

Record t : Type := mk {
  connectionString : string;
  accessLevel : string;
  realDatabase : option DatabaseSource.t;
  cache : gmap string QueryResult;
  cacheHits : Z;
  cacheMisses : Z;
  lastAccess : option Z
}.

(** [new DatabaseProxy(connectionString, accessLevel = 'read')] *)
Definition new (connectionString accessLevel : string) : t :=
  {| connectionString := connectionString; accessLevel := accessLevel;
     realDatabase := None; cache := ∅; cacheHits := 0; cacheMisses := 0;
     lastAccess := None |}.

Definition getRealDatabase (this : t) : DatabaseSource.t * t :=
  match realDatabase this with
  | None =>
      let created := DatabaseSource.new (connectionString this) in
      (created,
       {| connectionString := connectionString this; accessLevel := accessLevel this;
          realDatabase := Some created; cache := cache this;
          cacheHits := cacheHits this; cacheMisses := cacheMisses this;
          lastAccess := lastAccess this |})
  | Some database => (database, this)
  end.

(** The real database is owned by the proxy: what a call on it leaves behind
    is written back. *)
Definition setRealDatabase (database : DatabaseSource.t) (this : t) : t :=
  {| connectionString := connectionString this; accessLevel := accessLevel this;
     realDatabase := Some database; cache := cache this;
     cacheHits := cacheHits this; cacheMisses := cacheMisses this;
     lastAccess := lastAccess this |}.

Definition checkAccess (operation : string) (this : t) (now : clock) : bool * t :=
  let this :=
    {| connectionString := connectionString this; accessLevel := accessLevel this;
       realDatabase := realDatabase this; cache := cache this;
       cacheHits := cacheHits this; cacheMisses := cacheMisses this;
       lastAccess := Some now |} in
  if bool_decide (operation = "write") && negb (bool_decide (accessLevel this = "write"))
  then (false, this)
  else (true, this).

Definition getData (query : string) (this : t) (now : clock)
    : JS.completion QueryResult * t * clock :=
  let '(allowed, this) := checkAccess "read" this now in
  if negb allowed then
    (JS.Throw (JS.mkError "Access denied: Read operation not allowed."), this, now)
  else
    match cache this !! query with
    | Some cached =>
        (JS.Return cached,
         {| connectionString := connectionString this; accessLevel := accessLevel this;
            realDatabase := realDatabase this; cache := cache this;
            cacheHits := cacheHits this + 1; cacheMisses := cacheMisses this;
            lastAccess := lastAccess this |},
         now)
    | None =>
        let this :=
          {| connectionString := connectionString this; accessLevel := accessLevel this;
             realDatabase := realDatabase this; cache := cache this;
             cacheHits := cacheHits this; cacheMisses := cacheMisses this + 1;
             lastAccess := lastAccess this |} in
        let '(database, this) := getRealDatabase this in
        let '(result, database, now) := DatabaseSource.getData query database now in
        let this := setRealDatabase database this in
        (JS.Return result,
         {| connectionString := connectionString this; accessLevel := accessLevel this;
            realDatabase := realDatabase this; cache := <[query := result]> (cache this);
            cacheHits := cacheHits this; cacheMisses := cacheMisses this;
            lastAccess := lastAccess this |},
         now)
    end.

Definition saveData (data : JS.value) (this : t) (now : clock)
    : JS.completion bool * t * clock :=
  let '(allowed, this) := checkAccess "write" this now in
  if negb allowed then
    (JS.Throw (JS.mkError
       "Access denied: Write operation not allowed with current access level."),
     this, now)
  else if negb (JS.truthy_value data) || negb (bool_decide (JS.typeof data = "object")) then
    (JS.Throw (JS.mkError "Invalid data format. Object expected."), this, now)
  else
    let '(database, this) := getRealDatabase this in
    let '(result, database, now) := DatabaseSource.saveData data database now in
    let this := setRealDatabase database this in
    (JS.Return result,
     {| connectionString := connectionString this; accessLevel := accessLevel this;
        realDatabase := realDatabase this; cache := ∅;
        cacheHits := cacheHits this; cacheMisses := cacheMisses this;
        lastAccess := lastAccess this |},
     now).

Record CacheStats : Type := mkCacheStats {
  size : Z;
  hits : Z;
  misses : Z;
  hitRatio : Q;
  statsLastAccess : option Z
}.

(** [hitRatio: this.cacheHits / (this.cacheHits + this.cacheMisses || 1)] *)
Definition getCacheStats (this : t) : CacheStats :=
  let total := (cacheHits this + cacheMisses this)%Z in
  {| size := Z.of_nat (base.size (cache this));
     hits := cacheHits this;
     misses := cacheMisses this;
     hitRatio := (inject_Z (cacheHits this)
                  / inject_Z (if (total =? 0)%Z then 1 else total))%Q;
     statsLastAccess := lastAccess this |}.

Definition clearCache (this : t) : t :=
  {| connectionString := connectionString this; accessLevel := accessLevel this;
     realDatabase := realDatabase this; cache := ∅;
     cacheHits := cacheHits this; cacheMisses := cacheMisses this;
     lastAccess := lastAccess this |}.

Definition close (this : t) (now : clock) : t * clock :=
  match realDatabase this with
  | Some database =>
      if DatabaseSource.isConnected database then
        let '(database, now) := DatabaseSource.disconnect database now in
        (setRealDatabase database this, now)
      else (this, now)
  | None => (this, now)
  end.

End DatabaseProxy.

(** The calls a client makes on a proxy, one after the other; between two
    calls any time can pass. *)
Inductive proxyCall : Type :=
| GetData (query : string)
| SaveData (data : JS.value)
| ClearCache
| Close
| Wait (ms : N).

Definition proxyStep (state : DatabaseProxy.t * clock) (c : proxyCall)
    : DatabaseProxy.t * clock :=
  let '(this, now) := state in
  match c with
  | GetData query =>
      let '(_, this, now) := DatabaseProxy.getData query this now in (this, now)
  | SaveData data =>
      let '(_, this, now) := DatabaseProxy.saveData data this now in (this, now)
  | ClearCache => (DatabaseProxy.clearCache this, now)
  | Close => DatabaseProxy.close this now
  | Wait ms => (this, (now + Z.of_N ms)%Z)
  end.

Definition proxyRun (calls : list proxyCall) (state : DatabaseProxy.t * clock)
    : DatabaseProxy.t * clock :=
  fold_left proxyStep calls state.

(** What holds of a proxy created at the time [start], at the time [now]. *)
Definition proxyInvariant (start : clock) (state : DatabaseProxy.t * clock) : Prop :=
  let '(this, now) := state in
  (start <= now)%Z /\
  (0 <= DatabaseProxy.cacheHits this)%Z /\
  (Z.of_nat (base.size (DatabaseProxy.cache this)) <= DatabaseProxy.cacheMisses this)%Z /\
  (forall query result,
     DatabaseProxy.cache this !! query = Some result ->
     Proxy.query result = query /\ (start < timestamp result <= now)%Z) /\
  (DatabaseProxy.realDatabase this = None ->
   DatabaseProxy.cache this = ∅ /\ DatabaseProxy.cacheMisses this = 0%Z) /\
  (forall accessed, DatabaseProxy.lastAccess this = Some accessed ->
                    (start <= accessed <= now)%Z).

End Proxy.

(** ** Bridge: devices and remote controls *)

Module Bridge.

(** What [getStatus()] returns; a field a device does not report is [None].
    A volume is a double, so that it can be [NaN].  A channel, a frequency
    or an app index is a rational: one that is [NaN] or infinite fails the
    tests of its range as a rational outside the range does, and the steps
    of [channelUp] and [channelDown] are added without rounding. *)
Record Status : Type := mkStatus {
  deviceType : string;
  statusBrand : string;
  powerStatus : string;
  statusVolume : float;
  statusChannel : option Q;
  frequency : option Q;
  band : option string;
  statusCurrentApp : option (option string);
  statusAvailableApps : option (list string)
}.

Module TV.

Record t : Type := mk {
  brand : string;
  isOn : bool;
  volume : float;
  channel : Q;
  maxChannels : Q
}.

(** [new TV(brand = 'Generic')] *)
Definition new (brand : string) : t :=
  {| brand := brand; isOn := false; volume := 30; channel := 1; maxChannels := 100 |}.

Definition turnOn (this : t) : t :=
  {| brand := brand this; isOn := true; volume := volume this;
     channel := channel this; maxChannels := maxChannels this |}.

Definition turnOff (this : t) : t :=
  {| brand := brand this; isOn := false; volume := volume this;
     channel := channel this; maxChannels := maxChannels this |}.

Definition setVolume (percent : float) (this : t) : t :=
  if negb (isOn this) then this
  else {| brand := brand this; isOn := isOn this;
          volume := JS.Double.Math_max 0 (JS.Double.Math_min 100 percent);
          channel := channel this; maxChannels := maxChannels this |}.

Definition setChannel (channel : Q) (this : t) : t :=
  if negb (isOn this) then this
  else if JS.lt 0 channel && JS.le channel (maxChannels this) then
    {| brand := brand this; isOn := isOn this; volume := volume this;
       channel := channel; maxChannels := maxChannels this |}
  else this.

Definition getStatus (this : t) : Status :=
  {| deviceType := "TV"; statusBrand := brand this;
     powerStatus := if isOn this then "ON" else "OFF";
     statusVolume := volume this; statusChannel := Some (channel this);
     frequency := None; band := None;
     statusCurrentApp := None; statusAvailableApps := None |}.

End TV.

Module Radio.

Record t : Type := mk {
  brand : string;
  isOn : bool;
  volume : float;
  channel : Q;
  isFM : bool
}.

(** [new Radio(brand = 'Generic')] *)
Definition new (brand : string) : t :=
  {| brand := brand; isOn := false; volume := 20; channel := 87.5; isFM := true |}.

Definition turnOn (this : t) : t :=
  {| brand := brand this; isOn := true; volume := volume this;
     channel := channel this; isFM := isFM this |}.

Definition turnOff (this : t) : t :=
  {| brand := brand this; isOn := false; volume := volume this;
     channel := channel this; isFM := isFM this |}.

Definition setVolume (percent : float) (this : t) : t :=
  if negb (isOn this) then this
  else {| brand := brand this; isOn := isOn this;
          volume := JS.Double.Math_max 0 (JS.Double.Math_min 100 percent);
          channel := channel this; isFM := isFM this |}.

Definition setChannel (channel : Q) (this : t) : t :=
  if negb (isOn this) then this
  else
    let tuned := {| brand := brand this; isOn := isOn this; volume := volume this;
                    channel := channel; isFM := isFM this |} in
    if isFM this then
      if JS.le 87.5 channel && JS.le channel 108.0 then tuned else this
    else
      if JS.le 540 channel && JS.le channel 1600 then tuned else this.

Definition toggleBand (this : t) : t :=
  if negb (isOn this) then this
  else
    let isFM := negb (isFM this) in
    {| brand := brand this; isOn := isOn this; volume := volume this;
       channel := if isFM then 87.5 else 1000; isFM := isFM |}.

Definition getStatus (this : t) : Status :=
  {| deviceType := "Radio"; statusBrand := brand this;
     powerStatus := if isOn this then "ON" else "OFF";
     statusVolume := volume this; statusChannel := None;
     frequency := Some (channel this);
     band := Some (if isFM this then "FM" else "AM");
     statusCurrentApp := None; statusAvailableApps := None |}.

End Radio.

Module SmartSpeaker.

(** [channel] is [null] and no method assigns it; [currentApp] is a name, or
    [undefined] ([None]) after an index that names no element. *)
Record t : Type := mk {
  brand : string;
  isOn : bool;
  volume : float;
  channel : JS.maybe Q;
  currentApp : option string;
  availableApps : list string
}.

(** [new SmartSpeaker(brand = 'Generic')] *)
Definition new (brand : string) : t :=
  {| brand := brand; isOn := false; volume := 40; channel := JS.null;
     currentApp := Some "None";
     availableApps := ["Music"; "Podcast"; "News"; "Weather"; "Home Control"] |}.

Definition turnOn (this : t) : t :=
  {| brand := brand this; isOn := true; volume := volume this;
     channel := channel this; currentApp := currentApp this; availableApps := availableApps this |}.

Definition turnOff (this : t) : t :=
  {| brand := brand this; isOn := false; volume := volume this;
     channel := channel this; currentApp := currentApp this; availableApps := availableApps this |}.

Definition setVolume (percent : float) (this : t) : t :=
  if negb (isOn this) then this
  else {| brand := brand this; isOn := isOn this;
          volume := JS.Double.Math_max 0 (JS.Double.Math_min 100 percent);
          channel := channel this;
          currentApp := currentApp this; availableApps := availableApps this |}.

(** For a smart speaker [setChannel] selects an app. *)
Definition setChannel (appIndex : Q) (this : t) : t :=
  if negb (isOn this) then this
  else if JS.le 0 appIndex
          && JS.lt appIndex (inject_Z (JS.length (availableApps this))) then
    {| brand := brand this; isOn := isOn this; volume := volume this;
       channel := channel this;
       currentApp := match JS.getQ (availableApps this) appIndex with
                     | JS.object app => Some app
                     | JS.null | JS.undefined => None
                     end;
       availableApps := availableApps this |}
  else this.

Definition setCurrentApp (app : string) (this : t) : t :=
  {| brand := brand this; isOn := isOn this; volume := volume this;
     channel := channel this; currentApp := Some app; availableApps := availableApps this |}.

Definition voiceCommand (command : string) (this : t) : t :=
  if negb (isOn this) then this
  else if JS.includes_string (JS.toLowerCase command) "play music" then
    setCurrentApp "Music" this
  else if JS.includes_string (JS.toLowerCase command) "weather" then
    setCurrentApp "Weather" this
  else if JS.includes_string (JS.toLowerCase command) "volume up" then
    setVolume (volume this + 10)%float this
  else if JS.includes_string (JS.toLowerCase command) "volume down" then
    setVolume (volume this - 10)%float this
  else this.

Definition getStatus (this : t) : Status :=
  {| deviceType := "Smart Speaker"; statusBrand := brand this;
     powerStatus := if isOn this then "ON" else "OFF";
     statusVolume := volume this; statusChannel := None;
     frequency := None; band := None;
     statusCurrentApp := Some (currentApp this);
     statusAvailableApps := Some (availableApps this) |}.

End SmartSpeaker.

(** A device behind the [DeviceImplementation] interface. *)
Inductive Device : Type :=
| ATV (tv : TV.t)
| ARadio (radio : Radio.t)
| ASmartSpeaker (speaker : SmartSpeaker.t).

Definition turnOn (device : Device) : Device :=
  match device with
  | ATV tv => ATV (TV.turnOn tv)
  | ARadio radio => ARadio (Radio.turnOn radio)
  | ASmartSpeaker speaker => ASmartSpeaker (SmartSpeaker.turnOn speaker)
  end.

Definition turnOff (device : Device) : Device :=
  match device with
  | ATV tv => ATV (TV.turnOff tv)
  | ARadio radio => ARadio (Radio.turnOff radio)
  | ASmartSpeaker speaker => ASmartSpeaker (SmartSpeaker.turnOff speaker)
  end.

Definition setVolume (percent : float) (device : Device) : Device :=
  match device with
  | ATV tv => ATV (TV.setVolume percent tv)
  | ARadio radio => ARadio (Radio.setVolume percent radio)
  | ASmartSpeaker speaker => ASmartSpeaker (SmartSpeaker.setVolume percent speaker)
  end.

Definition setChannel (channel : Q) (device : Device) : Device :=
  match device with
  | ATV tv => ATV (TV.setChannel channel tv)
  | ARadio radio => ARadio (Radio.setChannel channel radio)
  | ASmartSpeaker speaker => ASmartSpeaker (SmartSpeaker.setChannel channel speaker)
  end.

Definition getStatus (device : Device) : Status :=
  match device with
  | ATV tv => TV.getStatus tv
  | ARadio radio => Radio.getStatus radio
  | ASmartSpeaker speaker => SmartSpeaker.getStatus speaker
  end.

Definition isOn (device : Device) : bool :=
  match device with
  | ATV tv => TV.isOn tv
  | ARadio radio => Radio.isOn radio
  | ASmartSpeaker speaker => SmartSpeaker.isOn speaker
  end.

Definition volume (device : Device) : float :=
  match device with
  | ATV tv => TV.volume tv
  | ARadio radio => Radio.volume radio
  | ASmartSpeaker speaker => SmartSpeaker.volume speaker
  end.

(** The remote controls, as functions of the device they hold. *)
Module RemoteControl.

Definition power (device : Device) : Device :=
  if bool_decide (powerStatus (getStatus device) = "ON") then turnOff device
  else turnOn device.

(** [volumeUp(amount = 10)] and [volumeDown(amount = 10)] *)
Definition volumeUp (amount : float) (device : Device) : Device :=
  let currentVolume := statusVolume (getStatus device) in
  setVolume (currentVolume + amount)%float device.

Definition volumeDown (amount : float) (device : Device) : Device :=
  let currentVolume := statusVolume (getStatus device) in
  setVolume (currentVolume - amount)%float device.

Definition setChannel (channel : Q) (device : Device) : Device :=
  Bridge.setChannel channel device.

End RemoteControl.

Module AdvancedRemoteControl.

Definition mute (device : Device) : Device := setVolume 0 device.

Definition channelUp (device : Device) : Device :=
  match device with
  | ATV tv => setChannel (TV.channel tv + 1) device
  | ARadio radio =>
      if Radio.isFM radio then setChannel (Radio.channel radio + 0.1) device
      else setChannel (Radio.channel radio + 10) device
  | ASmartSpeaker speaker =>
      let apps := SmartSpeaker.availableApps speaker in
      let appIndex :=
        match SmartSpeaker.currentApp speaker with
        | Some app => JS.indexOf apps app
        | None => (-1)%Z
        end in
      let nextAppIndex := Z.rem (appIndex + 1) (JS.length apps) in
      setChannel (inject_Z nextAppIndex) device
  end.

Definition channelDown (device : Device) : Device :=
  match device with
  | ATV tv => setChannel (TV.channel tv - 1) device
  | ARadio radio =>
      if Radio.isFM radio then setChannel (Radio.channel radio - 0.1) device
      else setChannel (Radio.channel radio - 10) device
  | ASmartSpeaker speaker =>
      let apps := SmartSpeaker.availableApps speaker in
      let appIndex :=
        match SmartSpeaker.currentApp speaker with
        | Some app => JS.indexOf apps app
        | None => (-1)%Z
        end in
      let prevAppIndex := Z.rem (appIndex - 1 + JS.length apps) (JS.length apps) in
      setChannel (inject_Z prevAppIndex) device
  end.

Definition performSpecialAction (device : Device) : Device :=
  match device with
  | ATV _ => device
  | ARadio radio => ARadio (Radio.toggleBand radio)
  | ASmartSpeaker speaker => ASmartSpeaker (SmartSpeaker.voiceCommand "play music" speaker)
  end.

End AdvancedRemoteControl.

(** The operations a client can perform on a device, directly or through a
    remote control; every argument is a number, or a string for a voice
    command.  [toggleBand] exists on radios only and [voiceCommand] on smart
    speakers only: on another device the call fails before it changes
    anything.  A universal remote control adds nothing for one device: its
    [masterPower] calls [turnOn] or [turnOff]. *)
Inductive operation : Type :=
| TurnOn
| TurnOff
| SetVolume (percent : float)
| SetChannel (channel : Q)
| ToggleBand
| VoiceCommand (command : string)
| Power
| VolumeUp (amount : float)
| VolumeDown (amount : float)
| Mute
| ChannelUp
| ChannelDown
| PerformSpecialAction.

Definition perform (device : Device) (op : operation) : Device :=
  match op with
  | TurnOn => turnOn device
  | TurnOff => turnOff device
  | SetVolume percent => setVolume percent device
  | SetChannel channel => setChannel channel device
  | ToggleBand =>
      match device with
      | ARadio radio => ARadio (Radio.toggleBand radio)
      | _ => device
      end
  | VoiceCommand command =>
      match device with
      | ASmartSpeaker speaker => ASmartSpeaker (SmartSpeaker.voiceCommand command speaker)
      | _ => device
      end
  | Power => RemoteControl.power device
  | VolumeUp amount => RemoteControl.volumeUp amount device
  | VolumeDown amount => RemoteControl.volumeDown amount device
  | Mute => AdvancedRemoteControl.mute device
  | ChannelUp => AdvancedRemoteControl.channelUp device
  | ChannelDown => AdvancedRemoteControl.channelDown device
  | PerformSpecialAction => AdvancedRemoteControl.performSpecialAction device
  end.

Definition performAll (ops : list operation) (device : Device) : Device :=
  fold_left perform ops device.

(** The devices [clientCode] creates. *)
Definition newTV (brand : string) : Device := ATV (TV.new brand).
Definition newRadio (brand : string) : Device := ARadio (Radio.new brand).
Definition newSmartSpeaker (brand : string) : Device := ASmartSpeaker (SmartSpeaker.new brand).

(** The volume of the device is a percentage. *)
Definition volumeRange (device : Device) : Prop :=
  (0 <=? volume device)%float = true /\ (volume device <=? 100)%float = true.

(** No volume and no amount of volume that the operation passes is [NaN]. *)
Definition noNaN (op : operation) : Prop :=
  match op with
  | SetVolume x | VolumeUp x | VolumeDown x => JS.Double.isNaN x = false
  | _ => True
  end.

(** The claim of the specification as it is written: whatever numbers the
    operations pass, the volume stays in the range. *)
Definition volume_always_in_range : Prop :=
  forall (brand : string) (ops : list operation),
    volumeRange (performAll ops (newTV brand)) /\
    volumeRange (performAll ops (newRadio brand)) /\
    volumeRange (performAll ops (newSmartSpeaker brand)).

(** The channel of a TV is one of its channels, and the frequency of a radio
    lies in the band it is tuned to. *)
Definition channelRange (device : Device) : Prop :=
  match device with
  | ATV tv =>
      (0 < TV.channel tv)%Q /\ (TV.channel tv <= 100)%Q /\ TV.maxChannels tv = 100%Q
  | ARadio radio =>
      if Radio.isFM radio
      then (87.5 <= Radio.channel radio)%Q /\ (Radio.channel radio <= 108.0)%Q
      else (540 <= Radio.channel radio)%Q /\ (Radio.channel radio <= 1600)%Q
  | ASmartSpeaker speaker => SmartSpeaker.channel speaker = JS.null
  end.

(** The operations that switch a device on. *)
Definition switchesOn (op : operation) : bool :=
  match op with
  | TurnOn | Power => true
  | _ => false
  end.

(** The universal remote control holds references to device objects: the
    field [device] of the base class, the array [devices] and the index of
    the active device.  The devices themselves live in a store, so that a
    device added twice is one object. *)
Module UniversalRemoteControl.

Definition ref : Type := nat.

Record t : Type := mk {
  device : JS.maybe ref;
  devices : list ref;
  currentDeviceIndex : Z
}.

(** [new UniversalRemoteControl(device)] *)
Definition new (device : ref) : t :=
  {| device := JS.object device; devices := [device]; currentDeviceIndex := 0 |}.

Definition addDevice (device : ref) (this : t) : t :=
  {| device := UniversalRemoteControl.device this;
     devices := devices this ++ [device];
     currentDeviceIndex := currentDeviceIndex this |}.

Definition switchDevice (this : t) : t :=
  let currentDeviceIndex :=
    Z.rem (currentDeviceIndex this + 1) (JS.length (devices this)) in
  {| device := JS.get (devices this) currentDeviceIndex;
     devices := devices this;
     currentDeviceIndex := currentDeviceIndex |}.

(** [masterPower(on)]: the store after the call. *)
Definition masterPower (on : bool) (store : gmap ref Device) (this : t)
    : gmap ref Device :=
  fold_left
    (fun store device =>
       match store !! device with
       | Some object =>
           if negb (Bool.eqb (bool_decide (powerStatus (getStatus object) = "ON")) on)
           then <[device := if on then turnOn object else turnOff object]> store
           else store
       | None => store
       end)
    (devices this) store.

(** The calls that change the remote control itself. *)
Inductive call : Type :=
| AddDevice (device : ref)
| SwitchDevice.

Definition step (this : t) (c : call) : t :=
  match c with
  | AddDevice device => addDevice device this
  | SwitchDevice => switchDevice this
  end.

Definition run (calls : list call) (this : t) : t := fold_left step calls this.

End UniversalRemoteControl.

(** The field [device] of a universal remote control is the entry of
    [devices] at [currentDeviceIndex]. *)
Definition remoteInvariant (this : UniversalRemoteControl.t) : Prop :=
  (0 <= UniversalRemoteControl.currentDeviceIndex this
   < JS.length (UniversalRemoteControl.devices this))%Z /\
  UniversalRemoteControl.device this
  = JS.get (UniversalRemoteControl.devices this)
      (UniversalRemoteControl.currentDeviceIndex this).

(** The devices that a list of calls adds, in order. *)
Definition added (calls : list UniversalRemoteControl.call)
    : list UniversalRemoteControl.ref :=
  flat_map (fun c => match c with
                     | UniversalRemoteControl.AddDevice device => [device]
                     | UniversalRemoteControl.SwitchDevice => []
                     end) calls.

End Bridge.

(** ** Simple factory: users *)

Module SimpleFactory.

(** What the host supplies to a constructor: the clock reading of
    [new Date()], that of [Date.now()], and
    [Math.floor(Math.random() * 10000)]. *)
Record Host : Type := mkHost {
  newDate : Z;
  dateNow : Z;
  random10000 : Z
}.

(** The [data] argument; a property that is absent is [None]. *)
Record UserData : Type := mkUserData {
  dataName : option string;
  dataEmail : option string;
  dataPermissions : option (list string);
  dataAdminLevel : option Z;
  dataSubscription : option string
}.

(** [data = {}] *)
Definition emptyData : UserData :=
  {| dataName := None; dataEmail := None; dataPermissions := None;
     dataAdminLevel := None; dataSubscription := None |}.

(** The fields the [User] constructor sets. *)
Record User : Type := mkUser {
  name : option string;
  email : option string;
  createdAt : Z
}.

Inductive Product : Type :=
| AdminUser (user : User) (permissions : list string) (adminLevel : Z)
| CustomerUser (user : User) (subscription : string) (customerId : string)
| GuestUser (user : User) (sessionId : string) (expiresAt : Z).

Definition newUser (host : Host) (data : UserData) : User :=
  {| name := dataName data; email := dataEmail data; createdAt := newDate host |}.

Definition newAdminUser (host : Host) (data : UserData) : Product :=
  AdminUser (newUser host data)
    (default ["read"; "write"; "delete"] (dataPermissions data))
    (match dataAdminLevel data with
     | Some level => if (level =? 0)%Z then 1%Z else level
     | None => 1%Z
     end).

Definition newCustomerUser (host : Host) (data : UserData) : Product :=
  CustomerUser (newUser host data)
    (match dataSubscription data with
     | Some subscription =>
         if JS.truthy_string subscription then subscription else "free"
     | None => "free"
     end)
    ("CUST-" +:+ JS.toString (random10000 host)).

Definition newGuestUser (host : Host) (data : UserData) : Product :=
  GuestUser (newUser host data)
    ("SESSION-" +:+ JS.toString (random10000 host))
    (dateNow host + 24 * 60 * 60 * 1000)%Z.

(** [UserFactory.createUser(type, data = {})] *)
Definition createUser (host : Host) (type : string) (data : UserData)
    : JS.completion Product :=
  let key := JS.toLowerCase type in
  if bool_decide (key = "admin") then JS.Return (newAdminUser host data)
  else if bool_decide (key = "customer") then JS.Return (newCustomerUser host data)
  else if bool_decide (key = "guest") then JS.Return (newGuestUser host data)
  else JS.Throw (JS.mkError ("User type " +:+ type +:+ " is not recognized.")).

End SimpleFactory.

(** ** Adapter: the modern payment API behind the target interface *)

Module Adapter.

(** What the host supplies: [Date.now()] and the random parts of the
    identifiers.  An amount of money is a double, and [amount * 100] is the
    product of doubles. *)
Record Host : Type := mkHost {
  dateNow : Z;
  randomId : string;
  random1000 : Z
}.

Record PaymentDetails : Type := mkPaymentDetails {
  cardNumber : string;
  expiryDate : string;
  cardHolder : string;
  cvv : string
}.

Module ModernPaymentAPI.

Record t : Type := mk {
  clientId : string;
  clientSecret : string;
  apiName : string
}.

Definition new (clientId clientSecret : string) : t :=
  {| clientId := clientId; clientSecret := clientSecret;
     apiName := "ModernPaymentAPI" |}.

Record Intent : Type := mkIntent {
  intentId : string;
  intentAmount : float;
  intentCurrency : string;
  intentStatus : string;
  intentCreated : Z;
  intentProvider : string
}.

Record Confirmation : Type := mkConfirmation {
  confirmationId : string;
  confirmationStatus : string;
  confirmed : Z;
  confirmationProvider : string
}.

Record Refund : Type := mkRefund {
  refundId : string;
  payment_intent : string;
  refundAmount : float;
  refundStatus : string;
  refundCreated : Z;
  refundProvider : string
}.

Record IntentDetails : Type := mkIntentDetails {
  detailsId : string;
  detailsStatus : string;
  amount_received : float;
  detailsCreated : Z;
  detailsProvider : string
}.

Definition authorize (host : Host) (this : t) : string :=
  "mocked-auth-token-" +:+ JS.toString (dateNow host).

Definition createPaymentIntent (host : Host) (amount : float) (currency : string)
    (this : t) : Intent :=
  {| intentId := "pi_" +:+ randomId host;
     intentAmount := amount;
     intentCurrency := currency;
     intentStatus := "requires_confirmation";
     intentCreated := dateNow host;
     intentProvider := apiName this |}.

Definition confirmPaymentIntent (host : Host) (intentId : string) (this : t)
    : Confirmation :=
  {| confirmationId := intentId;
     confirmationStatus := "succeeded";
     confirmed := dateNow host;
     confirmationProvider := apiName this |}.

Definition createRefund (host : Host) (intentId : string) (amount : float) (this : t)
    : Refund :=
  {| refundId := "re_" +:+ randomId host;
     payment_intent := intentId;
     refundAmount := amount;
     refundStatus := "succeeded";
     refundCreated := dateNow host;
     refundProvider := apiName this |}.

Definition retrievePaymentIntent (host : Host) (intentId : string) (this : t)
    : IntentDetails :=
  {| detailsId := intentId;
     detailsStatus := "succeeded";
     amount_received := 1000;
     detailsCreated := (dateNow host - 3600000)%Z;
     detailsProvider := apiName this |}.

End ModernPaymentAPI.

(** The results of the target interface. *)
Record PaymentResult : Type := mkPaymentResult {
  success : bool;
  transactionId : string;
  amount : float;
  currency : string;
  paymentTimestamp : Z;
  processor : string;
  paymentResponse : ModernPaymentAPI.Confirmation
}.

Record RefundResult : Type := mkRefundResult {
  refundSuccess : bool;
  resultRefundId : string;
  originalTransaction : string;
  refundedAmount : float;
  refundTimestamp : Z;
  refundProcessor : string;
  refundResponse : ModernPaymentAPI.Refund
}.

Record VerificationResult : Type := mkVerificationResult {
  verifiedTransaction : string;
  status : string;
  verificationTimestamp : Z;
  verificationProcessor : string;
  verificationResponse : ModernPaymentAPI.IntentDetails
}.

Module ModernPaymentAdapter.

(** [intentMap] maps the adapter's transaction IDs to the API's intent IDs. *)
Record t : Type := mk {
  modernApi : ModernPaymentAPI.t;
  name : string;
  intentMap : gmap string string
}.

Definition new (modernApi : ModernPaymentAPI.t) : t :=
  {| modernApi := modernApi; name := "ModernPaymentAdapter"; intentMap := ∅ |}.

(** [processPayment]; the confirmation options built from the card only
    reach the log. *)
Definition processPayment (host : Host) (amount : float) (currency : string)
    (paymentDetails : PaymentDetails) (this : t) : PaymentResult * t :=
  let intent :=
    ModernPaymentAPI.createPaymentIntent host (amount * 100)%float
      (JS.toLowerCase currency) (modernApi this) in
  let confirmation :=
    ModernPaymentAPI.confirmPaymentIntent host (ModernPaymentAPI.intentId intent)
      (modernApi this) in
  let transactionId :=
    "MODERN-" +:+ JS.toString (dateNow host) +:+ "-" +:+ JS.toString (random1000 host) in
  let this :=
    {| modernApi := modernApi this; name := name this;
       intentMap := <[transactionId := ModernPaymentAPI.intentId intent]> (intentMap this) |} in
  ({| success := bool_decide (ModernPaymentAPI.confirmationStatus confirmation = "succeeded");
      transactionId := transactionId;
      amount := amount;
      currency := currency;
      paymentTimestamp := ModernPaymentAPI.confirmed confirmation;
      processor := name this;
      paymentResponse := confirmation |},
   this).

(** [const intentId = this.intentMap.get(transactionId); if (!intentId) throw] *)
Definition lookupIntent (transactionId : string) (this : t) : JS.completion string :=
  match intentMap this !! transactionId with
  | Some intentId =>
      if JS.truthy_string intentId then JS.Return intentId
      else JS.Throw (JS.mkError ("Unknown transaction ID: " +:+ transactionId))
  | None => JS.Throw (JS.mkError ("Unknown transaction ID: " +:+ transactionId))
  end.

Definition refundPayment (host : Host) (transactionId : string) (amount : float)
    (this : t) : JS.completion RefundResult :=
  JS.bind (lookupIntent transactionId this) (fun intentId =>
    let refundResult :=
      ModernPaymentAPI.createRefund host intentId (amount * 100)%float (modernApi this) in
    JS.Return
      {| refundSuccess := bool_decide (ModernPaymentAPI.refundStatus refundResult = "succeeded");
         resultRefundId := ModernPaymentAPI.refundId refundResult;
         originalTransaction := transactionId;
         refundedAmount := amount;
         refundTimestamp := ModernPaymentAPI.refundCreated refundResult;
         refundProcessor := name this;
         refundResponse := refundResult |}).

Definition statusMap (apiStatus : string) : option string :=
  if bool_decide (apiStatus = "succeeded") then Some "completed"
  else if bool_decide (apiStatus = "requires_payment_method") then Some "failed"
  else if bool_decide (apiStatus = "requires_confirmation") then Some "pending"
  else if bool_decide (apiStatus = "requires_action") then Some "pending"
  else if bool_decide (apiStatus = "processing") then Some "pending"
  else if bool_decide (apiStatus = "canceled") then Some "failed"
  else None.

Definition verifyPayment (host : Host) (transactionId : string) (this : t)
    : JS.completion VerificationResult :=
  JS.bind (lookupIntent transactionId this) (fun intentId =>
    let intentResult :=
      ModernPaymentAPI.retrievePaymentIntent host intentId (modernApi this) in
    JS.Return
      {| verifiedTransaction := transactionId;
         status := default "unknown" (statusMap (ModernPaymentAPI.detailsStatus intentResult));
         verificationTimestamp := ModernPaymentAPI.detailsCreated intentResult;
         verificationProcessor := name this;
         verificationResponse := intentResult |}).

End ModernPaymentAdapter.

End Adapter.

(** ** Facade: the codecs of the video converter *)

Module Facade.

Module VideoFile.

Record t : Type := mk {
  filename : string;
  format : string
}.

(** [new VideoFile(filename)]: the format is what follows the last dot of
    the name, in lower case; the whole name when it has no dot. *)
Definition new (filename : string) : t :=
  {| filename := filename;
     format :=
       JS.toLowerCase
         (JS.substringFrom filename (JS.lastIndexOf filename "." + 1)) |}.

Definition getFilename (this : t) : string := filename this.
Definition getFormat (this : t) : string := format this.

End VideoFile.

(** The subclasses of [Codec], each constructed with its name. *)
Inductive Codec : Type := MPEG4Codec | AVICodec | MKVCodec | MOVCodec | OGGCodec.

Definition getName (this : Codec) : string :=
  match this with
  | MPEG4Codec => "MPEG4"
  | AVICodec => "AVI"
  | MKVCodec => "MKV"
  | MOVCodec => "MOV"
  | OGGCodec => "OGG"
  end.

Module CodecFactory.

(** [createCodec(file)]: the [default] branch of the [switch] logs the
    unknown format and returns the default codec. *)
Definition createCodec (file : VideoFile.t) : Codec :=
  let format := VideoFile.getFormat file in
  if bool_decide (format = "mp4") then MPEG4Codec
  else if bool_decide (format = "avi") then AVICodec
  else if bool_decide (format = "mkv") then MKVCodec
  else if bool_decide (format = "mov") then MOVCodec
  else OGGCodec.

End CodecFactory.

End Facade.

(** ** The abstract classes of the examples

    The methods that an abstract base class leaves to its subclasses are
    stand-ins that throw.  The classes of the factory examples come twice,
    in full and as the outline under the heading Key Components, with other
    messages. *)

Module Abstract.

Inductive operation : Type :=
| DeviceImplementation_turnOn
| DeviceImplementation_turnOff
| DeviceImplementation_setVolume
| DeviceImplementation_setChannel
| DeviceImplementation_getStatus
| Coffee_getCost
| Coffee_getDescription
| DataSource_getData
| DataSource_saveData
| PaymentProcessor_processPayment
| PaymentProcessor_refundPayment
| PaymentProcessor_verifyPayment
| FileSystemComponent_getName
| FileSystemComponent_getSize
| FileSystemComponent_getType
| FileSystemComponent_print
| FileSystemComponent_getPath
| FileSystemComponent_add
| FileSystemComponent_remove
| FileSystemComponent_getChild
| FileSystemComponent_isLeaf
| Subject_attach
| Subject_detach
| Subject_notify
| Observer_update
| Application_createDocument
| Document_open
| Document_save
| UIFactory_createButton
| UIFactory_createCheckbox
| UIFactory_createFormInput
| Button_render
| Button_onClick
| Checkbox_render
| Checkbox_toggle
| FormInput_render
| FormInput_getValue
| KeyComponents_Application_createDocument
| KeyComponents_UIFactory_createButton
| KeyComponents_UIFactory_createCheckbox.

Definition call (op : operation) : JS.completion unit :=
  JS.Throw (JS.mkError
    match op with
    | DeviceImplementation_turnOn => "turnOn method must be implemented by concrete classes"
    | DeviceImplementation_turnOff => "turnOff method must be implemented by concrete classes"
    | DeviceImplementation_setVolume => "setVolume method must be implemented by concrete classes"
    | DeviceImplementation_setChannel => "setChannel method must be implemented by concrete classes"
    | DeviceImplementation_getStatus => "getStatus method must be implemented by concrete classes"
    | Coffee_getCost => "getCost method must be implemented by concrete classes"
    | Coffee_getDescription => "getDescription method must be implemented by concrete classes"
    | DataSource_getData => "getData method must be implemented by concrete classes"
    | DataSource_saveData => "saveData method must be implemented by concrete classes"
    | PaymentProcessor_processPayment =>
        "processPayment method must be implemented by concrete classes"
    | PaymentProcessor_refundPayment =>
        "refundPayment method must be implemented by concrete classes"
    | PaymentProcessor_verifyPayment =>
        "verifyPayment method must be implemented by concrete classes"
    | FileSystemComponent_getName => "getName method must be implemented by concrete classes"
    | FileSystemComponent_getSize => "getSize method must be implemented by concrete classes"
    | FileSystemComponent_getType => "getType method must be implemented by concrete classes"
    | FileSystemComponent_print => "print method must be implemented by concrete classes"
    | FileSystemComponent_getPath => "getPath method must be implemented by concrete classes"
    | FileSystemComponent_add => "Operation not supported"
    | FileSystemComponent_remove => "Operation not supported"
    | FileSystemComponent_getChild => "Operation not supported"
    | FileSystemComponent_isLeaf => "isLeaf method must be implemented by concrete classes"
    | Subject_attach => "attach method must be implemented by concrete classes"
    | Subject_detach => "detach method must be implemented by concrete classes"
    | Subject_notify => "notify method must be implemented by concrete classes"
    | Observer_update => "update method must be implemented by concrete classes"
    | Application_createDocument =>
        "Factory method createDocument() must be implemented by subclasses"
    | Document_open => "Abstract method: open() must be implemented by subclasses"
    | Document_save => "Abstract method: save() must be implemented by subclasses"
    | UIFactory_createButton =>
        "Abstract method: createButton() must be implemented by subclasses"
    | UIFactory_createCheckbox =>
        "Abstract method: createCheckbox() must be implemented by subclasses"
    | UIFactory_createFormInput =>
        "Abstract method: createFormInput() must be implemented by subclasses"
    | Button_render | Checkbox_render | FormInput_render =>
        "Abstract method: render() must be implemented by subclasses"
    | Button_onClick => "Abstract method: onClick() must be implemented by subclasses"
    | Checkbox_toggle => "Abstract method: toggle() must be implemented by subclasses"
    | FormInput_getValue =>
        "Abstract method: getValue() must be implemented by subclasses"
    | KeyComponents_Application_createDocument =>
        "Factory method must be implemented by subclasses"
    | KeyComponents_UIFactory_createButton | KeyComponents_UIFactory_createCheckbox =>
        "Method not implemented"
    end).

End Abstract.

(** ** Invalid input

    The calls with invalid input that the specification names, and how each
    of them ends. *)

Module InvalidInput.

Inductive request : Type :=
| AbstractOperation (op : Abstract.operation)
| CreateUser (host : SimpleFactory.Host) (type : string) (data : SimpleFactory.UserData)
| CreateCodec (file : Facade.VideoFile.t)
| GoToState (index : Z)
    (history : Memento.EditorHistory.t Memento.TextEditorMemento.t)
| SetChannel (appIndex : Q) (speaker : Bridge.SmartSpeaker.t)
| RefundPayment (host : Adapter.Host) (transactionId : string) (amount : float)
    (adapter : Adapter.ModernPaymentAdapter.t)
| VerifyPayment (host : Adapter.Host) (transactionId : string)
    (adapter : Adapter.ModernPaymentAdapter.t).

(** The input is invalid: an unimplemented operation, an unknown factory
    key, an index outside the array, a transaction the adapter has no
    mapping for. *)
Definition invalid (r : request) : Prop :=
  match r with
  | AbstractOperation _ => True
  | CreateUser _ type _ =>
      JS.toLowerCase type <> "admin" /\ JS.toLowerCase type <> "customer"
      /\ JS.toLowerCase type <> "guest"
  | CreateCodec file =>
      let format := Facade.VideoFile.getFormat file in
      format <> "mp4" /\ format <> "avi" /\ format <> "mkv" /\ format <> "mov"
  | GoToState index history =>
      (index < 0 \/ JS.length (Memento.EditorHistory.states history) <= index)%Z
  | SetChannel appIndex speaker =>
      (appIndex < 0
       \/ inject_Z (JS.length (Bridge.SmartSpeaker.availableApps speaker)) <= appIndex)%Q
  | RefundPayment _ transactionId _ adapter
  | VerifyPayment _ transactionId adapter =>
      Adapter.ModernPaymentAdapter.intentMap adapter !! transactionId = None
  end.

(** Forgetting what a call returns, keeping how it ends. *)
Definition ending {A} (c : JS.completion A) : JS.completion unit :=
  JS.bind c (fun _ => JS.Return tt).

(** [createCodec], [goToState] and [setChannel] contain no [throw]: they
    always return. *)
Definition outcome (r : request) : JS.completion unit :=
  match r with
  | AbstractOperation op => Abstract.call op
  | CreateUser host type data => ending (SimpleFactory.createUser host type data)
  | CreateCodec file => ending (JS.Return (Facade.CodecFactory.createCodec file))
  | GoToState index history =>
      ending (JS.Return (Memento.EditorHistory.goToState index history))
  | SetChannel appIndex speaker =>
      ending (JS.Return (Bridge.SmartSpeaker.setChannel appIndex speaker))
  | RefundPayment host transactionId amount adapter =>
      ending (Adapter.ModernPaymentAdapter.refundPayment host transactionId amount adapter)
  | VerifyPayment host transactionId adapter =>
      ending (Adapter.ModernPaymentAdapter.verifyPayment host transactionId adapter)
  end.

(** The claim of the specification as it is written: every call with
    invalid input throws. *)
Definition invalid_input_always_throws : Prop :=
  forall r : request, invalid r -> JS.throws (outcome r).

End InvalidInput.

(** * Properties *)

(** ** Doubles *)

Section DoubleFacts.
Import JS.Double.

Example Math_max_and_Math_min :
  Math_max 1 2 = 2%float /\ Math_min 1 2 = 1%float /\
  Math_max 0 (-0) = 0%float /\ Math_max (-0) 0 = 0%float /\
  Math_min 0 (-0) = (-0)%float /\ Math_min (-0) 0 = (-0)%float /\
  Math_max neg_infinity infinity = infinity /\
  isNaN (Math_max nan 1) = true /\ isNaN (Math_min 1 nan) = true /\
  isNaN (0 / 0) = true /\ isNaN infinity = false /\
  decimal 0.1 = 0.1%float /\ (0.1 + 0.2 =? 0.3)%float = false.
Proof. by vm_compute. Qed.

(** [NaN] through the specification of the primitive floats. *)
Lemma isNaN_spec (x : float) : isNaN x = true <-> Prim2SF x = S754_nan.
Proof.
  unfold isNaN, is_nan. rewrite eqb_spec. unfold SFeqb.
  destruct (Prim2SF x) as [s | s | | s m e] eqn:Hx; simpl.
  - split; discriminate.
  - destruct s; split; discriminate.
  - done.
  - destruct s; rewrite Z.compare_refl, Pos.compare_cont_refl; simpl; split; discriminate.
Qed.

Lemma SFcompare_antisym (x y : spec_float) :
  SFcompare y x = CompOpp <$> SFcompare x y.
Proof.
  destruct x as [[] | [] | | [] mx ex], y as [[] | [] | | [] my ey]; try done; simpl;
    rewrite (Z.compare_antisym ex ey); destruct (ex ?= ey)%Z; simpl; try done;
    by rewrite (Pos.compare_cont_antisym mx my Eq).
Qed.

Lemma ltb_leb (x y : float) : (x <? y)%float = true -> (x <=? y)%float = true.
Proof.
  rewrite ltb_spec, leb_spec. unfold SFltb, SFleb.
  by destruct (SFcompare _ _) as [[]|].
Qed.

Lemma leb_not_ltb (x y : float) : (x <=? y)%float = true -> (y <? x)%float = false.
Proof.
  rewrite ltb_spec, leb_spec. unfold SFltb, SFleb.
  rewrite (SFcompare_antisym (Prim2SF x) (Prim2SF y)).
  by destruct (SFcompare (Prim2SF x) (Prim2SF y)) as [[]|].
Qed.

Lemma leb_isNaN (x y : float) :
  (x <=? y)%float = true -> isNaN x = false /\ isNaN y = false.
Proof.
  rewrite leb_spec. intros Hle.
  split; apply not_true_is_false; rewrite isNaN_spec; intros Hnan;
    rewrite Hnan in Hle; [done |]. unfold SFleb in Hle.
  by destruct (Prim2SF x) as [| | |[]].
Qed.

(** [Math.max(0, Math.min(100, x))]: what it gives for each [x]. *)
Lemma clamp_range (x : float) :
  isNaN x = false ->
  (0 <=? Math_max 0 (Math_min 100 x))%float = true /\
  (Math_max 0 (Math_min 100 x) <=? 100)%float = true.
Proof.
  intros Hx.
  assert (Hmin : isNaN (Math_min 100 x) = false /\ (Math_min 100 x <=? 100)%float = true).
  { unfold Math_min. rewrite Hx. change (isNaN 100) with false. simpl.
    destruct (x <? 100)%float eqn:Hlt.
    - split; [done | by apply ltb_leb].
    - destruct (100 <? x)%float; by vm_compute. }
  destruct Hmin as [Hnan Hle]. revert Hnan Hle. generalize (Math_min 100 x). intros y Hnan Hle.
  unfold Math_max. rewrite Hnan. change (isNaN 0) with false. simpl.
  destruct (0 <? y)%float eqn:Hlt.
  - split; [by apply ltb_leb | done].
  - destruct (y <? 0)%float; by vm_compute.
Qed.

Lemma clamp_NaN (x : float) :
  isNaN x = true -> isNaN (Math_max 0 (Math_min 100 x)) = true.
Proof. intros Hx. unfold Math_min. rewrite Hx. by vm_compute. Qed.

Lemma clamp_inside (x : float) :
  (0 <? x)%float = true -> (x <? 100)%float = true ->
  Math_max 0 (Math_min 100 x) = x.
Proof.
  intros Hlow Hhigh.
  destruct (leb_isNaN _ _ (ltb_leb _ _ Hlow)) as [_ Hx].
  unfold Math_min. rewrite Hx, Hhigh. change (isNaN 100) with false. simpl.
  unfold Math_max. rewrite Hx, Hlow. by change (isNaN 0) with false.
Qed.

Lemma clamp_high (x : float) :
  (100 <=? x)%float = true -> Math_max 0 (Math_min 100 x) = 100%float.
Proof.
  intros Hhigh. destruct (leb_isNaN _ _ Hhigh) as [_ Hx].
  assert (Hmin : Math_min 100 x = 100%float).
  { unfold Math_min. rewrite Hx, (leb_not_ltb _ _ Hhigh).
    change (isNaN 100) with false. simpl. by destruct (100 <? x)%float. }
  rewrite Hmin. by vm_compute.
Qed.

Lemma leb_ltb_trans_0_100 (x : float) :
  (x <=? 0)%float = true -> (x <? 100)%float = true.
Proof.
  rewrite ltb_spec, leb_spec. unfold SFltb, SFleb.
  change (Prim2SF 0) with (S754_zero false).
  change (Prim2SF 100) with (S754_finite false 7036874417766400 (-46)).
  by destruct (Prim2SF x) as [[] | [] | | [] m e].
Qed.

Lemma clamp_low (x : float) :
  (x <=? 0)%float = true -> Math_max 0 (Math_min 100 x) = 0%float.
Proof.
  intros Hlow. destruct (leb_isNaN _ _ Hlow) as [Hx _].
  assert (Hmin : Math_min 100 x = x).
  { unfold Math_min. rewrite Hx, (leb_ltb_trans_0_100 _ Hlow).
    by change (isNaN 100) with false. }
  rewrite Hmin. unfold Math_max. rewrite Hx, (leb_not_ltb _ _ Hlow).
  change (isNaN 0) with false. simpl. by destruct (x <? 0)%float.
Qed.

(** Rounding a mantissa that is not negative gives no [NaN]: the sum and
    the difference of a finite double and a double that is not [NaN] are
    not [NaN]. *)
Lemma shr_1_nonneg mrs : (0 <= shr_m mrs)%Z -> (0 <= shr_m (shr_1 mrs))%Z.
Proof. destruct mrs as [[|[p|p|]|p] r s]; simpl; lia. Qed.

Lemma iter_pos_shr_1_nonneg p mrs :
  (0 <= shr_m mrs)%Z -> (0 <= shr_m (iter_pos shr_1 p mrs))%Z.
Proof.
  revert mrs. induction p as [p IH | p IH |]; intros mrs Hm; simpl.
  - apply IH, IH. by apply shr_1_nonneg.
  - by apply IH, IH.
  - by apply shr_1_nonneg.
Qed.

Lemma shr_fexp_nonneg m e l :
  (0 <= m)%Z -> (0 <= shr_m (fst (shr_fexp prec emax m e l)))%Z.
Proof.
  intros Hm. unfold shr_fexp, shr.
  assert (H0 : (0 <= shr_m (shr_record_of_loc m l))%Z) by (by destruct l as [|[]]).
  destruct (_ - _)%Z; simpl; [done | | done].
  by apply iter_pos_shr_1_nonneg.
Qed.

Lemma round_nearest_even_nonneg m l :
  (0 <= m)%Z -> (0 <= round_nearest_even m l)%Z.
Proof. intros Hm. destruct l as [|[]]; simpl; [done | | done | lia]. destruct (Z.even m); lia. Qed.

Lemma binary_round_aux_not_nan sx mx ex lx :
  (0 <= mx)%Z -> binary_round_aux prec emax sx mx ex lx <> S754_nan.
Proof.
  intros Hm. unfold binary_round_aux.
  pose proof (shr_fexp_nonneg mx ex lx Hm) as H1.
  destruct (shr_fexp prec emax mx ex lx) as [mrs' e']. simpl in H1.
  pose proof (shr_fexp_nonneg _ e' loc_Exact
                (round_nearest_even_nonneg _ (loc_of_shr_record mrs') H1)) as H2.
  destruct (shr_fexp prec emax (round_nearest_even _ _) e' loc_Exact) as [mrs'' e'']. simpl in H2.
  destruct (shr_m mrs''); [done | by destruct (_ <=? _)%Z | lia].
Qed.

Lemma binary_normalize_not_nan m e szero :
  binary_normalize prec emax m e szero <> S754_nan.
Proof.
  destruct m; simpl; [done | |]; unfold binary_round;
    destruct (shl_align _ _ _); by apply binary_round_aux_not_nan.
Qed.

Lemma range_finite (x : float) :
  (0 <=? x)%float = true -> (x <=? 100)%float = true -> finite x.
Proof.
  rewrite !leb_spec. unfold finite, SFleb.
  by destruct (Prim2SF x) as [s | [] | | s m e].
Qed.

Lemma add_not_nan (x y : float) :
  finite x -> isNaN y = false -> isNaN (x + y) = false.
Proof.
  intros Hx Hy. apply not_true_is_false. rewrite isNaN_spec, add_spec.
  apply not_true_iff_false in Hy. rewrite isNaN_spec in Hy.
  unfold finite in Hx. unfold SF64add, SFadd.
  destruct (Prim2SF x) as [sx | sx | | sx mx ex], (Prim2SF y) as [sy | sy | | sy my ey];
    try done.
  - by destruct sx, sy.
  - apply binary_normalize_not_nan.
Qed.

Lemma sub_not_nan (x y : float) :
  finite x -> isNaN y = false -> isNaN (x - y) = false.
Proof.
  intros Hx Hy. apply not_true_is_false. rewrite isNaN_spec, sub_spec.
  apply not_true_iff_false in Hy. rewrite isNaN_spec in Hy.
  unfold finite in Hx. unfold SF64sub, SFsub.
  destruct (Prim2SF x) as [sx | sx | | sx mx ex], (Prim2SF y) as [sy | sy | | sy my ey];
    try done.
  - by destruct sx, sy.
  - apply binary_normalize_not_nan.
Qed.

End DoubleFacts.

(** ** Decorator *)

Section DecoratorFacts.
Import Decorator.

Lemma getCost_wrap {N : Type} `{Arithmetic N} t c :
  getCost (wrap t c) = plus (getCost c) (increment t).
Proof. by destruct t. Qed.

(** The cost of a chain is the base cost with the increments added one
    after the other, in whatever arithmetic. *)
Lemma getCost_decorate {N : Type} `{Arithmetic N} (ts : list topping) :
  getCost (decorate ts SimpleCoffee)
  = fold_left (fun cost t => plus cost (increment t)) ts (number 2.0).
Proof.
  induction ts as [|t ts IH] using rev_ind; [done |].
  unfold decorate in *. rewrite !fold_left_app. simpl.
  by rewrite getCost_wrap, IH.
Qed.

(** The literals of the source, as doubles. *)
Example increments_as_doubles :
  getCost SimpleCoffee = 2.0%float /\
  map increment [Milk; Sugar; WhippedCream; VanillaSyrup]
  = [0.5; 0.2; 0.7; 0.6]%float.
Proof. by vm_compute. Qed.

Lemma getDescription_wrap t c :
  getDescription (wrap t c) = getDescription c +:+ suffix t.
Proof. by destruct t. Qed.

Lemma decorate_snoc ts t base :
  decorate (ts ++ [t]) base = wrap t (decorate ts base).
Proof. unfold decorate. by rewrite fold_left_app. Qed.

Lemma Qsum_snoc l x : (Qsum (l ++ [x]) == Qsum l + x)%Q.
Proof.
  induction l as [|y l IH]; simpl.
  - ring.
  - rewrite IH. ring.
Qed.

Lemma append_assoc (a b c : string) : (a +:+ b) +:+ c = a +:+ (b +:+ c).
Proof.
  induction a as [|ch a IH]; [done |].
  change (String ch ((a +:+ b) +:+ c) = String ch (a +:+ b +:+ c)).
  by rewrite IH.
Qed.

Lemma append_empty_r (a : string) : a +:+ "" = a.
Proof.
  induction a as [|ch a IH]; [done |].
  change (String ch (a +:+ "") = String ch a). by rewrite IH.
Qed.

Lemma concat_strings_snoc l x :
  concat_strings (l ++ [x]) = concat_strings l +:+ x.
Proof.
  induction l as [|y l IH]; simpl.
  - apply append_empty_r.
  - by rewrite IH, append_assoc.
Qed.

(** C3, as stated, fails in the doubles of the code.  Three sugars cost
    2.6000000000000005, which is neither 2.0 plus the sum of the three
    increments, however the sum is taken, nor the double 2.6; and whipped
    cream and vanilla syrup cost 3.3000000000000003 in one order and 3.3 in
    the other, though the increments are the same. *)
Lemma three_sugars_cost_more_than_base_plus_sum :
  let sugars := [Sugar; Sugar; Sugar] in
  let cost : float := getCost (decorate sugars SimpleCoffee) in
  cost = 2.6000000000000005%float /\
  (cost =? 2.0 + sum_left (map increment sugars))%float = false /\
  (cost =? 2.0 + sum_right (map increment sugars))%float = false /\
  (cost =? 2.6)%float = false /\
  getCost (decorate [WhippedCream; VanillaSyrup] SimpleCoffee)
    = 3.3000000000000003%float /\
  getCost (decorate [VanillaSyrup; WhippedCream] SimpleCoffee) = 3.3%float /\
  (3.3000000000000003 =? 3.3)%float = false /\
  ~ cost_is_base_plus_sum.
Proof.
  intros sugars cost.
  split; [by vm_compute |]. split; [by vm_compute |]. split; [by vm_compute |].
  split; [by vm_compute |]. split; [by vm_compute |]. split; [by vm_compute |].
  split; [by vm_compute |].
  intros Hclaim. specialize (Hclaim sugars).
  apply (f_equal (fun x => (x =? 2.0 + sum_left (map increment sugars))%float)) in Hclaim.
  vm_compute in Hclaim. discriminate Hclaim.
Qed.

(** C3, amended.  For a chain of N decorators applied around a
    [SimpleCoffee], in any combination and order, the cost of the outermost
    wrapper is the base cost 2.0 with the N increments added to it one after
    the other in application order, every addition being the addition of
    doubles; in exact arithmetic this is 2.0 plus the sum of the increments.
    Its description is the base description followed by the suffixes in
    application order (innermost first). *)
Theorem decorator_chain_cost_and_description (ts : list topping) :
  getCost (decorate ts SimpleCoffee)
    = fold_left (fun cost t => cost + increment t)%float ts 2.0%float /\
  (getCost (decorate ts SimpleCoffee) == 2.0 + Qsum (map increment ts))%Q /\
  getDescription (decorate ts SimpleCoffee)
    = "Simple coffee" +:+ concat_strings (map suffix ts).
Proof.
  split; [exact (getCost_decorate ts) |].
  induction ts as [|t ts IH] using rev_ind.
  - split; [simpl; ring | done].
  - destruct IH as (IHsum & IHdescription).
    rewrite decorate_snoc, getCost_wrap, getDescription_wrap, !map_app.
    simpl map.
    rewrite Qsum_snoc, concat_strings_snoc, IHdescription. split.
    + simpl plus. rewrite IHsum. ring.
    + apply append_assoc.
Qed.

Example specialCoffee_order :
  specialCoffee = decorate [Milk; VanillaSyrup; WhippedCream] SimpleCoffee /\
  getCost specialCoffee = 3.8%float /\
  (getCost specialCoffee == 3.8)%Q /\
  getDescription specialCoffee
    = "Simple coffee, with milk, with vanilla syrup, with whipped cream".
Proof. repeat split. Qed.

End DecoratorFacts.

(** ** Composite *)

Section CompositeFacts.
Import Composite.

(** Induction over the tree, with the hypothesis for every child. *)
Lemma FileSystemComponent_ind (P : FileSystemComponent -> Prop) :
  (forall name size parentPath, P (File name size parentPath)) ->
  (forall cls name children parentPath,
      Forall P children -> P (Directory cls name children parentPath)) ->
  forall c, P c.
Proof.
  intros HF HD. fix IH 1. intros [name size parentPath | cls name children parentPath].
  - apply HF.
  - apply HD. induction children as [|child children IHc]; constructor.
    + apply IH.
    + apply IHc.
Qed.

Lemma fold_left_add_Zsum (f : FileSystemComponent -> Z) l acc :
  fold_left (fun total child => total + f child)%Z l acc
  = (acc + Zsum (map f l))%Z.
Proof.
  revert acc. induction l as [|x l IH]; intros acc; simpl.
  - lia.
  - rewrite IH. lia.
Qed.

Lemma getSize_children cls name children parentPath :
  getSize (Directory cls name children parentPath)
  = Zsum (map getSize children).
Proof. simpl. by rewrite fold_left_add_Zsum. Qed.

Lemma Zsum_app l1 l2 : Zsum (l1 ++ l2) = (Zsum l1 + Zsum l2)%Z.
Proof. induction l1 as [|x l1 IH]; simpl; lia. Qed.


Lemma find_fold_flat_map (predicate : FileSystemComponent -> bool)
    (children results : list FileSystemComponent) :
  fold_left
    (fun results child =>
       if isLeaf child
       then if predicate child then results ++ [child] else results
       else results ++ find predicate child)
    children results
  = results ++ flat_map (found predicate) children.
Proof.
  revert results. induction children as [|child children IH]; intros results; simpl.
  - by rewrite app_nil_r.
  - rewrite IH. unfold found.
    destruct (isLeaf child), (predicate child);
      by rewrite <- ?app_assoc, ?app_nil_r.
Qed.

Lemma find_Directory (predicate : FileSystemComponent -> bool)
    cls name children parentPath :
  find predicate (Directory cls name children parentPath)
  = (if predicate (Directory cls name children parentPath)
     then [Directory cls name children parentPath] else [])
    ++ flat_map (found predicate) children.
Proof. simpl. apply find_fold_flat_map. Qed.

(** A predicate that holds of files only selects among the files below. *)
Lemma find_files (predicate : FileSystemComponent -> bool) c :
  (forall x, predicate x = true -> isLeaf x = true) ->
  find predicate c = filter (fun x => predicate x = true) (files c).
Proof.
  intros Hleaf.
  induction c as [name size parentPath | cls name children parentPath IH]
    using FileSystemComponent_ind; [done |].
  rewrite find_Directory.
  destruct (predicate (Directory cls name children parentPath)) eqn:Hp.
  { by apply Hleaf in Hp. }
  simpl. clear Hp.
  induction IH as [|child children Hchild _ IHchildren]; [done |].
  simpl. rewrite filter_app, <- IHchildren. f_equal.
  unfold found. destruct (isLeaf child) eqn:Hl; [|done].
  rewrite filter_cons. destruct (predicate child); by case_decide.
Qed.

Lemma files_descendant x c :
  In x (files c) <-> descendant x c /\ isLeaf x = true.
Proof.
  induction c as [name size parentPath | cls name children parentPath IH]
    using FileSystemComponent_ind.
  - split; [done | intros [H _]; inversion H].
  - simpl. rewrite in_flat_map. rewrite Forall_forall in IH. split.
    + intros (child & Hin & Hx). destruct (isLeaf child) eqn:Hl.
      * destruct Hx as [<- | []]. split; [by constructor | done].
      * apply IH in Hx as [Hd Hxl]; [| by apply list_elem_of_In].
        split; [by eapply descendant_deeper | done].
    + intros [Hd Hxl]. inversion Hd as [? ? ? ? Hin | ? ? ? ? child Hin Hd']; subst.
      * exists x. rewrite Hxl. split; [done | by left].
      * exists child. split; [done |]. destruct (isLeaf child) eqn:Hl.
        { destruct child; [inversion Hd' | done]. }
        apply IH; [by apply list_elem_of_In | done].
Qed.

Lemma getType_file x : getType x = "file" <-> isLeaf x = true.
Proof. by destruct x as [| []]. Qed.

Lemma substring_all (s : string) : String.substring 0 (String.length s) s = s.
Proof. induction s as [|ch s IH]; simpl; [done | by rewrite IH]. Qed.

Lemma substring_skip (p s : string) n :
  String.substring (String.length p) n (p +:+ s) = String.substring 0 n s.
Proof. induction p as [|ch p IH]; [done | apply IH]. Qed.

Lemma substring_split (s : string) n :
  n <= String.length s ->
  s = String.substring 0 n s +:+ String.substring n (String.length s - n) s.
Proof.
  revert n. induction s as [|ch s IH]; intros [|n] Hn; simpl in *; try lia.
  - done.
  - by rewrite substring_all.
  - change (String ch s = String ch
      (String.substring 0 n s +:+ String.substring n (String.length s - n) s)).
    f_equal. apply IH. lia.
Qed.

Lemma length_append (a b : string) :
  String.length (a +:+ b) = String.length a + String.length b.
Proof.
  induction a as [|ch a IH]; [done |].
  change (S (String.length (a +:+ b)) = S (String.length a + String.length b)).
  by rewrite IH.
Qed.

(** [endsWith] decides whether the string is some stem followed by the
    searched suffix. *)
Lemma endsWith_spec (s search : string) :
  JS.endsWith s search = true <-> exists stem, s = stem +:+ search.
Proof.
  unfold JS.endsWith. split.
  - destruct (Nat.ltb_spec (String.length s) (String.length search)) as [|Hle]; [done |].
    intros Heq%bool_decide_eq_true.
    exists (String.substring 0 (String.length s - String.length search) s).
    pose proof (substring_split s (String.length s - String.length search)) as Hs.
    replace (String.length s - (String.length s - String.length search))
      with (String.length search) in Hs by lia.
    rewrite Heq in Hs. apply Hs. lia.
  - intros [stem ->]. rewrite length_append.
    destruct (Nat.ltb_spec (String.length stem + String.length search)
                (String.length search)) as [|_]; [lia |].
    apply bool_decide_eq_true.
    replace (String.length stem + String.length search - String.length search)
      with (String.length stem) by lia.
    by rewrite substring_skip, substring_all.
Qed.



Example sampleFileSystem_queries :
  getSize sampleFileSystem = 6268928%Z /\
  map getPath (findByExtension ".txt" sampleFileSystem)
    = ["root/home/user1/document.txt"; "root/home/user1/documents/notes.txt"] /\
  map getName (findLargerThan 1000000 sampleFileSystem)
    = ["image.jpg"; "profile.jpg"].
Proof. by vm_compute. Qed.

End CompositeFacts.

(** ** Memento *)

Section MementoFacts.
Import Memento.

Lemma get_lookup {A} (array : list A) (i : nat) (a : A) :
  array !! i = Some a -> JS.get array (Z.of_nat i) = JS.object a.
Proof.
  intros Hi. unfold JS.get.
  destruct (Z.ltb_spec (Z.of_nat i) 0) as [|_]; [lia |].
  by rewrite Nat2Z.id, Hi.
Qed.

(** Restoring a memento gives back the very state that was saved. *)
Lemma restore_save now (saved editor : TextEditor.t) :
  TextEditor.restore (JS.object (TextEditor.save now saved)) editor = saved.
Proof. by destruct saved as [? ? [] ? ?]. Qed.

Lemma push_at_end {M} (memento : M) (history : EditorHistory.t M) :
  EditorHistory.currentStateIndex history
    = (JS.length (EditorHistory.states history) - 1)%Z ->
  EditorHistory.push memento history
  = EditorHistory.mk (EditorHistory.states history ++ [memento])
      (JS.length (EditorHistory.states history)).
Proof.
  intros Hlast. unfold EditorHistory.push. rewrite Hlast, Z.ltb_irrefl.
  f_equal. unfold JS.length. rewrite length_app. simpl. lia.
Qed.

Lemma pushAll_at_end saved (history : EditorHistory.t TextEditorMemento.t) :
  EditorHistory.currentStateIndex history
    = (JS.length (EditorHistory.states history) - 1)%Z ->
  pushAll saved history
  = EditorHistory.mk (EditorHistory.states history ++ saveAll saved)
      (JS.length (EditorHistory.states history ++ saveAll saved) - 1).
Proof.
  revert history. induction saved as [|[editor now] saved IH]; intros history Hlast.
  - simpl. rewrite app_nil_r, <- Hlast. by destruct history.
  - simpl. unfold pushAll in IH. rewrite IH.
    + rewrite push_at_end by done. simpl. by rewrite <- app_assoc.
    + rewrite push_at_end by done. simpl. unfold JS.length.
      rewrite length_app. simpl. lia.
Qed.

Lemma saveAll_lookup saved i editor now :
  saved !! i = Some (editor, now) ->
  saveAll saved !! i = Some (TextEditor.save now editor).
Proof. intros Hi. unfold saveAll. by rewrite list_lookup_fmap, Hi. Qed.

Lemma undo_at {M} (states : list M) (i : nat) (memento : M) :
  states !! i = Some memento ->
  EditorHistory.undo (EditorHistory.mk states (Z.of_nat (S i)))
  = (JS.object memento, EditorHistory.mk states (Z.of_nat i)).
Proof.
  intros Hi. unfold EditorHistory.undo. simpl.
  destruct (Z.ltb_spec 0 (Z.of_nat (S i))) as [_|]; [| lia].
  replace (Z.of_nat (S i) - 1)%Z with (Z.of_nat i) by lia.
  by rewrite (get_lookup _ _ _ Hi).
Qed.

Lemma redo_at {M} (states : list M) (i : nat) (memento : M) :
  states !! S i = Some memento ->
  EditorHistory.redo (EditorHistory.mk states (Z.of_nat i))
  = (JS.object memento, EditorHistory.mk states (Z.of_nat (S i))).
Proof.
  intros Hi. unfold EditorHistory.redo. simpl.
  apply lookup_lt_Some in Hi as Hlt. unfold JS.length.
  destruct (Z.ltb_spec (Z.of_nat i) (Z.of_nat (List.length states) - 1)) as [_|];
    [| lia].
  replace (Z.of_nat i + 1)%Z with (Z.of_nat (S i)) by lia.
  by rewrite (get_lookup _ _ _ Hi).
Qed.

Lemma undoStep_at saved editor (i : nat) e now :
  saved !! i = Some (e, now) ->
  undoStep (EditorHistory.mk (saveAll saved) (Z.of_nat (S i)), editor)
  = (EditorHistory.mk (saveAll saved) (Z.of_nat i), e).
Proof.
  intros Hi. unfold undoStep.
  rewrite (undo_at _ _ _ (saveAll_lookup _ _ _ _ Hi)). cbn [JS.truthy].
  by rewrite restore_save.
Qed.

Lemma redoStep_at saved editor (i : nat) e now :
  saved !! S i = Some (e, now) ->
  redoStep (EditorHistory.mk (saveAll saved) (Z.of_nat i), editor)
  = (EditorHistory.mk (saveAll saved) (Z.of_nat (S i)), e).
Proof.
  intros Hi. unfold redoStep.
  rewrite (redo_at _ _ _ (saveAll_lookup _ _ _ _ Hi)). cbn [JS.truthy].
  by rewrite restore_save.
Qed.

(** [j] undo steps from position [n] land on position [n - j], with the
    editor in the state saved there. *)
Lemma iter_undoStep saved editor (n j i : nat) e now :
  j + i = n -> 0 < j -> n < List.length saved ->
  saved !! i = Some (e, now) ->
  Nat.iter j undoStep (EditorHistory.mk (saveAll saved) (Z.of_nat n), editor)
  = (EditorHistory.mk (saveAll saved) (Z.of_nat i), e).
Proof.
  revert i e now. induction j as [|j IH]; intros i e now Hn Hj Hlen Hi; [lia |].
  rewrite Nat.iter_succ. destruct j as [|j].
  - replace n with (S i) by lia. by eapply undoStep_at.
  - destruct (lookup_lt_is_Some_2 saved (S i)) as [[e' now'] Hi']; [lia |].
    rewrite (IH (S i) e' now') by (done || lia). by eapply undoStep_at.
Qed.

Lemma iter_redoStep saved editor (j : nat) e now :
  0 < j -> saved !! j = Some (e, now) ->
  Nat.iter j redoStep (EditorHistory.mk (saveAll saved) 0, editor)
  = (EditorHistory.mk (saveAll saved) (Z.of_nat j), e).
Proof.
  revert e now. induction j as [|j IH]; intros e now Hj Hi; [lia |].
  rewrite Nat.iter_succ. destruct j as [|j].
  - by eapply (redoStep_at _ _ 0).
  - destruct (lookup_lt_is_Some_2 saved (S j)) as [[e' now'] Hi'].
    { apply lookup_lt_Some in Hi. lia. }
    rewrite (IH e' now') by (done || lia). by eapply redoStep_at.
Qed.

(** The history after the pushes, and where [k] undo steps leave it. *)
Lemma pushAll_new first rest :
  pushAll (first :: rest) EditorHistory.new
  = EditorHistory.mk (saveAll (first :: rest)) (Z.of_nat (List.length rest)).
Proof.
  rewrite pushAll_at_end by done. cbn [EditorHistory.states EditorHistory.new app].
  f_equal. unfold JS.length, saveAll. rewrite length_map. cbn [List.length]. lia.
Qed.

Lemma undone_all saved editor (k : nat) :
  k < List.length saved ->
  exists editor',
    Nat.iter k undoStep (EditorHistory.mk (saveAll saved) (Z.of_nat k), editor)
    = (EditorHistory.mk (saveAll saved) 0, editor').
Proof.
  intros Hk. destruct k as [|k]; [by exists editor |].
  destruct (lookup_lt_is_Some_2 saved 0) as [[e now] H0]; [lia |].
  exists e. apply (iter_undoStep saved editor (S k) (S k) 0 e now); (done || lia).
Qed.

(** C1. After pushing the saved states S0..Sk on a new history, the j-th of
    k undo calls returns exactly S(k-j) and restoring it puts the editor
    back in the state that was saved; the j-th of the k redo calls that
    follow returns exactly Sj and restores that state.  An undo with the
    cursor at index 0 and a redo with the cursor at the last index return
    null and change neither the history nor the editor. *)
Theorem memento_undo_redo_round_trip
    (first : TextEditor.t * Z) (rest : list (TextEditor.t * Z))
    (editor : TextEditor.t) :
  let saved := first :: rest in
  let k := List.length rest in
  let history := pushAll saved EditorHistory.new in
  let undone (j : nat) := Nat.iter j undoStep (history, editor) in
  let redone (j : nat) := Nat.iter j redoStep (undone k) in
  history = EditorHistory.mk (saveAll saved) (Z.of_nat k) /\
  (forall (j i : nat) e now,
      j + i = k -> 0 < j -> saved !! i = Some (e, now) ->
      fst (EditorHistory.undo (fst (undone (j - 1))))
        = JS.object (TextEditor.save now e) /\
      undone j = (EditorHistory.mk (saveAll saved) (Z.of_nat i), e)) /\
  (forall (j : nat) e now,
      0 < j -> saved !! j = Some (e, now) ->
      fst (EditorHistory.redo (fst (redone (j - 1))))
        = JS.object (TextEditor.save now e) /\
      redone j = (EditorHistory.mk (saveAll saved) (Z.of_nat j), e)) /\
  (forall (h : EditorHistory.t TextEditorMemento.t) e,
      EditorHistory.currentStateIndex h = 0%Z ->
      EditorHistory.undo h = (JS.null, h) /\ undoStep (h, e) = (h, e)) /\
  (forall (h : EditorHistory.t TextEditorMemento.t) e,
      EditorHistory.currentStateIndex h
        = (JS.length (EditorHistory.states h) - 1)%Z ->
      EditorHistory.redo h = (JS.null, h) /\ redoStep (h, e) = (h, e)).
Proof.
  intros saved k history undone redone.
  assert (Hh : history = EditorHistory.mk (saveAll saved) (Z.of_nat k))
    by apply pushAll_new.
  assert (Hlen : List.length saved = S k) by done.
  split; [done |]. split; [| split; [| split]].
  - intros j i e now Hji Hj Hi. subst undone. cbn beta. rewrite Hh. split.
    + assert (Hprev : fst (Nat.iter (j - 1) undoStep
                (EditorHistory.mk (saveAll saved) (Z.of_nat k), editor))
              = EditorHistory.mk (saveAll saved) (Z.of_nat (S i))).
      { destruct (decide (j = 1)) as [-> | Hne].
        - simpl. f_equal. lia.
        - destruct (lookup_lt_is_Some_2 saved (S i)) as [[e' now'] Hi']; [lia |].
          by rewrite (iter_undoStep saved editor k (j - 1) (S i) e' now')
            by (done || lia). }
      rewrite Hprev, (undo_at _ _ _ (saveAll_lookup _ _ _ _ Hi)). done.
    + apply (iter_undoStep saved editor k j i e now); (done || lia).
  - intros j e now Hj Hi. subst redone undone. cbn beta. rewrite Hh.
    destruct (undone_all saved editor k) as [editor' ->]; [lia |]. split.
    + assert (Hprev : fst (Nat.iter (j - 1) redoStep
                (EditorHistory.mk (saveAll saved) 0, editor'))
              = EditorHistory.mk (saveAll saved) (Z.of_nat (j - 1))).
      { destruct (decide (j = 1)) as [-> | Hne]; [done |].
        apply lookup_lt_Some in Hi as Hlt.
        destruct (lookup_lt_is_Some_2 saved (j - 1)) as [[e' now'] Hi']; [lia |].
        by rewrite (iter_redoStep saved editor' (j - 1) e' now') by (done || lia). }
      rewrite Hprev. replace j with (S (j - 1)) in Hi by lia.
      by rewrite (redo_at _ _ _ (saveAll_lookup _ _ _ _ Hi)).
    + by apply (iter_redoStep saved editor' j e now).
  - intros h e H0.
    assert (EditorHistory.undo h = (JS.null, h)) as Hundo
      by (unfold EditorHistory.undo; by rewrite H0).
    split; [done |]. unfold undoStep. by rewrite Hundo.
  - intros h e Hlast.
    assert (EditorHistory.redo h = (JS.null, h)) as Hredo
      by (unfold EditorHistory.redo; by rewrite Hlast, Z.ltb_irrefl).
    split; [done |]. unfold redoStep. by rewrite Hredo.
Qed.

Example clientCode_editor_states :
  content clientEditor1 = "Hello, world!" /\
  content clientEditor2 = "Hello, Memento Pattern!" /\
  content clientEditor3 = "Implementing the Hello, Memento Pattern!" /\
  cursorPosition clientEditor3 = 17%Z /\
  fontName clientEditor3 = "Times New Roman".
Proof. by vm_compute. Qed.

(** In [clientCode] four states are saved.  The second undo brings the
    editor back to "Hello, world!"; three undos and three redos bring it back
    to the last state; a fourth undo, and a redo at the end, change nothing. *)
Lemma memento_undo_redo_round_trip_witness :
  let history := pushAll clientSaved EditorHistory.new in
  let undone (j : nat) := Nat.iter j undoStep (history, clientEditor3) in
  undone 2 = (EditorHistory.mk (saveAll clientSaved) 1, clientEditor1) /\
  Nat.iter 3 redoStep (undone 3)
    = (EditorHistory.mk (saveAll clientSaved) 3, clientEditor3) /\
  undoStep (EditorHistory.mk (saveAll clientSaved) 0, clientEditor0)
    = (EditorHistory.mk (saveAll clientSaved) 0, clientEditor0) /\
  redoStep (EditorHistory.mk (saveAll clientSaved) 3, clientEditor3)
    = (EditorHistory.mk (saveAll clientSaved) 3, clientEditor3).
Proof.
  intros history undone.
  pose proof (memento_undo_redo_round_trip (clientEditor0, 0%Z)
                [(clientEditor1, 1%Z); (clientEditor2, 2%Z); (clientEditor3, 3%Z)]
                clientEditor3) as H.
  cbv zeta in H. destruct H as (_ & Hundo & Hredo & Hfirst & Hlast).
  split; [| split; [| split]].
  - apply (Hundo 2 1 clientEditor1 1%Z); [reflexivity | lia | reflexivity].
  - apply (Hredo 3 clientEditor3 3%Z); [lia | reflexivity].
  - apply (Hfirst (EditorHistory.mk (saveAll clientSaved) 0) clientEditor0).
    reflexivity.
  - apply (Hlast (EditorHistory.mk (saveAll clientSaved) 3) clientEditor3).
    reflexivity.
Defined.

(** *** Mementos and their caretakers *)

Lemma get_fmap {A B} (f : A -> B) (array : list A) (index : Z) :
  JS.get (f <$> array) index = JS.maybe_map f (JS.get array index).
Proof.
  unfold JS.get. destruct (index <? 0)%Z; [done |].
  rewrite list_lookup_fmap. by destruct (array !! Z.to_nat index).
Qed.

Lemma length_fmap_js {A B} (f : A -> B) (array : list A) :
  JS.length (f <$> array) = JS.length array.
Proof. unfold JS.length. by rewrite length_fmap. Qed.

Lemma slice0_fmap {A B} (f : A -> B) (array : list A) (end_ : Z) :
  JS.slice0 (f <$> array) end_ = f <$> JS.slice0 array end_.
Proof. unfold JS.slice0. by rewrite length_fmap_js, fmap_take. Qed.

Lemma splice1_fmap {A B} (f : A -> B) (array : list A) (start : Z) :
  JS.splice1 (f <$> array) start = f <$> JS.splice1 array start.
Proof. unfold JS.splice1. by rewrite length_fmap_js, list_fmap_delete. Qed.

(** What [push] stores is the new memento and mementos stored before, at
    the positions they had. *)
Lemma push_keeps {M} (memento : M) (history : EditorHistory.t M) (i : nat) (x : M) :
  EditorHistory.states (EditorHistory.push memento history) !! i = Some x ->
  x = memento \/ EditorHistory.states history !! i = Some x.
Proof.
  unfold EditorHistory.push. cbn [EditorHistory.states].
  intros [Hx | [_ Hx]]%lookup_app_Some.
  - right. destruct (_ <? _)%Z; [| done].
    unfold JS.slice0 in Hx. by apply lookup_take_Some in Hx as [? _].
  - left. apply list_lookup_singleton_Some in Hx as [_ Hx]. done.
Qed.

Lemma moves_keep {M} (history : EditorHistory.t M) (index : Z) :
  EditorHistory.states (snd (EditorHistory.undo history))
    = EditorHistory.states history /\
  EditorHistory.states (snd (EditorHistory.redo history))
    = EditorHistory.states history /\
  EditorHistory.states (snd (EditorHistory.goToState index history))
    = EditorHistory.states history.
Proof.
  unfold EditorHistory.undo, EditorHistory.redo, EditorHistory.goToState.
  repeat split; by destruct (_ : bool).
Qed.

Section CaretakerNaturality.
Context {M M' : Type} (f : M -> M').

Lemma push_natural (memento : M) (history : EditorHistory.t M) :
  EditorHistory.push (f memento) (EditorHistory.mapMementos f history)
  = EditorHistory.mapMementos f (EditorHistory.push memento history).
Proof.
  unfold EditorHistory.push, EditorHistory.mapMementos.
  cbn [EditorHistory.states EditorHistory.currentStateIndex].
  rewrite length_fmap_js, slice0_fmap.
  destruct (_ <? _)%Z; by rewrite <- !fmap_snoc, !length_fmap_js.
Qed.

Lemma undo_natural (history : EditorHistory.t M) :
  EditorHistory.undo (EditorHistory.mapMementos f history)
  = (JS.maybe_map f (fst (EditorHistory.undo history)),
     EditorHistory.mapMementos f (snd (EditorHistory.undo history))).
Proof.
  unfold EditorHistory.undo, EditorHistory.mapMementos.
  cbn [EditorHistory.states EditorHistory.currentStateIndex].
  destruct (_ <? _)%Z; [| done]. by rewrite get_fmap.
Qed.

Lemma redo_natural (history : EditorHistory.t M) :
  EditorHistory.redo (EditorHistory.mapMementos f history)
  = (JS.maybe_map f (fst (EditorHistory.redo history)),
     EditorHistory.mapMementos f (snd (EditorHistory.redo history))).
Proof.
  unfold EditorHistory.redo, EditorHistory.mapMementos.
  cbn [EditorHistory.states EditorHistory.currentStateIndex].
  rewrite length_fmap_js. destruct (_ <? _)%Z; [| done]. by rewrite get_fmap.
Qed.

Lemma goToState_natural (index : Z) (history : EditorHistory.t M) :
  EditorHistory.goToState index (EditorHistory.mapMementos f history)
  = (JS.maybe_map f (fst (EditorHistory.goToState index history)),
     EditorHistory.mapMementos f (snd (EditorHistory.goToState index history))).
Proof.
  unfold EditorHistory.goToState, EditorHistory.mapMementos.
  cbn [EditorHistory.states EditorHistory.currentStateIndex].
  rewrite length_fmap_js. destruct (_ && _); [| done]. by rewrite get_fmap.
Qed.

Context {D : Describable M} {D' : Describable M'}.
Hypothesis getDescription_f : forall m : M, getDescription (f m) = getDescription m.

Lemma getStateList_natural (history : EditorHistory.t M) :
  EditorHistory.getStateList (EditorHistory.mapMementos f history)
  = EditorHistory.getStateList history.
Proof.
  unfold EditorHistory.getStateList, EditorHistory.mapMementos.
  cbn [EditorHistory.states EditorHistory.currentStateIndex].
  rewrite imap_fmap. apply imap_ext. intros i m _. simpl.
  by rewrite getDescription_f.
Qed.

Context {C : Type} {O : Originator C M} {O' : Originator C M'}
  {L : Labelled M} {L' : Labelled M'}.
Hypothesis name_f : forall c : C, name (Originator := O') c = name (Originator := O) c.
Hypothesis save_f : forall now (c : C), save (Originator := O') now c = f (save now c).
Hypothesis restore_f : forall memento (c : C),
  restore (JS.maybe_map f memento) c = restore memento c.
Hypothesis setLabel_f : forall label (m : M), setLabel label (f m) = f (setLabel label m).

Lemma saveCharacter_natural now (c : C) label (manager : SaveManager.t M) :
  SaveManager.saveCharacter now c label (SaveManager.mapMementos f manager)
  = SaveManager.mapMementos f (SaveManager.saveCharacter now c label manager).
Proof.
  unfold SaveManager.saveCharacter, SaveManager.mapMementos.
  cbn [SaveManager.savedGames]. f_equal. rewrite name_f, save_f.
  set (memento := match label with
                  | Some label => if JS.truthy_string label
                                  then setLabel label (save now c) else save now c
                  | None => save now c
                  end).
  assert (Hm : match label with
               | Some label => if JS.truthy_string label
                               then setLabel label (f (save now c)) else f (save now c)
               | None => f (save now c)
               end = f memento).
  { subst memento. destruct label as [label|]; [| done].
    destruct (JS.truthy_string label); [apply setLabel_f | done]. }
  rewrite Hm. rewrite lookup_fmap.
  destruct (SaveManager.savedGames manager !! name c) as [saves|] eqn:Hsaves.
  - rewrite !bool_decide_eq_true_2 by (by eexists).
    rewrite lookup_fmap, Hsaves. simpl.
    by rewrite fmap_insert, fmap_snoc.
  - rewrite !bool_decide_eq_false_2 by (by intros [? ?]).
    rewrite !lookup_insert_eq. simpl.
    by rewrite !insert_insert_eq, fmap_insert.
Qed.

Lemma loadCharacter_natural (c : C) index (manager : SaveManager.t M) :
  SaveManager.loadCharacter c index (SaveManager.mapMementos f manager)
  = SaveManager.loadCharacter c index manager.
Proof.
  unfold SaveManager.loadCharacter, SaveManager.mapMementos.
  cbn [SaveManager.savedGames]. rewrite name_f, lookup_fmap.
  destruct (SaveManager.savedGames manager !! name c) as [saves|]; [| done].
  simpl. rewrite length_fmap_js, get_fmap. by destruct (_ || _).
Qed.

Lemma getSaveList_natural who (manager : SaveManager.t M) :
  SaveManager.getSaveList who (SaveManager.mapMementos f manager)
  = SaveManager.getSaveList who manager.
Proof.
  unfold SaveManager.getSaveList, SaveManager.mapMementos.
  cbn [SaveManager.savedGames]. rewrite lookup_fmap.
  destruct (SaveManager.savedGames manager !! who) as [saves|]; [| done].
  simpl. rewrite imap_fmap. apply imap_ext. intros i m _. simpl.
  by rewrite getDescription_f.
Qed.

Lemma deleteSave_natural who index (manager : SaveManager.t M) :
  SaveManager.deleteSave who index (SaveManager.mapMementos f manager)
  = SaveManager.mapMementos f (SaveManager.deleteSave who index manager).
Proof.
  unfold SaveManager.deleteSave, SaveManager.mapMementos.
  cbn [SaveManager.savedGames]. rewrite lookup_fmap.
  destruct (SaveManager.savedGames manager !! who) as [saves|]; [| done].
  simpl. rewrite length_fmap_js. destruct (_ || _); [done |].
  cbn [SaveManager.savedGames]. by rewrite fmap_insert, splice1_fmap.
Qed.

End CaretakerNaturality.

(** Saving appends to the saves of the character and leaves every save
    stored before as it was. *)
Lemma saveCharacter_keeps {C M} {O : Originator C M} {L : Labelled M}
    now (c : C) label (manager : SaveManager.t M) who (saves : list M) :
  SaveManager.savedGames manager !! who = Some saves ->
  exists more,
    SaveManager.savedGames (SaveManager.saveCharacter now c label manager) !! who
    = Some (saves ++ more).
Proof.
  intros Hwho. unfold SaveManager.saveCharacter. cbn [SaveManager.savedGames].
  destruct (decide (name c = who)) as [-> | Hne].
  - rewrite bool_decide_eq_true_2 by (by eexists).
    rewrite lookup_insert_eq, Hwho. by eexists.
  - exists []. rewrite lookup_insert_ne, app_nil_r by done.
    destruct (bool_decide _); [done | by rewrite lookup_insert_ne].
Qed.

(** C6, as stated, fails: [saveCharacter(hero, 'Game Start')] constructs the
    memento with the label 'Save - Hero (Lvl 1)' and then replaces the label
    through [setLabel] before it stores the memento. *)
Lemma game_save_label_is_mutated :
  let hero := GameCharacter.new "Hero" in
  let constructed := GameCharacter.save 0 hero in
  let relabelled :=
    GameCharacterMemento.after (GameCharacterMemento.SetLabel "Game Start")
      constructed in
  GameCharacterMemento._label constructed = "Save - Hero (Lvl 1)" /\
  GameCharacterMemento._label relabelled = "Game Start" /\
  SaveManager.savedGames
    (SaveManager.saveCharacter 0 hero (Some "Game Start") SaveManager.new)
    !! "Hero" = Some [relabelled] /\
  ~ mementos_never_mutated.
Proof.
  repeat split.
  intros [_ Hgame].
  specialize (Hgame (GameCharacterMemento.SetLabel "Game Start")
                (GameCharacter.save 0 (GameCharacter.new "Hero"))).
  discriminate Hgame.
Qed.

(** C6, amended.  No method of a memento changes the saved state or the
    timestamp: a [TextEditorMemento] never changes, and of a
    [GameCharacterMemento] only the label does, through [setLabel].  The
    caretakers keep every memento they have stored as it is, and read nothing
    of a memento: they store and retrieve by position and call only
    [getDescription] (and [SaveManager.saveCharacter] calls [setLabel] on the
    memento it is about to store), so they behave alike on any two
    representations of the mementos that agree on these methods. *)
Theorem memento_state_kept_and_caretakers_opaque :
  (forall m this, TextEditorMemento.after m this = this) /\
  (forall m this,
      GameCharacterMemento.getState (GameCharacterMemento.after m this)
        = GameCharacterMemento.getState this /\
      GameCharacterMemento.getTimestamp (GameCharacterMemento.after m this)
        = GameCharacterMemento.getTimestamp this /\
      GameCharacterMemento._label (GameCharacterMemento.after m this)
        = match m with
          | GameCharacterMemento.SetLabel label => label
          | _ => GameCharacterMemento._label this
          end) /\
  (forall M (memento : M) (history : EditorHistory.t M) index,
      (forall (i : nat) x,
          EditorHistory.states (EditorHistory.push memento history) !! i = Some x ->
          x = memento \/ EditorHistory.states history !! i = Some x) /\
      EditorHistory.states (snd (EditorHistory.undo history))
        = EditorHistory.states history /\
      EditorHistory.states (snd (EditorHistory.redo history))
        = EditorHistory.states history /\
      EditorHistory.states (snd (EditorHistory.goToState index history))
        = EditorHistory.states history) /\
  (forall C M (O : Originator C M) (L : Labelled M) now (c : C) label
          (manager : SaveManager.t M) who saves,
      SaveManager.savedGames manager !! who = Some saves ->
      exists more,
        SaveManager.savedGames (SaveManager.saveCharacter now c label manager) !! who
        = Some (saves ++ more)) /\
  (forall M M' (f : M -> M') (D : Describable M) (D' : Describable M')
          (memento : M) (history : EditorHistory.t M) index,
      (forall m : M, getDescription (f m) = getDescription m) ->
      EditorHistory.push (f memento) (EditorHistory.mapMementos f history)
        = EditorHistory.mapMementos f (EditorHistory.push memento history) /\
      EditorHistory.undo (EditorHistory.mapMementos f history)
        = (JS.maybe_map f (fst (EditorHistory.undo history)),
           EditorHistory.mapMementos f (snd (EditorHistory.undo history))) /\
      EditorHistory.redo (EditorHistory.mapMementos f history)
        = (JS.maybe_map f (fst (EditorHistory.redo history)),
           EditorHistory.mapMementos f (snd (EditorHistory.redo history))) /\
      EditorHistory.goToState index (EditorHistory.mapMementos f history)
        = (JS.maybe_map f (fst (EditorHistory.goToState index history)),
           EditorHistory.mapMementos f (snd (EditorHistory.goToState index history))) /\
      EditorHistory.getStateList (EditorHistory.mapMementos f history)
        = EditorHistory.getStateList history) /\
  (forall C M M' (f : M -> M')
          (O : Originator C M) (O' : Originator C M')
          (L : Labelled M) (L' : Labelled M')
          (D : Describable M) (D' : Describable M')
          now (c : C) label index who (manager : SaveManager.t M),
      (forall m : M, getDescription (f m) = getDescription m) ->
      (forall c : C, name (Originator := O') c = name (Originator := O) c) ->
      (forall now (c : C), save (Originator := O') now c = f (save now c)) ->
      (forall memento (c : C), restore (JS.maybe_map f memento) c = restore memento c) ->
      (forall label (m : M), setLabel label (f m) = f (setLabel label m)) ->
      SaveManager.saveCharacter now c label (SaveManager.mapMementos f manager)
        = SaveManager.mapMementos f (SaveManager.saveCharacter now c label manager) /\
      SaveManager.loadCharacter c index (SaveManager.mapMementos f manager)
        = SaveManager.loadCharacter c index manager /\
      SaveManager.getSaveList who (SaveManager.mapMementos f manager)
        = SaveManager.getSaveList who manager /\
      SaveManager.deleteSave who index (SaveManager.mapMementos f manager)
        = SaveManager.mapMementos f (SaveManager.deleteSave who index manager)).
Proof.
  split; [by intros [] |].
  split; [by intros [] [] |].
  split.
  { intros M memento history index. split; [apply push_keeps | apply moves_keep]. }
  split; [intros; by eapply saveCharacter_keeps |].
  split.
  - intros M M' f D D' memento history index Hd.
    split; [apply push_natural |]. split; [apply undo_natural |].
    split; [apply redo_natural |]. split; [apply goToState_natural |].
    by apply getStateList_natural.
  - intros C M M' f O O' L L' D D' now c label index who manager Hd Hn Hs Hr Hl.
    split; [by apply saveCharacter_natural |].
    split; [by apply loadCharacter_natural |].
    split; [by apply getSaveList_natural | by apply deleteSave_natural].
Qed.

(** The history of [clientCode] behaves alike on the mementos and on their
    descriptions alone; the save manager behaves alike on the game saves and
    on game saves paired with their description. *)
Lemma memento_state_kept_and_caretakers_opaque_witness :
  let describe : TextEditorMemento.t -> string :=
    TextEditorMemento.getDescription (H := plainLocale) in
  let history := pushAll clientSaved EditorHistory.new in
  let tag (m : GameCharacterMemento.t) : GameCharacterMemento.t * string :=
    (m, GameCharacterMemento.getDescription (H := plainLocale) m) in
  let tagging : Originator GameCharacter.t (GameCharacterMemento.t * string) :=
    {| name := characterName;
       save := fun now character => tag (GameCharacter.save now character);
       restore := fun memento character =>
                    GameCharacter.restore (JS.maybe_map fst memento) character |} in
  let relabel : Labelled (GameCharacterMemento.t * string) :=
    fun label tagged => tag (GameCharacterMemento.setLabel label (fst tagged)) in
  let hero := GameCharacter.new "Hero" in
  EditorHistory.getStateList (D := fun description : string => description)
    (EditorHistory.mapMementos describe history)
  = EditorHistory.getStateList (D := describe) history /\
  SaveManager.saveCharacter (O := tagging) (L := relabel) 0 hero (Some "Game Start")
    (SaveManager.mapMementos tag SaveManager.new)
  = SaveManager.mapMementos tag
      (SaveManager.saveCharacter 0 hero (Some "Game Start") SaveManager.new).
Proof.
  intros describe history tag tagging relabel hero.
  pose proof memento_state_kept_and_caretakers_opaque as H.
  destruct H as (_ & _ & _ & _ & Hhistory & Hmanager).
  split.
  - apply (Hhistory TextEditorMemento.t string describe describe
             (fun description : string => description)
             (TextEditor.save 0 clientEditor0) history 0%Z).
    reflexivity.
  - apply (Hmanager GameCharacter.t GameCharacterMemento.t
             (GameCharacterMemento.t * string)%type tag
             GameCharacter_originator tagging
             GameCharacterMemento_labelled relabel
             (GameCharacterMemento.getDescription (H := plainLocale)) snd
             0%Z hero (Some "Game Start") 0%Z "Hero" SaveManager.new).
    + reflexivity.
    + reflexivity.
    + reflexivity.
    + intros [| | memento] character; reflexivity.
    + reflexivity.
Defined.

End MementoFacts.

(** ** Observer *)

Section ObserverFacts.
Import Observer.

(** [indexOf] finds the first occurrence. *)
Lemma indexOf_elem_of {A} `{EqDecision A} (array : list A) (x : A) :
  x ∈ array ->
  exists l1 l2, array = l1 ++ x :: l2 /\ (x ∉ l1) /\
                JS.indexOf array x = Z.of_nat (List.length l1).
Proof.
  induction array as [|y array IH]; intros Hin; [by apply elem_of_nil in Hin |].
  simpl. destruct (decide (y = x)) as [-> | Hne].
  - exists [], array. split; [done |]. split; [apply not_elem_of_nil | done].
  - apply elem_of_cons in Hin as [-> | Hin]; [done |].
    destruct (IH Hin) as (l1 & l2 & -> & Hl1 & Hidx).
    exists (y :: l1), l2. split; [done |]. split.
    + by intros [-> | ?]%elem_of_cons.
    + rewrite Hidx. destruct (Z.eqb_spec (Z.of_nat (List.length l1)) (-1)); simpl; lia.
Qed.

Lemma indexOf_not_elem_of {A} `{EqDecision A} (array : list A) (x : A) :
  x ∉ array -> JS.indexOf array x = (-1)%Z.
Proof.
  induction array as [|y array IH]; intros Hin; [done |].
  apply not_elem_of_cons in Hin as [Hne Hin]. simpl.
  destruct (decide (y = x)); [done |]. by rewrite IH.
Qed.

Lemma splice1_middle {A} (l1 l2 : list A) (x : A) :
  JS.splice1 (l1 ++ x :: l2) (Z.of_nat (List.length l1)) = l1 ++ l2.
Proof.
  unfold JS.splice1, JS.relative, JS.length. rewrite length_app. simpl.
  destruct (Z.ltb_spec (Z.of_nat (List.length l1)) 0) as [|_]; [lia |].
  rewrite Z.min_l by lia. rewrite Nat2Z.id. apply delete_middle.
Qed.

Lemma attach_attached (o : ref) (s : WeatherStation.t) :
  o ∈ WeatherStation.observers s -> WeatherStation.attach o s = s.
Proof.
  intros Hin. unfold WeatherStation.attach, JS.includes.
  by rewrite bool_decide_eq_true_2.
Qed.

Lemma attach_observers (o : ref) (s : WeatherStation.t) :
  WeatherStation.observers (WeatherStation.attach o s)
  = if bool_decide (o ∈ WeatherStation.observers s)
    then WeatherStation.observers s
    else WeatherStation.observers s ++ [o].
Proof. unfold WeatherStation.attach, JS.includes. by destruct (bool_decide _). Qed.

Lemma detach_observers (o : ref) (s : WeatherStation.t) :
  NoDup (WeatherStation.observers s) ->
  NoDup (WeatherStation.observers (WeatherStation.detach o s)) /\
  forall o', o' ∈ WeatherStation.observers (WeatherStation.detach o s)
             <-> o' ∈ WeatherStation.observers s /\ o' <> o.
Proof.
  intros Hnd. unfold WeatherStation.detach.
  destruct (decide (o ∈ WeatherStation.observers s)) as [Hin | Hnotin].
  - destruct (indexOf_elem_of _ _ Hin) as (l1 & l2 & Heq & Hl1 & Hidx).
    rewrite Hidx. destruct (Z.eqb_spec (Z.of_nat (List.length l1)) (-1)); [lia |].
    cbn [WeatherStation.observers]. rewrite Heq, splice1_middle.
    rewrite Heq in Hnd. apply NoDup_app in Hnd as (Hnd1 & Hdisj & Hnd2).
    apply NoDup_cons in Hnd2 as [Hl2 Hnd2]. split.
    + apply NoDup_app. split; [done |]. split; [| done].
      intros y Hy1 Hy2. apply (Hdisj y Hy1). by right.
    + intros o'. rewrite !elem_of_app, elem_of_cons. split.
      * intros [H1 | H2].
        -- split; [tauto |]. by intros ->.
        -- split; [tauto |]. by intros ->.
      * tauto.
  - rewrite indexOf_not_elem_of by done. simpl. split; [done |].
    intros o'. split; [| tauto]. intros Ho'. split; [done |]. by intros ->.
Qed.

Lemma notify_fold (s : WeatherStation.t) (l : list ref) (w : world) :
  station w = s ->
  let w' := fold_left
    (fun w observer =>
       {| station := station w;
          store := alter (update (station w)) observer (store w);
          updates := updates w ++ [observer] |}) l w in
  station w' = s /\ updates w' = updates w ++ l.
Proof.
  revert w. induction l as [|o l IH]; intros w Hs; simpl.
  - by rewrite app_nil_r.
  - destruct (IH {| station := station w;
                    store := alter (update (station w)) o (store w);
                    updates := updates w ++ [o] |} Hs) as [Hst Hup].
    split; [done |]. rewrite Hup. simpl. by rewrite <- app_assoc.
Qed.

Lemma notify_station (w : world) : station (notify w) = station w.
Proof. by apply (notify_fold (station w)). Qed.

Lemma notify_updates (w : world) :
  updates (notify w) = updates w ++ WeatherStation.observers (station w).
Proof. by apply (notify_fold (station w)). Qed.

Lemma step_NoDup (w : world) (c : call) :
  NoDup (WeatherStation.observers (station w)) ->
  NoDup (WeatherStation.observers (station (step w c))).
Proof.
  intros Hnd. destruct c as [o | o | | t h p]; simpl.
  - rewrite attach_observers. case_bool_decide as Hin; [done |].
    apply NoDup_app. split; [done |]. split; [| apply NoDup_singleton].
    intros y Hy ->%list_elem_of_singleton. done.
  - by apply detach_observers.
  - by rewrite notify_station.
  - unfold setMeasurements. by rewrite notify_station.
Qed.

Lemma run_NoDup (calls : list call) (w : world) :
  NoDup (WeatherStation.observers (station w)) ->
  NoDup (WeatherStation.observers (station (run calls w))).
Proof.
  revert w. induction calls as [|c calls IH]; intros w Hnd; [done |].
  apply IH. by apply step_NoDup.
Qed.

Lemma received_notify (o : ref) (w : world) :
  NoDup (WeatherStation.observers (station w)) ->
  received o (notify w)
  = received o w + (if bool_decide (o ∈ WeatherStation.observers (station w)) then 1 else 0).
Proof.
  intros Hnd. unfold received. rewrite notify_updates, count_occ_app. f_equal.
  case_bool_decide as Hin.
  - apply NoDup_ListNoDup in Hnd.
    by apply (NoDup_count_occ' Nat.eq_dec), list_elem_of_In.
  - apply count_occ_not_In. by rewrite <- list_elem_of_In.
Qed.

Lemma initial_NoDup store : NoDup (WeatherStation.observers (station (initial store))).
Proof. apply NoDup_nil_2. Qed.

(** Attaching again and again leaves the station as the first attach made it. *)
Lemma attach_again (o : ref) (n : nat) (w : world) :
  Nat.iter n (fun w => step w (Attach o)) (step w (Attach o)) = step w (Attach o).
Proof.
  induction n as [|n IH]; [done |]. rewrite Nat.iter_succ, IH. simpl.
  rewrite (attach_attached o (WeatherStation.attach o (station w))); [done |].
  rewrite attach_observers. case_bool_decide; [done |].
  apply elem_of_app. right. by apply list_elem_of_singleton.
Qed.

(** While an observer is not attached, and is not attached again, it
    receives nothing. *)
Lemma detached_receives_nothing (o : ref) (later : list call) (w : world) :
  NoDup (WeatherStation.observers (station w)) ->
  o ∉ WeatherStation.observers (station w) ->
  ~ In (Attach o) later ->
  received o (run later w) = received o w.
Proof.
  revert w. induction later as [|c later IH]; intros w Hnd Hout Hlater; [done |].
  simpl. rewrite IH.
  - destruct c as [o' | o' | | t h p]; simpl; try done.
    + rewrite received_notify, bool_decide_eq_false_2 by done. lia.
    + unfold setMeasurements. rewrite received_notify by done.
      simpl. rewrite bool_decide_eq_false_2 by done. unfold received. simpl. lia.
  - by apply step_NoDup.
  - destruct c as [o' | o' | | t h p]; simpl.
    + rewrite attach_observers. case_bool_decide; [done |].
      apply not_elem_of_app. split; [done |].
      intros ->%list_elem_of_singleton. apply Hlater. by left.
    + intros Hin. by apply (detach_observers o' _ Hnd) in Hin as [? _].
    + by rewrite notify_station.
    + unfold setMeasurements. by rewrite notify_station.
  - intros Hin. apply Hlater. by right.
Qed.

(** C4. In any state the station reaches: attaching an observer that is
    already attached changes nothing, so however many times an observer is
    attached a [notify()] delivers exactly one update to it; and once the
    observer is detached it receives no further update (until it is attached
    again), while every other attached observer stays attached and still
    receives exactly one update per [notify()]. *)
Theorem observer_attach_once_detach_stops
    (store : gmap ref WeatherObserver) (calls : list call) (o : ref) :
  let w := run calls (initial store) in
  (In o (WeatherStation.observers (station w)) ->
     WeatherStation.attach o (station w) = station w) /\
  (forall n : nat,
     let attached := Nat.iter n (fun w => step w (Attach o)) (step w (Attach o)) in
     received o (notify attached) = S (received o w)) /\
  (forall later : list call,
     ~ In (Attach o) later ->
     received o (run later (step w (Detach o))) = received o w) /\
  (forall o' : ref,
     o' <> o -> In o' (WeatherStation.observers (station w)) ->
     In o' (WeatherStation.observers (station (step w (Detach o)))) /\
     received o' (notify (step w (Detach o))) = S (received o' w)).
Proof.
  intros w.
  assert (Hnd : NoDup (WeatherStation.observers (station w)))
    by apply run_NoDup, initial_NoDup.
  split; [| split; [| split]].
  - intros Hin. by apply attach_attached, list_elem_of_In.
  - intros n attached. subst attached. rewrite attach_again.
    rewrite received_notify by by apply step_NoDup.
    simpl. rewrite attach_observers.
    rewrite bool_decide_eq_true_2; [unfold received; simpl; lia |].
    case_bool_decide; [done |]. apply elem_of_app. right.
    by apply list_elem_of_singleton.
  - intros later Hlater. rewrite detached_receives_nothing; [done | | | done].
    + by apply step_NoDup.
    + simpl. intros Hin. by apply (detach_observers o _ Hnd) in Hin as [_ ?].
  - intros o' Hne Hin.
    assert (Hin' : o' ∈ WeatherStation.observers (station (step w (Detach o)))).
    { simpl. apply (detach_observers o _ Hnd). split; [by apply list_elem_of_In | done]. }
    split; [by apply list_elem_of_In |].
    rewrite received_notify by by apply step_NoDup.
    rewrite bool_decide_eq_true_2 by done. unfold received. simpl. lia.
Qed.

(** Two displays, the first attached twice.  After a measurement the first is
    detached: it receives nothing from the notifications that follow, and the
    second still receives its update. *)
Lemma observer_attach_once_detach_stops_witness :
  let store : gmap ref WeatherObserver :=
    {[ 0 := newCurrentConditionsDisplay; 1 := newStatisticsDisplay ]} in
  let calls := [Attach 0; Attach 1; Attach 0; SetMeasurements 25 65 1013] in
  let w := run calls (initial store) in
  WeatherStation.attach 0 (station w) = station w /\
  received 0 (run [SetMeasurements 26 70 1012; Notify] (step w (Detach 0)))
    = received 0 w /\
  In 1 (WeatherStation.observers (station (step w (Detach 0)))) /\
  received 1 (notify (step w (Detach 0))) = S (received 1 w).
Proof.
  intros store calls w.
  pose proof (observer_attach_once_detach_stops store calls 0) as H.
  cbv zeta in H. destruct H as (Hagain & _ & Hstops & Hothers).
  split; [| split].
  - apply Hagain. left. reflexivity.
  - apply Hstops. intros [Hc | [Hc | []]]; discriminate Hc.
  - apply (Hothers 1); [discriminate | right; left; reflexivity].
Defined.

Example weather_station_updates :
  let store : gmap ref WeatherObserver :=
    {[ 0 := newCurrentConditionsDisplay; 1 := newStatisticsDisplay ]} in
  let w := run [Attach 0; Attach 1; Attach 0; SetMeasurements 25 65 1013;
                Detach 0; SetMeasurements 26 70 1012] (initial store) in
  updates w = [0; 1; 1] /\
  Observer.store w !! 0 = Some (CurrentConditionsDisplay 25 65) /\
  Observer.store w !! 1 = Some (StatisticsDisplay [25%Q; 26%Q]).
Proof. by vm_compute. Qed.

End ObserverFacts.

(** ** Singleton *)

Section SingletonFacts.
Import Singleton.

Lemma getInstance_sets (w : world) :
  exists obj, fst (getInstance w) = JS.Return obj /\
              instance (snd (getInstance w)) = Some obj.
Proof.
  unfold getInstance, construct. destruct (instance w) as [obj|] eqn:Hw.
  - by exists obj.
  - simpl. by eexists.
Qed.

Lemma getInstance_existing (w : world) obj :
  instance w = Some obj -> getInstance w = (JS.Return obj, w).
Proof. intros Hw. unfold getInstance. by rewrite Hw. Qed.

Lemma construct_existing (w : world) obj :
  instance w = Some obj ->
  fst (construct w)
    = JS.Throw (JS.mkError "Singleton instance already exists. Use getInstance() instead.") /\
  instance (snd (construct w)) = Some obj.
Proof. intros Hw. unfold construct. simpl. by rewrite Hw. Qed.

(** Once set, the instance stays. *)
Lemma run_keeps_instance (calls : list call) (w : world) obj :
  instance w = Some obj -> instance (run calls w) = Some obj.
Proof.
  revert w. induction calls as [|c calls IH]; intros w Hw; [done |].
  apply IH. destruct c; simpl.
  - by rewrite (getInstance_existing _ _ Hw).
  - by apply construct_existing.
Qed.

(** C5. From any state of the class, two successive [getInstance()] calls
    return the same object; and once [getInstance()] has been called,
    whatever calls follow, [new Singleton()] throws. *)
Theorem singleton_same_instance_and_no_second_construction
    (w : world) (calls : list call) :
  let first := getInstance w in
  let second := getInstance (snd first) in
  (exists obj, fst first = JS.Return obj /\ fst second = JS.Return obj) /\
  fst (construct (run calls (snd first)))
    = JS.Throw (JS.mkError "Singleton instance already exists. Use getInstance() instead.").
Proof.
  intros first second. subst first second.
  destruct (getInstance_sets w) as (obj & Hfirst & Hinst). split.
  - exists obj. split; [done |]. by rewrite (getInstance_existing _ _ Hinst).
  - by apply (construct_existing _ obj), run_keeps_instance.
Qed.

Example singleton_clientCode :
  let first := getInstance initial in
  let second := getInstance (snd first) in
  fst first = JS.Return 0 /\ fst second = JS.Return 0 /\
  JS.throws (fst (construct (snd second))).
Proof. repeat split. by eexists. Qed.

End SingletonFacts.

(** ** Proxy *)

Section ProxyFacts.
Import Proxy.

Lemma checkAccess_read (this : DatabaseProxy.t) (now : clock) :
  fst (DatabaseProxy.checkAccess "read" this now) = true.
Proof. done. Qed.

Lemma checkAccess_cache operation (this : DatabaseProxy.t) (now : clock) :
  DatabaseProxy.cache (snd (DatabaseProxy.checkAccess operation this now))
  = DatabaseProxy.cache this.
Proof. unfold DatabaseProxy.checkAccess. by destruct (_ && _). Qed.

(** A read on an empty cache is a miss that is answered by the database and
    cached. *)
Lemma getData_miss (query : string) (this : DatabaseProxy.t) (now : clock) :
  DatabaseProxy.cache this !! query = None ->
  let r := DatabaseProxy.getData query this now in
  DatabaseProxy.cacheMisses r.1.2 = (DatabaseProxy.cacheMisses this + 1)%Z /\
  DatabaseProxy.cacheHits r.1.2 = DatabaseProxy.cacheHits this /\
  exists result, r.1.1 = JS.Return result /\
                 DatabaseProxy.cache r.1.2 = <[query := result]> (DatabaseProxy.cache this).
Proof.
  intros Hmiss. unfold DatabaseProxy.getData. simpl. rewrite Hmiss.
  unfold DatabaseProxy.getRealDatabase, DatabaseSource.getData. simpl.
  destruct (DatabaseProxy.realDatabase this) as [database|]; simpl.
  - destruct (DatabaseSource.isConnected database); simpl; eauto.
  - eauto.
Qed.

(** C9. Whatever the access level, [checkAccess('read')] answers true, so
    [getData] never takes the access-denied branch: for every query it
    returns a result. *)
Theorem proxy_read_access_never_denied
    (this : DatabaseProxy.t) (now : clock) (query : string) :
  fst (DatabaseProxy.checkAccess "read" this now) = true /\
  (exists result,
      (DatabaseProxy.getData query this now).1.1 = JS.Return result) /\
  (DatabaseProxy.getData query this now).1.1
    <> JS.Throw (JS.mkError "Access denied: Read operation not allowed.").
Proof.
  assert (Hret : exists result,
             (DatabaseProxy.getData query this now).1.1 = JS.Return result).
  { unfold DatabaseProxy.getData. simpl.
    destruct (DatabaseProxy.cache this !! query) as [cached|]; [by eexists |].
    unfold DatabaseProxy.getRealDatabase, DatabaseSource.getData. simpl.
    destruct (DatabaseProxy.realDatabase this) as [database|]; simpl.
    - destruct (DatabaseSource.isConnected database); by eexists.
    - by eexists. }
  split; [done |]. split; [done |]. destruct Hret as [result ->]. done.
Qed.

(** C8. A [saveData] that completes clears the whole cache, so the next
    [getData], for any query, is a miss answered by the database; a
    [saveData] on a proxy whose access level is not 'write' throws the
    access-denied error and leaves the cache as it was.  With the access
    level 'write' and an object as data, [saveData] does complete. *)
Theorem proxy_write_invalidates_cache
    (this : DatabaseProxy.t) (now : clock) (data : JS.value) :
  let saved := DatabaseProxy.saveData data this now in
  (forall result, saved.1.1 = JS.Return result ->
     DatabaseProxy.cache saved.1.2 = ∅ /\
     forall query,
       let next := DatabaseProxy.getData query saved.1.2 saved.2 in
       DatabaseProxy.cacheMisses next.1.2 = (DatabaseProxy.cacheMisses saved.1.2 + 1)%Z /\
       DatabaseProxy.cacheHits next.1.2 = DatabaseProxy.cacheHits saved.1.2 /\
       exists answer, next.1.1 = JS.Return answer /\
                      DatabaseProxy.cache next.1.2 = {[ query := answer ]}) /\
  (DatabaseProxy.accessLevel this <> "write" ->
     saved.1.1 = JS.Throw (JS.mkError
       "Access denied: Write operation not allowed with current access level.") /\
     DatabaseProxy.cache saved.1.2 = DatabaseProxy.cache this) /\
  (DatabaseProxy.accessLevel this = "write" ->
     JS.truthy_value data = true -> JS.typeof data = "object" ->
     saved.1.1 = JS.Return true).
Proof.
  intros saved. subst saved. unfold DatabaseProxy.saveData.
  unfold DatabaseProxy.checkAccess. cbn [andb bool_decide_eq_true].
  rewrite bool_decide_eq_true_2 by done. cbn [andb].
  cbn [DatabaseProxy.accessLevel].
  destruct (decide (DatabaseProxy.accessLevel this = "write")) as [Hw | Hw].
  - rewrite (bool_decide_eq_true_2 _ Hw). cbn [negb].
    destruct (JS.truthy_value data) eqn:Htruthy; cbn [negb orb].
    2:{ split; [done |]. split; [done |]. intros _ ?. done. }
    destruct (decide (JS.typeof data = "object")) as [Ho | Ho].
    2:{ rewrite (bool_decide_eq_false_2 _ Ho). cbn [negb].
        split; [done |]. split; [done |]. intros _ _ ?. done. }
    rewrite (bool_decide_eq_true_2 _ Ho). cbn [negb].
    unfold DatabaseProxy.getRealDatabase, DatabaseSource.saveData.
    cbn [DatabaseProxy.realDatabase].
    assert (Hcache : forall (p : DatabaseProxy.t) (c : clock) query,
               DatabaseProxy.cache p = ∅ ->
               let next := DatabaseProxy.getData query p c in
               DatabaseProxy.cacheMisses next.1.2 = (DatabaseProxy.cacheMisses p + 1)%Z /\
               DatabaseProxy.cacheHits next.1.2 = DatabaseProxy.cacheHits p /\
               exists answer, next.1.1 = JS.Return answer /\
                              DatabaseProxy.cache next.1.2 = {[ query := answer ]}).
    { intros p c q Hp next. subst next.
      destruct (getData_miss q p c) as (Hm & Hh & answer & Ha & Hc).
      { by rewrite Hp. }
      split; [done |]. split; [done |]. exists answer. split; [done |].
      by rewrite Hc, Hp. }
    destruct (DatabaseProxy.realDatabase this) as [database|];
      [destruct (DatabaseSource.isConnected database) |];
      (split; [intros result _; split; [done | intros q; by apply Hcache] |]);
      (split; [done | done]).
  - rewrite (bool_decide_eq_false_2 _ Hw). cbn [negb].
    split; [done |]. split; [done | done].
Qed.

(** The two proxies of [clientCode]: the read-only one refuses the write, the
    write-enabled one saves and has an empty cache afterwards. *)
Lemma proxy_write_invalidates_cache_witness :
  let reader := DatabaseProxy.new "db://example.com/mydb" "read" in
  let writer := DatabaseProxy.new "db://example.com/mydb" "write" in
  let data := JS.Object [("name", JS.String_ "New record")] in
  (DatabaseProxy.saveData data reader 0%Z).1.1
    = JS.Throw (JS.mkError
        "Access denied: Write operation not allowed with current access level.") /\
  DatabaseProxy.cache (DatabaseProxy.saveData data reader 0%Z).1.2
    = DatabaseProxy.cache reader /\
  (DatabaseProxy.saveData data writer 0%Z).1.1 = JS.Return true /\
  DatabaseProxy.cache (DatabaseProxy.saveData data writer 0%Z).1.2 = ∅.
Proof.
  intros reader writer data.
  pose proof (proxy_write_invalidates_cache reader 0%Z data) as Hreader.
  pose proof (proxy_write_invalidates_cache writer 0%Z data) as Hwriter.
  cbv zeta in Hreader, Hwriter.
  destruct Hreader as (_ & Hdenied & _).
  destruct Hwriter as (Hcleared & _ & Hsaved).
  assert (Hreturn : (DatabaseProxy.saveData data writer 0%Z).1.1 = JS.Return true)
    by (apply Hsaved; reflexivity).
  split; [| split; [| split]].
  - apply Hdenied. discriminate.
  - apply Hdenied. discriminate.
  - exact Hreturn.
  - apply (Hcleared true Hreturn).
Defined.

Example proxy_clientCode :
  let proxy := DatabaseProxy.new "db://example.com/mydb" "write" in
  let first := DatabaseProxy.getData "SELECT * FROM users" proxy 0%Z in
  let second := DatabaseProxy.getData "SELECT * FROM users" first.1.2 first.2 in
  let saved := DatabaseProxy.saveData (JS.Object [("name", JS.String_ "New record")])
                 second.1.2 second.2 in
  let third := DatabaseProxy.getData "SELECT * FROM users" saved.1.2 saved.2 in
  DatabaseProxy.cacheMisses first.1.2 = 1%Z /\
  DatabaseProxy.cacheHits second.1.2 = 1%Z /\
  saved.1.1 = JS.Return true /\
  DatabaseProxy.cacheMisses third.1.2 = 2%Z /\
  DatabaseProxy.cacheHits third.1.2 = 1%Z.
Proof. by vm_compute. Qed.

End ProxyFacts.

(** ** Bridge *)

Section BridgeFacts.
Import Bridge.

(** Unfolding the methods of the devices and of the remote controls, and
    deciding the tests they make. *)
Ltac unfold_methods :=
  unfold RemoteControl.power, RemoteControl.volumeUp, RemoteControl.volumeDown,
    AdvancedRemoteControl.mute, AdvancedRemoteControl.channelUp,
    AdvancedRemoteControl.channelDown, setVolume, setChannel,
    TV.setVolume, TV.setChannel, TV.turnOn, TV.turnOff,
    Radio.setVolume, Radio.setChannel, Radio.toggleBand, Radio.turnOn, Radio.turnOff,
    SmartSpeaker.setVolume, SmartSpeaker.setChannel, SmartSpeaker.voiceCommand,
    SmartSpeaker.setCurrentApp, SmartSpeaker.setVolume,
    SmartSpeaker.turnOn, SmartSpeaker.turnOff.

Ltac decide_tests :=
  repeat match goal with
         | |- context [if ?b then _ else _] => destruct b; simpl
         end.

(** An operation leaves the volume as it is or clamps a number into it:
    the number passed, or the volume with an amount added or subtracted. *)
Lemma perform_volume (device : Device) (op : operation) :
  volumeRange device -> noNaN op ->
  volume (perform device op) = volume device \/
  exists x, JS.Double.isNaN x = false /\
            volume (perform device op)
            = JS.Double.Math_max 0 (JS.Double.Math_min 100 x).
Proof.
  intros [Hlow Hhigh] Hop.
  pose proof (range_finite _ Hlow Hhigh) as Hfinite.
  assert (Hten : JS.Double.isNaN 10 = false) by done.
  assert (Hzero : JS.Double.isNaN 0 = false) by done.
  destruct device as [tv | radio | speaker], op; simpl in *;
    unfold_methods; simpl; decide_tests;
    eauto using add_not_nan, sub_not_nan.
Qed.

Lemma perform_range (device : Device) (op : operation) :
  volumeRange device -> noNaN op -> volumeRange (perform device op).
Proof.
  intros Hrange Hop. unfold volumeRange.
  destruct (perform_volume device op Hrange Hop) as [-> | (x & Hx & ->)]; [done |].
  by apply clamp_range.
Qed.

Lemma performAll_range (ops : list operation) (device : Device) :
  volumeRange device -> Forall noNaN ops -> volumeRange (performAll ops device).
Proof.
  intros Hrange Hops. revert device Hrange.
  induction Hops as [|op ops Hop Hops IH]; intros device Hrange; [done |].
  apply IH. by apply perform_range.
Qed.

(** C10, as stated, fails: [NaN] is a number, and [setVolume(NaN)] on a
    device that is on stores [Math.max(0, Math.min(100, NaN))], which is
    [NaN] and lies in no range. *)
Lemma setVolume_NaN_leaves_the_range :
  let ops := [TurnOn; SetVolume nan] in
  let tv := performAll ops (newTV "Samsung") in
  let radio := performAll ops (newRadio "Sony") in
  let speaker := performAll ops (newSmartSpeaker "Amazon") in
  JS.Double.isNaN (volume tv) = true /\
  (0 <=? volume tv)%float = false /\
  (volume tv <=? 100)%float = false /\
  JS.Double.isNaN (volume radio) = true /\
  JS.Double.isNaN (volume speaker) = true /\
  ~ volumeRange tv /\
  ~ volume_always_in_range.
Proof.
  intros ops tv radio speaker.
  assert (Hout : ~ volumeRange tv) by (intros [Hlow _]; vm_compute in Hlow; discriminate).
  do 5 (split; [by vm_compute |]).
  split; [exact Hout |].
  intros Hclaim. by destruct (Hclaim "Samsung" ops) as [Htv _].
Qed.

(** C10, amended.  Whatever operations are performed on a new TV, radio or
    smart speaker, as long as no volume and no amount of volume passed is
    [NaN], the volume of the device stays between 0 and 100.  On a device
    that is on, [setVolume] stores its argument clamped to this range: 0 for
    an argument that is at most 0, the argument itself between 0 and 100,
    100 for an argument that is at least 100, and [NaN] for [NaN].  While a
    device is off, [setVolume] and [setChannel] leave it exactly as it
    is. *)
Theorem device_volume_stays_in_range (brand : string) (ops : list operation) :
  Forall noNaN ops ->
  (volumeRange (performAll ops (newTV brand)) /\
   volumeRange (performAll ops (newRadio brand)) /\
   volumeRange (performAll ops (newSmartSpeaker brand))) /\
  (forall (device : Device) (percent : float),
     isOn device = true ->
     let stored := volume (setVolume percent device) in
     stored = JS.Double.Math_max 0 (JS.Double.Math_min 100 percent) /\
     ((percent <=? 0)%float = true -> stored = 0%float) /\
     ((0 <? percent)%float = true -> (percent <? 100)%float = true ->
      stored = percent) /\
     ((100 <=? percent)%float = true -> stored = 100%float) /\
     (JS.Double.isNaN percent = true -> JS.Double.isNaN stored = true)) /\
  (forall (device : Device) (percent : float) (channel : Q),
     isOn device = false ->
     setVolume percent device = device /\ setChannel channel device = device).
Proof.
  intros Hops. split; [| split].
  - split; [| split]; by apply performAll_range.
  - intros device percent Hon stored.
    assert (Hstored :
      stored = JS.Double.Math_max 0 (JS.Double.Math_min 100 percent)).
    { subst stored. destruct device as [tv | radio | speaker]; simpl in *;
        unfold_methods; by rewrite Hon. }
    rewrite Hstored. split; [done |]. split; [apply clamp_low |].
    split; [apply clamp_inside |]. split; [apply clamp_high | apply clamp_NaN].
  - intros [tv | radio | speaker] percent channel Hoff; simpl in *;
      unfold_methods; by rewrite Hoff.
Qed.

(** The TV of [clientCode] with its remote control: switched on, tuned,
    turned up and down, past both ends of the range. *)
Lemma device_volume_stays_in_range_witness :
  let ops := [Power; SetChannel 15; VolumeUp 15; SetVolume 150;
              VolumeDown 30.5; Mute; VolumeDown 5; VolumeUp infinity] in
  Forall noNaN ops /\
  volumeRange (performAll ops (newTV "Samsung")) /\
  volume (performAll ops (newTV "Samsung")) = 100%float.
Proof.
  intros ops.
  assert (Hops : Forall noNaN ops) by (repeat constructor).
  split; [exact Hops |].
  pose proof (device_volume_stays_in_range "Samsung" ops Hops) as H.
  destruct H as [[Htv _] _].
  split; [exact Htv | reflexivity].
Defined.

Example tv_remote_clientCode :
  let tv := performAll [Power; SetChannel 15; VolumeUp 15] (newTV "Samsung") in
  volume tv = 45%float /\
  volume (perform tv (SetVolume 150)) = 100%float /\
  volume (perform tv (VolumeDown 80)) = 0%float /\
  volume (perform tv (SetVolume 33.3)) = 33.3%float.
Proof. by vm_compute. Qed.

End BridgeFacts.

(** ** Invalid input *)

Section InvalidInputFacts.
Import InvalidInput.

Lemma goToState_outside {M} (index : Z) (history : Memento.EditorHistory.t M) :
  (index < 0 \/ JS.length (Memento.EditorHistory.states history) <= index)%Z ->
  Memento.EditorHistory.goToState index history = (JS.null, history).
Proof.
  intros Hout. unfold Memento.EditorHistory.goToState.
  destruct (Z.leb_spec 0 index), (Z.ltb_spec index
    (JS.length (Memento.EditorHistory.states history))); simpl; (done || lia).
Qed.

Lemma setChannel_outside (appIndex : Q) (speaker : Bridge.SmartSpeaker.t) :
  (appIndex < 0
   \/ inject_Z (JS.length (Bridge.SmartSpeaker.availableApps speaker)) <= appIndex)%Q ->
  Bridge.SmartSpeaker.setChannel appIndex speaker = speaker.
Proof.
  intros Hout. unfold Bridge.SmartSpeaker.setChannel.
  destruct (Bridge.SmartSpeaker.isOn speaker); [| done]. simpl.
  unfold JS.le, JS.lt.
  destruct (Qle_bool 0 appIndex) eqn:Hlow; [| done].
  destruct (Qle_bool (inject_Z (JS.length (Bridge.SmartSpeaker.availableApps speaker)))
              appIndex) eqn:Hhigh; [done |].
  apply Qle_bool_iff in Hlow. destruct Hout as [Hneg | Hge].
  - exfalso. by apply (Qlt_not_le _ _ Hneg).
  - apply Qle_bool_iff in Hge. congruence.
Qed.

Lemma lookupIntent_unknown (transactionId : string)
    (adapter : Adapter.ModernPaymentAdapter.t) :
  Adapter.ModernPaymentAdapter.intentMap adapter !! transactionId = None ->
  Adapter.ModernPaymentAdapter.lookupIntent transactionId adapter
  = JS.Throw (JS.mkError ("Unknown transaction ID: " +:+ transactionId)).
Proof. intros Hnone. unfold Adapter.ModernPaymentAdapter.lookupIntent. by rewrite Hnone. Qed.

(** C7, as stated, fails: [goToState(5)] on a new history, an index outside
    the stored states, returns null and throws nothing; [setChannel(7)] on a
    smart speaker that is on leaves it as it is; and the codec factory
    answers a format it does not know with the default codec. *)
Lemma invalid_input_does_not_always_throw :
  let history : Memento.EditorHistory.t Memento.TextEditorMemento.t :=
    Memento.EditorHistory.new in
  let speaker := Bridge.SmartSpeaker.turnOn (Bridge.SmartSpeaker.new "Amazon") in
  let file := Facade.VideoFile.new "holiday.WebM" in
  invalid (GoToState 5 history) /\
  Memento.EditorHistory.goToState 5 history = (JS.null, history) /\
  outcome (GoToState 5 history) = JS.Return tt /\
  invalid (SetChannel 7 speaker) /\
  Bridge.SmartSpeaker.setChannel 7 speaker = speaker /\
  outcome (SetChannel 7 speaker) = JS.Return tt /\
  Facade.VideoFile.getFormat file = "webm" /\
  invalid (CreateCodec file) /\
  Facade.CodecFactory.createCodec file = Facade.OGGCodec /\
  outcome (CreateCodec file) = JS.Return tt /\
  ~ invalid_input_always_throws.
Proof.
  assert (Hinvalid : invalid (GoToState 5 (Memento.EditorHistory.new
            (M := Memento.TextEditorMemento.t)))) by (right; done).
  split; [done |]. split; [done |]. split; [done |].
  split; [right; done |]. split; [done |]. split; [done |].
  split; [done |]. split; [by repeat split |]. split; [done |]. split; [done |].
  intros Hclaim. destruct (Hclaim _ Hinvalid) as [e He]. discriminate He.
Qed.

(** C7, amended.  Every stub of an abstract base class throws a generic
    error, with a message, when it is called.  Of the invalid inputs, an
    unknown factory key throws in [UserFactory.createUser] but not in
    [CodecFactory.createCodec], which returns the default OGG codec; a
    transaction ID the adapter has no mapping for throws in [refundPayment]
    and in [verifyPayment]; and an index outside the array throws nothing:
    [goToState] returns null and leaves the history as it is, and
    [SmartSpeaker.setChannel] leaves the speaker as it is. *)
Theorem invalid_input_throws_or_is_refused (r : request) :
  invalid r ->
  match r with
  | AbstractOperation op =>
      exists text, Abstract.call op = JS.Throw (JS.mkError text) /\ text <> ""
  | CreateUser host type data =>
      SimpleFactory.createUser host type data
      = JS.Throw (JS.mkError ("User type " +:+ type +:+ " is not recognized."))
  | CreateCodec file =>
      Facade.CodecFactory.createCodec file = Facade.OGGCodec /\
      outcome r = JS.Return tt
  | GoToState index history =>
      Memento.EditorHistory.goToState index history = (JS.null, history) /\
      outcome r = JS.Return tt
  | SetChannel appIndex speaker =>
      Bridge.SmartSpeaker.setChannel appIndex speaker = speaker /\
      outcome r = JS.Return tt
  | RefundPayment host transactionId amount adapter =>
      Adapter.ModernPaymentAdapter.refundPayment host transactionId amount adapter
      = JS.Throw (JS.mkError ("Unknown transaction ID: " +:+ transactionId))
  | VerifyPayment host transactionId adapter =>
      Adapter.ModernPaymentAdapter.verifyPayment host transactionId adapter
      = JS.Throw (JS.mkError ("Unknown transaction ID: " +:+ transactionId))
  end.
Proof.
  destruct r as [op | host type data | file | index history | appIndex speaker
                 | host transactionId amount adapter | host transactionId adapter];
    simpl; intros Hinvalid.
  - eexists. split; [reflexivity |]. by destruct op.
  - destruct Hinvalid as (Hadmin & Hcustomer & Hguest).
    unfold SimpleFactory.createUser. by rewrite !bool_decide_eq_false_2.
  - destruct Hinvalid as (Hmp4 & Havi & Hmkv & Hmov).
    unfold Facade.CodecFactory.createCodec. by rewrite !bool_decide_eq_false_2.
  - by rewrite goToState_outside.
  - by rewrite setChannel_outside.
  - unfold Adapter.ModernPaymentAdapter.refundPayment.
    by rewrite lookupIntent_unknown.
  - unfold Adapter.ModernPaymentAdapter.verifyPayment.
    by rewrite lookupIntent_unknown.
Qed.

(** The call that [clientCode] of the factory leaves commented out. *)
Lemma invalid_input_throws_or_is_refused_witness :
  let host := SimpleFactory.mkHost 0%Z 0%Z 0%Z in
  invalid (CreateUser host "unknown" SimpleFactory.emptyData) /\
  SimpleFactory.createUser host "unknown" SimpleFactory.emptyData
    = JS.Throw (JS.mkError "User type unknown is not recognized.").
Proof.
  intros host.
  assert (Hinvalid : invalid (CreateUser host "unknown" SimpleFactory.emptyData))
    by (repeat split; discriminate).
  split; [exact Hinvalid |].
  exact (invalid_input_throws_or_is_refused
           (CreateUser host "unknown" SimpleFactory.emptyData) Hinvalid).
Defined.

(** The formats of the files that [clientCode] of the facade converts, and
    of a file without an extension. *)
Example codecs_of_clientCode :
  map (fun name => Facade.getName
                     (Facade.CodecFactory.createCodec (Facade.VideoFile.new name)))
    ["wildlife.avi"; "dummy.mp4"; "vacation.mkv"; "presentation.mp4"; "clip.MOV"; "notes"]
  = ["AVI"; "MPEG4"; "MKV"; "MPEG4"; "MOV"; "OGG"].
Proof. by vm_compute. Qed.

Example factory_and_adapter_clientCode :
  let host := SimpleFactory.mkHost 0%Z 0%Z 4711%Z in
  let data := SimpleFactory.mkUserData (Some "John Doe") (Some "john@example.com")
                None None (Some "premium") in
  SimpleFactory.createUser host "Customer" data
    = JS.Return (SimpleFactory.CustomerUser
        (SimpleFactory.mkUser (Some "John Doe") (Some "john@example.com") 0%Z)
        "premium" "CUST-4711") /\
  let adapterHost := Adapter.mkHost 1700000000000%Z "k3j9x0abc12" 42%Z in
  let adapter := Adapter.ModernPaymentAdapter.new
                   (Adapter.ModernPaymentAPI.new "client-id-789" "client-secret-789") in
  let paid := Adapter.ModernPaymentAdapter.processPayment adapterHost 200 "GBP"
                (Adapter.mkPaymentDetails "4111111111111111" "12/25" "John Doe" "123")
                adapter in
  Adapter.transactionId (fst paid) = "MODERN-1700000000000-42" /\
  JS.returns (Adapter.ModernPaymentAdapter.verifyPayment adapterHost
                "MODERN-1700000000000-42" (snd paid)) /\
  JS.throws (Adapter.ModernPaymentAdapter.verifyPayment adapterHost
               "MODERN-1700000000000-42" adapter).
Proof.
  split; [by vm_compute |]. split; [by vm_compute |].
  split; by eexists.
Qed.

End InvalidInputFacts.

(** * Further properties

    Properties of the same examples beyond the ones the specification
    states, read off the code. *)

(** ** Memento: history, editor, character, saves *)

Section MementoFurther.
Import Memento.

Lemma get_in_range {A} (array : list A) (index : Z) :
  (0 <= index < JS.length array)%Z -> exists a, JS.get array index = JS.object a.
Proof.
  intros Hrange. unfold JS.get, JS.length in *.
  destruct (Z.ltb_spec index 0) as [|_]; [lia |].
  destruct (lookup_lt_is_Some_2 array (Z.to_nat index)) as [a Ha]; [lia |].
  rewrite Ha. by exists a.
Qed.

Lemma slice0_take {A} (array : list A) (end_ : Z) :
  (0 <= end_)%Z -> JS.slice0 array end_ = take (Z.to_nat end_) array.
Proof.
  intros Hend. unfold JS.slice0, JS.relative, JS.length.
  destruct (Z.ltb_spec end_ 0) as [|_]; [lia |].
  destruct (Z.le_gt_cases end_ (Z.of_nat (List.length array))) as [Hle | Hgt].
  - by rewrite Z.min_l.
  - rewrite Z.min_r by lia. rewrite Nat2Z.id.
    rewrite !take_ge; [done | lia | lia].
Qed.

Lemma historyStep_invariant {M} (history : EditorHistory.t M) (c : historyCall M) :
  historyInvariant history -> historyInvariant (historyStep history c).
Proof.
  intros [Hrange Hempty]. unfold historyInvariant.
  destruct c as [memento | | | index |]; simpl.
  - unfold EditorHistory.push. cbn [EditorHistory.states EditorHistory.currentStateIndex].
    unfold JS.length. rewrite length_app. simpl.
    split; [lia | intros ?; exfalso; lia].
  - unfold EditorHistory.undo.
    destruct (Z.ltb_spec 0 (EditorHistory.currentStateIndex history)); simpl;
      [split; [lia | intros ?; exfalso; lia] | done].
  - unfold EditorHistory.redo.
    destruct (Z.ltb_spec (EditorHistory.currentStateIndex history)
                (JS.length (EditorHistory.states history) - 1)); simpl;
      [split; [lia | intros ?; exfalso; lia] | done].
  - unfold EditorHistory.goToState.
    destruct (Z.leb_spec 0 index),
      (Z.ltb_spec index (JS.length (EditorHistory.states history))); simpl;
      try done.
    split; [lia | intros ?; exfalso; lia].
  - unfold JS.length. simpl. split; [lia | done].
Qed.

Lemma historyRun_invariant {M} (calls : list (historyCall M))
    (history : EditorHistory.t M) :
  historyInvariant history -> historyInvariant (historyRun calls history).
Proof.
  revert history. induction calls as [|c calls IH]; intros history Hinv; [done |].
  apply IH. by apply historyStep_invariant.
Qed.

Lemma new_history_invariant {M} : historyInvariant (EditorHistory.new (M := M)).
Proof. split; [unfold JS.length; simpl; lia | done]. Qed.

(** X1. Whatever calls are made on a new history (push, undo, redo,
    goToState with any integer as index, clear), the cursor is the index of
    a stored state, or -1 exactly when nothing is stored; so undo, redo and
    goToState return either null, leaving the history as it is, or the
    memento stored at the new cursor, never [undefined], and they never
    change what is stored. *)
Theorem history_cursor_stays_on_a_stored_state {M}
    (calls : list (historyCall M)) (index : Z) :
  let history := historyRun calls EditorHistory.new in
  (-1 <= EditorHistory.currentStateIndex history
   < JS.length (EditorHistory.states history))%Z /\
  (EditorHistory.currentStateIndex history = (-1)%Z
   <-> EditorHistory.states history = []) /\
  forall r,
    In r [EditorHistory.undo history; EditorHistory.redo history;
          EditorHistory.goToState index history] ->
    r = (JS.null, history) \/
    exists memento,
      fst r = JS.object memento /\
      JS.get (EditorHistory.states history) (EditorHistory.currentStateIndex (snd r))
        = JS.object memento /\
      EditorHistory.states (snd r) = EditorHistory.states history.
Proof.
  intros history.
  assert (Hinv : historyInvariant history)
    by apply historyRun_invariant, new_history_invariant.
  destruct Hinv as [Hrange Hempty]. split; [done |]. split.
  { split; [done |]. intros Hnil. rewrite Hnil in Hrange.
    unfold JS.length in Hrange. simpl in Hrange. lia. }
  intros r [<- | [<- | [<- | []]]].
  - unfold EditorHistory.undo.
    destruct (Z.ltb_spec 0 (EditorHistory.currentStateIndex history)); [| by left].
    right. simpl.
    destruct (get_in_range (EditorHistory.states history)
                (EditorHistory.currentStateIndex history - 1)) as [m Hm]; [lia |].
    exists m. by rewrite Hm.
  - unfold EditorHistory.redo.
    destruct (Z.ltb_spec (EditorHistory.currentStateIndex history)
                (JS.length (EditorHistory.states history) - 1)); [| by left].
    right. simpl.
    destruct (get_in_range (EditorHistory.states history)
                (EditorHistory.currentStateIndex history + 1)) as [m Hm]; [lia |].
    exists m. by rewrite Hm.
  - unfold EditorHistory.goToState.
    destruct (Z.leb_spec 0 index),
      (Z.ltb_spec index (JS.length (EditorHistory.states history))); simpl;
      try by left.
    right.
    destruct (get_in_range (EditorHistory.states history) index) as [m Hm]; [lia |].
    exists m. by rewrite Hm.
Qed.

(** X2. A push on any history reached from a new one keeps the states up
    to the cursor, discards the states after it (the ones that were undone)
    and appends the memento, with the cursor on it: a redo that follows
    returns null and an undo that follows returns the state that was current
    before the push. *)
Theorem push_discards_undone_states {M}
    (calls : list (historyCall M)) (memento : M) :
  let history := historyRun calls EditorHistory.new in
  let cursor := EditorHistory.currentStateIndex history in
  let pushed := EditorHistory.push memento history in
  EditorHistory.states pushed
    = take (Z.to_nat (cursor + 1)) (EditorHistory.states history) ++ [memento] /\
  EditorHistory.currentStateIndex pushed = (cursor + 1)%Z /\
  EditorHistory.redo pushed = (JS.null, pushed) /\
  EditorHistory.undo pushed
    = (if (0 <=? cursor)%Z then JS.get (EditorHistory.states history) cursor
       else JS.null,
       if (0 <=? cursor)%Z
       then EditorHistory.mk (EditorHistory.states pushed) cursor
       else pushed).
Proof.
  intros history cursor pushed.
  assert (Hinv : historyInvariant history)
    by apply historyRun_invariant, new_history_invariant.
  destruct Hinv as [Hrange _]. fold cursor in Hrange.
  assert (Hstates : EditorHistory.states pushed
            = take (Z.to_nat (cursor + 1)) (EditorHistory.states history) ++ [memento]).
  { subst pushed. unfold EditorHistory.push. cbn [EditorHistory.states]. fold cursor.
    f_equal. destruct (Z.ltb_spec cursor (JS.length (EditorHistory.states history) - 1)).
    - apply slice0_take. lia.
    - rewrite take_ge; [done |]. unfold JS.length in *. lia. }
  assert (Hcursor : EditorHistory.currentStateIndex pushed = (cursor + 1)%Z).
  { assert (Hlast : EditorHistory.currentStateIndex pushed
              = (JS.length (EditorHistory.states pushed) - 1)%Z) by done.
    rewrite Hlast, Hstates. unfold JS.length in *.
    rewrite length_app, length_take. simpl. lia. }
  assert (Hlen : JS.length (EditorHistory.states pushed) = (cursor + 2)%Z).
  { rewrite Hstates. unfold JS.length in *. rewrite length_app, length_take. simpl. lia. }
  split; [done |]. split; [done |]. split.
  - unfold EditorHistory.redo. rewrite Hcursor, Hlen.
    by destruct (Z.ltb_spec (cursor + 1) (cursor + 2 - 1)); [lia |].
  - unfold EditorHistory.undo. rewrite Hcursor.
    destruct (Z.ltb_spec 0 (cursor + 1)), (Z.leb_spec 0 cursor); try lia; [| done].
    replace (cursor + 1 - 1)%Z with cursor by lia. f_equal.
    rewrite Hstates. unfold JS.get.
    destruct (Z.ltb_spec cursor 0); [lia |].
    rewrite lookup_app_l by (rewrite length_take; unfold JS.length in *; lia).
    rewrite lookup_take_lt by lia. done.
Qed.

Lemma length_substring (s : string) (n m : nat) :
  String.length (String.substring n m s) = Nat.min m (String.length s - n).
Proof.
  revert n m. induction s as [|ch s IH]; intros [|n] [|m]; simpl; try done;
    by rewrite IH, ?Nat.sub_0_r.
Qed.

Lemma substring_prefix (p q : string) :
  String.substring 0 (String.length p) (p +:+ q) = p.
Proof.
  induction p as [|ch p IH]; [by destruct q |].
  change (String ch (String.substring 0 (String.length p) (p +:+ q)) = String ch p).
  by rewrite IH.
Qed.

(** [s.substring(0, c)] and [s.substring(c)] for a position inside [s]. *)
Lemma substring_before (s : string) (c : Z) :
  (0 <= c <= JS.strlen s)%Z ->
  JS.substring s 0 c = String.substring 0 (Z.to_nat c) s.
Proof.
  intros Hc. unfold JS.substring, JS.strlen in *.
  rewrite (Z.min_l 0) by lia. rewrite (Z.max_l 0 0) by lia.
  rewrite (Z.min_l c) by lia. rewrite (Z.max_r 0 c) by lia.
  rewrite (Z.min_l 0 c) by lia. rewrite (Z.max_r 0 c) by lia.
  by rewrite Z.sub_0_r.
Qed.

Lemma substring_after (s : string) (c : Z) :
  (0 <= c <= JS.strlen s)%Z ->
  JS.substringFrom s c
  = String.substring (Z.to_nat c) (String.length s - Z.to_nat c) s.
Proof.
  intros Hc. unfold JS.substringFrom, JS.substring, JS.strlen in *.
  rewrite (Z.min_l c) by lia. rewrite (Z.max_r 0 c) by lia.
  rewrite Z.min_id. rewrite (Z.max_r 0 (Z.of_nat _)) by lia.
  rewrite (Z.min_l c) by lia. rewrite (Z.max_r c) by lia.
  f_equal. lia.
Qed.

Lemma strlen_before (s : string) (c : Z) :
  (0 <= c <= JS.strlen s)%Z -> JS.strlen (JS.substring s 0 c) = c.
Proof.
  intros Hc. rewrite substring_before by done. unfold JS.strlen in *.
  rewrite length_substring. lia.
Qed.

Lemma before_after (s : string) (c : Z) :
  (0 <= c <= JS.strlen s)%Z ->
  JS.substring s 0 c +:+ JS.substringFrom s c = s.
Proof.
  intros Hc. rewrite substring_before, substring_after by done.
  symmetry. apply substring_split. unfold JS.strlen in Hc. lia.
Qed.

Lemma strlen_append (a b : string) :
  JS.strlen (a +:+ b) = (JS.strlen a + JS.strlen b)%Z.
Proof. unfold JS.strlen. rewrite length_append. lia. Qed.

Lemma strlen_nonneg (s : string) : (0 <= JS.strlen s)%Z.
Proof. unfold JS.strlen. lia. Qed.

Lemma editorStep_invariant (editor : TextEditor.t) (c : editorCall) :
  editorInvariant editor -> editorInvariant (editorStep editor c).
Proof.
  intros (Hsel & Hend & Hcursor). unfold editorInvariant.
  destruct c as [text | count | startPosition endPosition | position | name size];
    simpl.
  - unfold TextEditor.write. simpl.
    rewrite !strlen_append, strlen_before by lia.
    pose proof (strlen_nonneg text).
    pose proof (strlen_nonneg (JS.substringFrom (content editor) (cursorPosition editor))).
    lia.
  - unfold TextEditor.delete.
    destruct (TextEditor.hasSelection editor); simpl.
    + rewrite strlen_append, strlen_before by lia.
      pose proof (strlen_nonneg (JS.substringFrom (content editor) (end_ (selection editor)))).
      lia.
    + rewrite strlen_append, strlen_before by lia.
      pose proof (strlen_nonneg
                    (JS.substringFrom (content editor) (cursorPosition editor + count))).
      lia.
  - unfold TextEditor.select.
    destruct (Z.leb_spec 0 startPosition),
      (Z.leb_spec endPosition (JS.strlen (content editor))),
      (Z.leb_spec startPosition endPosition); simpl; lia.
  - unfold TextEditor.moveCursor.
    destruct (Z.leb_spec 0 position),
      (Z.leb_spec position (JS.strlen (content editor))); simpl; lia.
  - done.
Qed.

Lemma editorRun_invariant (calls : list editorCall) (editor : TextEditor.t) :
  editorInvariant editor -> editorInvariant (editorRun calls editor).
Proof.
  revert editor. induction calls as [|c calls IH]; intros editor Hinv; [done |].
  apply IH. by apply editorStep_invariant.
Qed.

Lemma new_editor_invariant : editorInvariant TextEditor.new.
Proof. unfold editorInvariant, JS.strlen. simpl. lia. Qed.

(** X3. Whatever the client calls on a new editor (write, delete, select,
    moveCursor, changeFont, with any strings and any integers as positions,
    counts and font sizes), the selection stays inside the content,
    [0 <= start <= end <= content.length], and the cursor is at the end of
    the selection; a state saved from such an editor and restored into any
    editor satisfies the same. *)
Theorem editor_selection_stays_inside_content
    (calls : list editorCall) (now : Z) (other : TextEditor.t) :
  let editor := editorRun calls TextEditor.new in
  let restored := TextEditor.restore (JS.object (TextEditor.save now editor)) other in
  ((0 <= start (selection editor) <= end_ (selection editor))%Z /\
   (end_ (selection editor) <= JS.strlen (content editor))%Z /\
   cursorPosition editor = end_ (selection editor)) /\
  ((0 <= start (selection restored) <= end_ (selection restored))%Z /\
   (end_ (selection restored) <= JS.strlen (content restored))%Z /\
   cursorPosition restored = end_ (selection restored)).
Proof.
  intros editor restored.
  assert (Hinv : editorInvariant editor)
    by apply editorRun_invariant, new_editor_invariant.
  split; [exact Hinv |]. subst restored. by rewrite restore_save.
Qed.

(** X4. Writing a non-empty text at the cursor, selecting exactly what was
    written and deleting the selection gives back the content the editor
    had, with the cursor where it was and nothing selected; the count passed
    to delete plays no part. *)
Theorem write_select_delete_round_trip
    (editor : TextEditor.t) (text : string) (count : Z) :
  (0 <= cursorPosition editor <= JS.strlen (content editor))%Z ->
  text <> "" ->
  let cursor := cursorPosition editor in
  TextEditor.delete count
    (TextEditor.select cursor (cursor + JS.strlen text)
       (TextEditor.write text editor))
  = {| content := content editor;
       cursorPosition := cursor;
       selection := {| start := cursor; end_ := cursor |};
       fontName := fontName editor;
       fontSize := fontSize editor |}.
Proof.
  intros Hcursor Htext cursor.
  set (before := JS.substring (content editor) 0 cursor).
  set (after := JS.substringFrom (content editor) cursor).
  assert (Hbefore : JS.strlen before = cursor) by by apply strlen_before.
  assert (Hlen : (0 < JS.strlen text)%Z).
  { unfold JS.strlen. destruct text; [done | simpl; lia]. }
  pose proof (strlen_nonneg after) as Hafter.
  unfold TextEditor.write. fold cursor before after.
  unfold TextEditor.select. cbn [content].
  rewrite !strlen_append, Hbefore.
  destruct (Z.leb_spec 0 cursor); [| lia].
  destruct (Z.leb_spec (cursor + JS.strlen text) (cursor + (JS.strlen text + JS.strlen after)));
    [| lia].
  destruct (Z.leb_spec cursor (cursor + JS.strlen text)); [| lia].
  cbn [andb]. unfold TextEditor.delete, TextEditor.hasSelection.
  cbn [selection start end_ content cursorPosition fontName fontSize].
  destruct (Z.eqb_spec cursor (cursor + JS.strlen text)); [lia |].
  cbn [negb]. f_equal.
  assert (Hpre : JS.substring (before +:+ text +:+ after) 0 cursor = before).
  { rewrite substring_before by (rewrite !strlen_append; lia).
    rewrite <- Hbefore at 1. unfold JS.strlen. rewrite Nat2Z.id.
    apply substring_prefix. }
  assert (Hpost : JS.substringFrom (before +:+ text +:+ after) (cursor + JS.strlen text)
                  = after).
  { rewrite substring_after by (rewrite !strlen_append; lia).
    rewrite <- append_assoc.
    replace (Z.to_nat (cursor + JS.strlen text))
      with (String.length (before +:+ text))
      by (rewrite <- Hbefore; unfold JS.strlen; rewrite length_append; lia).
    rewrite substring_skip.
    replace (String.length ((before +:+ text) +:+ after) - String.length (before +:+ text))
      with (String.length after) by (rewrite (length_append (before +:+ text)); lia).
    apply substring_all. }
  rewrite Hpre, Hpost. by apply before_after.
Qed.

(** "Hello!" with the cursor after "Hello": ", world" is written there,
    selected and deleted again. *)
Lemma write_select_delete_round_trip_witness :
  TextEditor.delete 1
    (TextEditor.select 5 (5 + JS.strlen ", world")
       (TextEditor.write ", world"
          (TextEditor.moveCursor 5 (TextEditor.write "Hello!" TextEditor.new))))
  = TextEditor.moveCursor 5 (TextEditor.write "Hello!" TextEditor.new).
Proof.
  exact (write_select_delete_round_trip
           (TextEditor.moveCursor 5 (TextEditor.write "Hello!" TextEditor.new))
           ", world" 1
           ltac:(vm_compute; split; discriminate) ltac:(discriminate)).
Defined.

Lemma characterStep_invariant (character : GameCharacter.t) (c : characterCall) :
  amountNotNegative c -> characterInvariant character ->
  characterInvariant (characterStep character c).
Proof.
  intros Hamount [Hhealth Hlevel]. unfold characterInvariant.
  destruct c as [x y | amount | amount | exp | item | item | skill]; simpl in *;
    try lia.
  - unfold GameCharacter.gainExperience.
    destruct (Z.leb_spec (level character * 100) exp); simpl; lia.
  - unfold GameCharacter.removeItem.
    destruct (negb _); simpl; lia.
  - unfold GameCharacter.learnSkill.
    destruct (negb _); simpl; lia.
Qed.

Lemma characterStep_name (character : GameCharacter.t) (c : characterCall) :
  characterName (characterStep character c) = characterName character.
Proof.
  destruct c as [x y | amount | amount | exp | item | item | skill]; simpl;
    try done.
  - unfold GameCharacter.gainExperience. by destruct (_ <=? _)%Z.
  - unfold GameCharacter.removeItem. by destruct (negb _).
  - unfold GameCharacter.learnSkill. by destruct (negb _).
Qed.

(** X5. While every damage and every healing is an integer that is not
    negative, the health of a character stays between 0 and 100 and its
    level at least 1, whatever is called on it after its creation (with
    integer coordinates and experience); its name never changes. *)
Theorem character_health_and_level_stay_in_range
    (name : string) (calls : list characterCall) :
  Forall amountNotNegative calls ->
  let character := characterRun calls (GameCharacter.new name) in
  (0 <= health character <= 100)%Z /\
  (1 <= level character)%Z /\
  characterName character = name.
Proof.
  intros Hcalls character. subst character.
  assert (Hgen : forall start,
             characterInvariant start ->
             characterInvariant (characterRun calls start) /\
             characterName (characterRun calls start) = characterName start).
  { induction Hcalls as [|c calls Hc Hcalls IH]; intros start Hinv; [done |].
    destruct (IH (characterStep start c)) as [Hinv' Hname];
      [by apply characterStep_invariant |].
    split; [exact Hinv' |]. simpl. rewrite Hname. apply characterStep_name. }
  destruct (Hgen (GameCharacter.new name)) as [[Hhealth Hlevel] Hname].
  { unfold characterInvariant. simpl. lia. }
  done.
Qed.

(** A negative damage is added to the health, past the 100 that [heal]
    respects, and a negative healing can take the health below 0. *)
Example negative_amounts_leave_the_range :
  health (GameCharacter.takeDamage (-50) (GameCharacter.new "Hero")) = 150%Z /\
  health (GameCharacter.heal (-150) (GameCharacter.new "Hero")) = (-50)%Z.
Proof. by split. Qed.

(** A hero that is knocked out, healed, levelled up, hurt and healed again. *)
Lemma character_health_and_level_stay_in_range_witness :
  let character :=
    characterRun [CallTakeDamage 130; CallHeal 20; CallGainExperience 100;
                  CallTakeDamage 30; CallHeal 50]
      (GameCharacter.new "Hero") in
  (0 <= health character <= 100)%Z /\
  (1 <= level character)%Z /\
  characterName character = "Hero".
Proof.
  apply (character_health_and_level_stay_in_range "Hero"
           [CallTakeDamage 130; CallHeal 20; CallGainExperience 100;
            CallTakeDamage 30; CallHeal 50]).
  repeat constructor; simpl; lia.
Defined.

Lemma characterStep_skills (character : GameCharacter.t) (c : characterCall) :
  NoDup (skills character) -> NoDup (skills (characterStep character c)).
Proof.
  intros Hskills.
  destruct c as [x y | amount | amount | exp | item | item | skill]; simpl;
    try done.
  - unfold GameCharacter.gainExperience. by destruct (_ <=? _)%Z.
  - unfold GameCharacter.removeItem. by destruct (negb _).
  - unfold GameCharacter.learnSkill, JS.includes.
    destruct (bool_decide_reflect (skill ∈ skills character)) as [Hin | Hnotin];
      simpl; [done |].
    apply NoDup_app. split; [done |]. split; [| apply NoDup_singleton].
    intros other Hother ->%list_elem_of_singleton. done.
Qed.

(** X6. A character never holds a skill twice: after any calls on a new
    character the skills are pairwise different; learnSkill leaves the
    character with the skill, and learning it once more changes nothing. *)
Theorem skills_are_learned_once
    (name : string) (calls : list characterCall) (skill : string) :
  let character := characterRun calls (GameCharacter.new name) in
  NoDup (skills character) /\
  skill ∈ skills (GameCharacter.learnSkill skill character) /\
  GameCharacter.learnSkill skill (GameCharacter.learnSkill skill character)
  = GameCharacter.learnSkill skill character.
Proof.
  intros character. split; [| split].
  - subst character.
    assert (Hnew : NoDup (skills (GameCharacter.new name))) by apply NoDup_nil_2.
    revert Hnew. generalize (GameCharacter.new name).
    induction calls as [|c calls IH]; intros start Hstart; [done |].
    apply IH. by apply characterStep_skills.
  - unfold GameCharacter.learnSkill, JS.includes.
    destruct (bool_decide_reflect (skill ∈ skills character)); simpl; [done |].
    apply elem_of_app. right. by apply list_elem_of_singleton.
  - unfold GameCharacter.learnSkill at 1.
    assert (Hhas : JS.includes (skills (GameCharacter.learnSkill skill character)) skill
                   = true).
    { unfold JS.includes. apply bool_decide_eq_true.
      unfold GameCharacter.learnSkill, JS.includes.
      destruct (bool_decide_reflect (skill ∈ skills character)); simpl; [done |].
      apply elem_of_app. right. by apply list_elem_of_singleton. }
    by rewrite Hhas.
Qed.

(** X7. removeItem takes away one copy of the item, the first one in the
    inventory, and answers true; when the character does not carry the item
    it answers false and the character is unchanged.  The other items keep
    their order. *)
Theorem removeItem_removes_first_occurrence
    (item : string) (character : GameCharacter.t) :
  ((item ∉ inventory character) /\
   GameCharacter.removeItem item character = (false, character)) \/
  (exists before after,
     inventory character = before ++ item :: after /\
     (item ∉ before) /\
     GameCharacter.removeItem item character
     = (true,
        {| characterName := characterName character;
           level := level character;
           health := health character;
           inventory := before ++ after;
           position := position character;
           skills := skills character |})).
Proof.
  destruct (decide (item ∈ inventory character)) as [Hin | Hnotin].
  - right. destruct (indexOf_elem_of _ _ Hin) as (before & after & Hinv & Hfirst & Hindex).
    exists before, after. split; [done |]. split; [done |].
    unfold GameCharacter.removeItem. rewrite Hindex.
    destruct (Z.eqb_spec (Z.of_nat (List.length before)) (-1)); [lia |].
    simpl. rewrite Hinv at 1. by rewrite splice1_middle.
  - left. split; [done |].
    unfold GameCharacter.removeItem. by rewrite indexOf_not_elem_of.
Qed.

Lemma restore_save_character now (saved changed : GameCharacter.t) :
  characterName changed = characterName saved ->
  GameCharacter.restore (JS.object (GameCharacter.save now saved)) changed = saved.
Proof.
  intros Hname. unfold GameCharacter.restore. simpl.
  rewrite Hname. rewrite bool_decide_eq_true_2 by done. simpl.
  by destruct saved as [? ? ? ? [] ?].
Qed.

Lemma restore_setLabel label memento (character : GameCharacter.t) :
  GameCharacter.restore (JS.object (GameCharacterMemento.setLabel label memento)) character
  = GameCharacter.restore (JS.object memento) character.
Proof. done. Qed.

Lemma get_app_l {A} (l1 l2 : list A) (index : Z) :
  (index < JS.length l1)%Z -> JS.get (l1 ++ l2) index = JS.get l1 index.
Proof.
  intros Hindex. unfold JS.get, JS.length in *.
  destruct (Z.ltb_spec index 0); [done |].
  by rewrite lookup_app_l by lia.
Qed.

Lemma get_app_last {A} (l : list A) (a : A) :
  JS.get (l ++ [a]) (JS.length l) = JS.object a.
Proof.
  unfold JS.length. apply get_lookup.
  rewrite lookup_app_r by lia. by rewrite Nat.sub_diag.
Qed.

Lemma saveCharacter_lookup (now : Z) (character : GameCharacter.t)
    (label : option string) (manager : SaveManager.t GameCharacterMemento.t) :
  exists memento,
    SaveManager.savedGames (SaveManager.saveCharacter now character label manager)
    = <[characterName character :=
          default [] (SaveManager.savedGames manager !! characterName character)
          ++ [memento]]> (SaveManager.savedGames manager) /\
    forall changed,
      GameCharacter.restore (JS.object memento) changed
      = GameCharacter.restore (JS.object (GameCharacter.save now character)) changed.
Proof.
  unfold SaveManager.saveCharacter. cbn [name save GameCharacter_originator].
  set (memento := match label with
                  | Some label =>
                      if JS.truthy_string label
                      then setLabel label (GameCharacter.save now character)
                      else GameCharacter.save now character
                  | None => GameCharacter.save now character
                  end).
  exists memento. split.
  - cbn [SaveManager.savedGames].
    destruct (bool_decide_reflect
                (is_Some (SaveManager.savedGames manager !! characterName character)))
      as [[saves Hsaves] | Hnone].
    + done.
    + rewrite lookup_insert_eq. rewrite insert_insert_eq.
      apply eq_None_not_Some in Hnone. by rewrite Hnone.
  - intros changed. subst memento.
    destruct label as [label |]; [| done]. by destruct (JS.truthy_string label).
Qed.

(** X8. A character saved with the save manager is got back by loading the
    save just made: whatever has been called on the character since (its
    name is kept), loading the index the save received restores the state
    that was saved, with or without a label.  The earlier saves of this
    character still load as before, and the saves of characters of another
    name are untouched. *)
Theorem save_then_load_restores_character
    (now : Z) (character changed : GameCharacter.t) (label : option string)
    (manager : SaveManager.t GameCharacterMemento.t) :
  characterName changed = characterName character ->
  let earlier :=
    default [] (SaveManager.savedGames manager !! characterName character) in
  let saved := SaveManager.saveCharacter now character label manager in
  SaveManager.loadCharacter changed (JS.length earlier) saved = character /\
  (forall index : Z,
     (0 <= index < JS.length earlier)%Z ->
     SaveManager.loadCharacter changed index saved
     = SaveManager.loadCharacter changed index manager) /\
  (forall other : string,
     other <> characterName character ->
     SaveManager.savedGames saved !! other = SaveManager.savedGames manager !! other).
Proof.
  intros Hname earlier saved.
  destruct (saveCharacter_lookup now character label manager)
    as (memento & Hsaved & Hrestore).
  fold saved earlier in Hsaved.
  split; [| split].
  - unfold SaveManager.loadCharacter. cbn [name GameCharacter_originator].
    rewrite Hsaved, Hname, lookup_insert_eq.
    destruct (Z.ltb_spec (JS.length earlier) 0) as [Hneg | _];
      [unfold JS.length in Hneg; lia |].
    destruct (Z.leb_spec (JS.length (earlier ++ [memento])) (JS.length earlier))
      as [Hle | _];
      [unfold JS.length in Hle; rewrite length_app in Hle; simpl in Hle; lia |].
    cbn [orb restore]. rewrite get_app_last, Hrestore.
    by apply restore_save_character.
  - intros index Hindex.
    unfold SaveManager.loadCharacter. cbn [name GameCharacter_originator].
    rewrite Hsaved, Hname, lookup_insert_eq.
    subst earlier.
    destruct (SaveManager.savedGames manager !! characterName character)
      as [saves |] eqn:Hsaves; simpl in Hindex |- *;
      [| unfold JS.length in Hindex; simpl in Hindex; lia].
    destruct (Z.ltb_spec index 0); [lia |].
    destruct (Z.leb_spec (JS.length (saves ++ [memento])) index) as [Hle | _];
      [unfold JS.length in Hle, Hindex; rewrite length_app in Hle; simpl in Hle; lia |].
    destruct (Z.leb_spec (JS.length saves) index); [lia |].
    cbn [orb restore]. by rewrite get_app_l by lia.
  - intros other Hother. rewrite Hsaved. by rewrite lookup_insert_ne.
Qed.

(** The hero of [clientCode], saved at the start and loaded after it was
    wounded. *)
Lemma save_then_load_restores_character_witness :
  let hero := GameCharacter.new "Hero" in
  let wounded := GameCharacter.takeDamage 30 hero in
  SaveManager.loadCharacter wounded 0
    (SaveManager.saveCharacter 0 hero (Some "Game Start") SaveManager.new)
  = hero.
Proof.
  intros hero wounded.
  pose proof (save_then_load_restores_character 0 hero wounded (Some "Game Start")
                SaveManager.new ltac:(reflexivity)) as H.
  cbv zeta in H. destruct H as (Hload & _). exact Hload.
Defined.

Lemma get_delete {A} (array : list A) (i : nat) (index : Z) :
  (0 <= index)%Z ->
  JS.get (delete i array) index
  = JS.get array (if (index <? Z.of_nat i)%Z then index else index + 1)%Z.
Proof.
  intros Hindex. unfold JS.get.
  destruct (Z.ltb_spec index (Z.of_nat i)).
  - destruct (Z.ltb_spec index 0); [lia |].
    by rewrite list_lookup_delete_lt by lia.
  - destruct (Z.ltb_spec index 0); [lia |].
    destruct (Z.ltb_spec (index + 1) 0); [lia |].
    rewrite list_lookup_delete_ge by lia.
    by replace (Z.to_nat (index + 1)) with (S (Z.to_nat index)) by lia.
Qed.

(** X9. deleteSave with an integer index of a stored save removes that
    save alone: the saves before it keep their index, the ones after it move
    down by one, the list of descriptions is one shorter and the saves of
    the other names are untouched.  With any other integer as index, or a
    name without saves, the manager is unchanged. *)
Theorem deleteSave_removes_one_save {M} {D : Describable M}
    (who : string) (index : Z) (manager : SaveManager.t M) :
  let saves := default [] (SaveManager.savedGames manager !! who) in
  let deleted := SaveManager.deleteSave who index manager in
  let left := default [] (SaveManager.savedGames deleted !! who) in
  ((0 <= index < JS.length saves)%Z ->
   JS.length left = (JS.length saves - 1)%Z /\
   (forall j : Z, (0 <= j < index)%Z -> JS.get left j = JS.get saves j) /\
   (forall j : Z, (index <= j)%Z -> JS.get left j = JS.get saves (j + 1)) /\
   List.length (SaveManager.getSaveList who deleted)
   = pred (List.length (SaveManager.getSaveList who manager)) /\
   (forall other : string,
      other <> who ->
      SaveManager.savedGames deleted !! other
      = SaveManager.savedGames manager !! other)) /\
  (~ (0 <= index < JS.length saves)%Z -> deleted = manager).
Proof.
  intros saves deleted left. subst saves deleted left.
  unfold SaveManager.deleteSave, SaveManager.getSaveList.
  destruct (SaveManager.savedGames manager !! who) as [saves |] eqn:Hsaves; simpl.
  2:{ split; [| done]. unfold JS.length. simpl. lia. }
  destruct (Z.ltb_spec index 0) as [Hneg | Hpos]; simpl.
  { split; [lia | done]. }
  destruct (Z.leb_spec (JS.length saves) index) as [Hge | Hlt].
  { split; [lia | done]. }
  split; [| lia]. intros _. cbn [SaveManager.savedGames].
  rewrite lookup_insert_eq. simpl.
  assert (Hsplice : JS.splice1 saves index = delete (Z.to_nat index) saves).
  { unfold JS.splice1, JS.relative.
    destruct (Z.ltb_spec index 0); [lia |]. by rewrite Z.min_l by lia. }
  rewrite Hsplice.
  assert (Hlen : List.length (delete (Z.to_nat index) saves)
                 = pred (List.length saves)).
  { rewrite length_delete; [lia |]. apply lookup_lt_is_Some_2.
    unfold JS.length in Hlt. lia. }
  split; [unfold JS.length; rewrite Hlen; unfold JS.length in Hlt; lia |].
  split.
  { intros j Hj. rewrite get_delete by lia.
    destruct (Z.ltb_spec j (Z.of_nat (Z.to_nat index))); [done | lia]. }
  split.
  { intros j Hj. rewrite get_delete by lia.
    destruct (Z.ltb_spec j (Z.of_nat (Z.to_nat index))); [lia | done]. }
  split.
  { by rewrite !length_imap. }
  intros other Hother. by rewrite lookup_insert_ne.
Qed.

End MementoFurther.

(** ** Composite: counts, searches, additions *)

Section CompositeFurther.
Import Composite.

Lemma countFiles_fold (children : list FileSystemComponent) (acc : Z) :
  fold_left
    (fun count child =>
       if bool_decide (getType child = "file") then count + 1
       else count + countFiles child)%Z
    children acc
  = (acc + Zsum (map (fun child =>
                        if isLeaf child then 1 else countFiles child) children))%Z.
Proof.
  revert acc. induction children as [|child children IH]; intros acc; simpl; [lia |].
  rewrite IH. destruct child as [? ? ? | [] ? ? ?]; simpl; lia.
Qed.

Lemma countFiles_files (this : FileSystemComponent) :
  countFiles this = JS.length (files this).
Proof.
  induction this as [name size parentPath | cls name children parentPath IH]
    using FileSystemComponent_ind; [done |].
  simpl. rewrite countFiles_fold. unfold JS.length.
  induction IH as [|child children Hchild _ IHchildren]; [done |].
  simpl. rewrite length_app, Nat2Z.inj_add.
  unfold JS.length in Hchild. destruct (isLeaf child); simpl; lia.
Qed.

Lemma endsWith_empty (s : string) : JS.endsWith s "" = true.
Proof.
  apply endsWith_spec. exists s. by rewrite append_empty_r.
Qed.

Lemma filter_all {A} (P : A -> Prop) `{forall x, Decision (P x)} (l : list A) :
  Forall P l -> filter P l = l.
Proof.
  induction 1 as [|x l Hx _ IH]; [done |].
  rewrite filter_cons. destruct (decide (P x)) as [_ | Hnot];
    [by rewrite IH | by destruct Hnot].
Qed.

Lemma files_leaves (this : FileSystemComponent) :
  Forall (fun x => isLeaf x = true) (files this).
Proof.
  apply Forall_forall. intros x Hx%list_elem_of_In.
  by apply files_descendant in Hx as [_ Hleaf].
Qed.


(** X10. countFiles of a directory is the number of leaf files below it at
    any depth, project directories included; it is also the number of
    results of findByExtension with the empty extension, and no
    findLargerThan returns more results. *)
Theorem countFiles_counts_every_file_below
    (cls : directoryClass) (name : string)
    (children : list FileSystemComponent) (parentPath : string) (size : Z) :
  let this := Directory cls name children parentPath in
  countFiles this = JS.length (files this) /\
  countFiles this = JS.length (findByExtension "" this) /\
  (JS.length (findLargerThan size this) <= countFiles this)%Z.
Proof.
  intros this. rewrite countFiles_files. split; [done |]. split.
  - unfold findByExtension. rewrite find_files.
    + f_equal. symmetry. apply filter_all.
      eapply Forall_impl; [apply files_leaves |].
      intros x Hleaf. simpl. rewrite endsWith_empty, andb_true_r.
      apply bool_decide_eq_true. by apply getType_file.
    + intros x [Hfile%bool_decide_eq_true _]%andb_true_iff.
      by apply getType_file.
  - unfold findLargerThan. rewrite find_files.
    + unfold JS.length. apply inj_le, length_filter.
    + intros x [Hfile%bool_decide_eq_true _]%andb_true_iff.
      by apply getType_file.
Qed.

Lemma countDirectories_fold (children : list FileSystemComponent) (acc : Z) :
  fold_left
    (fun count child =>
       if bool_decide (getType child = "directory")
       then count + 1 + countDirectories child
       else count)%Z
    children acc
  = (acc + Zsum (map (fun child =>
                        if bool_decide (getType child = "directory")
                        then 1 + countDirectories child else 0) children))%Z.
Proof.
  revert acc. induction children as [|child children IH]; intros acc; simpl; [lia |].
  rewrite IH. destruct (bool_decide (getType child = "directory")); lia.
Qed.

Lemma Zsum_cons (x : Z) (l : list Z) : Zsum (x :: l) = (x + Zsum l)%Z.
Proof. done. Qed.

Lemma length_flat_map {A B} (f : A -> list B) (l : list A) :
  JS.length (flat_map f l) = Zsum (map (fun x => JS.length (f x)) l).
Proof.
  unfold JS.length. induction l as [|x l IH]; [done |].
  simpl. rewrite length_app. lia.
Qed.

(** The directories of type 'directory' strictly below a component, as
    [find] sees them. *)
Lemma countDirectories_find (this : FileSystemComponent) :
  let isDirectory (component : FileSystemComponent) :=
    bool_decide (getType component = "directory") in
  let below :=
    (JS.length (find isDirectory this) - (if isDirectory this then 1 else 0))%Z in
  (0 <= countDirectories this <= below)%Z /\
  (hasProject this = false -> countDirectories this = below).
Proof.
  intros isDirectory.
  induction this as [name size parentPath | cls name children parentPath IH]
    using FileSystemComponent_ind; [done |].
  cbv zeta. rewrite find_Directory.
  change (countDirectories (Directory cls name children parentPath))
    with (fold_left
            (fun count child =>
               if bool_decide (getType child = "directory")
               then count + 1 + countDirectories child
               else count)%Z children 0%Z).
  rewrite countDirectories_fold.
  assert (Hlen : (JS.length
                    ((if isDirectory (Directory cls name children parentPath)
                      then [Directory cls name children parentPath] else [])
                     ++ flat_map (found isDirectory) children)
                  - (if isDirectory (Directory cls name children parentPath)
                     then 1 else 0)
                  = Zsum (map (fun child => JS.length (found isDirectory child))
                            children))%Z).
  { rewrite <- length_flat_map. unfold JS.length. rewrite length_app.
    destruct (isDirectory _); simpl; lia. }
  rewrite Hlen. clear Hlen.
  change (hasProject (Directory cls name children parentPath))
    with (existsb (fun child =>
                     bool_decide (getType child = "project") || hasProject child)
            children).
  induction IH as [|child children Hchild _ IHchildren]; [simpl; split; [lia | done] |].
  rewrite !map_cons, !Zsum_cons. cbn [existsb].
  destruct IHchildren as [Hle Heq]. cbv zeta in Hchild. destruct Hchild as [Hcle Hceq].
  assert (Hfound : JS.length (found isDirectory child)
                   = if isLeaf child then 0%Z else JS.length (find isDirectory child)).
  { unfold found. destruct child as [? ? ? | [] ? ? ?]; done. }
  assert (Hnonneg : (0 <= JS.length (find isDirectory child))%Z)
    by (unfold JS.length; lia).
  split.
  - rewrite Hfound.
    destruct child as [? ? ? | [] ? ? ?]; [simpl in *; lia | |];
      unfold isDirectory in *;
      cbn [isLeaf getType] in *; repeat case_bool_decide; try done; lia.
  - intros Hno. apply orb_false_iff in Hno as [Hchildno Hrest].
    apply orb_false_iff in Hchildno as [Hnotproject Hchildno].
    specialize (Heq Hrest). specialize (Hceq Hchildno).
    rewrite Hfound.
    destruct child as [? ? ? | [] ? ? ?]; [simpl in *; lia | |];
      unfold isDirectory in *;
      cbn [isLeaf getType] in *; repeat case_bool_decide; try done; lia.
Qed.

(** X11. countDirectories counts the plain directories it reaches through
    plain directories only: it never exceeds the number of directories of
    type 'directory' that find returns from below, equals it when no project
    directory lies below, and a project directory among the children adds
    nothing, whatever directories it holds. *)
Theorem countDirectories_skips_project_directories
    (cls : directoryClass) (name : string)
    (children : list FileSystemComponent) (parentPath : string)
    (projectName projectPath : string) (inside : list FileSystemComponent) :
  let this := Directory cls name children parentPath in
  let isDirectory (component : FileSystemComponent) :=
    bool_decide (getType component = "directory") in
  let below :=
    (JS.length (find isDirectory this) - (if isDirectory this then 1 else 0))%Z in
  (0 <= countDirectories this <= below)%Z /\
  (hasProject this = false -> countDirectories this = below) /\
  countDirectories
    (Directory cls name
       (children ++ [Directory ProjectDirectory projectName inside projectPath])
       parentPath)
  = countDirectories this.
Proof.
  intros this isDirectory below.
  destruct (countDirectories_find this) as [Hle Heq].
  split; [exact Hle |]. split; [exact Heq |].
  subst this. cbn [countDirectories]. rewrite !countDirectories_fold.
  rewrite map_app, Zsum_app. simpl. lia.
Qed.

Lemma found_nodes (predicate : FileSystemComponent -> bool)
    (this : FileSystemComponent) :
  found predicate this = filter (fun x => predicate x = true) (nodes this).
Proof.
  induction this as [name size parentPath | cls name children parentPath IH]
    using FileSystemComponent_ind.
  - unfold found. simpl. rewrite filter_cons, filter_nil.
    destruct (predicate (File name size parentPath)); by case_decide.
  - unfold found. cbn [isLeaf]. rewrite find_Directory. cbn [nodes].
    rewrite filter_cons.
    assert (Hchildren : flat_map (found predicate) children
              = filter (fun x => predicate x = true) (flat_map nodes children)).
    { induction IH as [|child children Hchild _ IHchildren]; [done |].
      simpl. by rewrite filter_app, Hchild, IHchildren. }
    rewrite Hchildren.
    destruct (predicate (Directory cls name children parentPath)); by case_decide.
Qed.

Lemma nodes_descendant (x this : FileSystemComponent) :
  In x (nodes this) <-> x = this \/ descendant x this.
Proof.
  induction this as [name size parentPath | cls name children parentPath IH]
    using FileSystemComponent_ind.
  - simpl. split.
    + intros [<- | []]. by left.
    + intros [-> | Hd]; [by left | inversion Hd].
  - cbn [nodes]. rewrite Forall_forall in IH. split.
    + intros [<- | Hin]; [by left |]. right.
      apply in_flat_map in Hin as (child & Hchild & Hx).
      apply IH in Hx as [-> | Hd]; [| | by apply list_elem_of_In].
      * by constructor.
      * by eapply descendant_deeper.
    + intros [-> | Hd]; [by left |]. right. apply in_flat_map.
      inversion Hd as [? ? ? ? Hin | ? ? ? ? child Hin Hd']; subst.
      * exists x. split; [done |]. destruct x; simpl; by left.
      * exists child. split; [done |].
        apply IH; [by apply list_elem_of_In | by right].
Qed.

(** X12. find(predicate) on a directory returns the directory itself and
    the components below it at any depth that satisfy the predicate, each
    once per place in the tree, parents before their children and children
    in insertion order; nothing else is returned. *)
Theorem find_returns_the_matching_components
    (predicate : FileSystemComponent -> bool)
    (cls : directoryClass) (name : string)
    (children : list FileSystemComponent) (parentPath : string) :
  let this := Directory cls name children parentPath in
  find predicate this = filter (fun x => predicate x = true) (nodes this) /\
  forall x : FileSystemComponent,
    In x (find predicate this)
    <-> (x = this \/ descendant x this) /\ predicate x = true.
Proof.
  intros this.
  assert (Hfind : find predicate this
                  = filter (fun x => predicate x = true) (nodes this))
    by apply (found_nodes predicate this).
  split; [exact Hfind |]. intros x. rewrite Hfind.
  rewrite <- list_elem_of_In, list_elem_of_filter, list_elem_of_In, nodes_descendant.
  tauto.
Qed.


Lemma filter_ext_Forall {A} (P Q : A -> Prop)
    `{forall x, Decision (P x)} `{forall x, Decision (Q x)} (l : list A) :
  Forall (fun x => P x <-> Q x) l -> filter P l = filter Q l.
Proof.
  induction 1 as [|x l Hx _ IH]; [done |].
  rewrite !filter_cons, IH.
  destruct (decide (P x)), (decide (Q x)); tauto.
Qed.

Lemma filter_sublist_impl {A} (P Q : A -> Prop)
    `{forall x, Decision (P x)} `{forall x, Decision (Q x)} (l : list A) :
  (forall x, P x -> Q x) -> sublist (filter P l) (filter Q l).
Proof.
  intros HPQ. induction l as [|x l IH]; [done |].
  rewrite !filter_cons.
  destruct (decide (P x)) as [HP | HP], (decide (Q x)) as [HQ | HQ].
  - by constructor.
  - destruct HQ. by apply HPQ.
  - by constructor.
  - done.
Qed.

Lemma findLargerThan_files (size : Z) (this : FileSystemComponent) :
  findLargerThan size this
  = filter (fun x => (size < getSize x)%Z) (files this).
Proof.
  unfold findLargerThan. rewrite find_files.
  - apply filter_ext_Forall.
    eapply Forall_impl; [apply files_leaves |].
    intros x Hleaf. simpl. rewrite andb_true_iff, Z.ltb_lt, bool_decide_eq_true.
    apply getType_file in Hleaf. tauto.
  - intros x [Hfile%bool_decide_eq_true _]%andb_true_iff.
    by apply getType_file.
Qed.

(** X13. findLargerThan(size) returns the leaf files below the directory
    whose size is greater than the threshold, and only those; with a larger
    threshold the results are a sublist of the former ones. *)
Theorem findLargerThan_returns_the_larger_files
    (size size' : Z) (cls : directoryClass) (name : string)
    (children : list FileSystemComponent) (parentPath : string) :
  let this := Directory cls name children parentPath in
  (forall x : FileSystemComponent,
     In x (findLargerThan size this)
     <-> descendant x this /\ isLeaf x = true /\ (size < getSize x)%Z) /\
  ((size <= size')%Z ->
   sublist (findLargerThan size' this) (findLargerThan size this)).
Proof.
  intros this. rewrite !findLargerThan_files. split.
  - intros x.
    rewrite <- list_elem_of_In, list_elem_of_filter, list_elem_of_In, files_descendant.
    tauto.
  - intros Hsize. apply filter_sublist_impl. intros x. lia.
Qed.

Lemma find_app {A} (f : A -> bool) (l1 l2 : list A) :
  List.find f (l1 ++ l2)
  = match List.find f l1 with
    | Some x => Some x
    | None => List.find f l2
    end.
Proof.
  induction l1 as [|x l1 IH]; [done |]. simpl. by destruct (f x).
Qed.

Lemma getName_setParentPath (path : string) (component : FileSystemComponent) :
  getName (setParentPath path component) = getName component.
Proof. by destruct component. Qed.

Lemma getSize_setParentPath (path : string) (component : FileSystemComponent) :
  getSize (setParentPath path component) = getSize component.
Proof. by destruct component. Qed.

(** X14. add on a directory appends the component as the last child with
    the directory's path as its parent path (name, size and children of the
    component are kept), so the directory grows by the size of the component
    and by one child.  getChild by the component's name then returns the
    added component, unless an earlier child has that name: add replaces
    nothing and getChild returns the first child of a name.  getChild by
    another name is as before. *)
Theorem add_appends_and_getChild_returns_first
    (component : FileSystemComponent)
    (cls : directoryClass) (name : string)
    (children : list FileSystemComponent) (parentPath : string) :
  let this := Directory cls name children parentPath in
  let added := setParentPath (getPath this) component in
  let after := Directory cls name (children ++ [added]) parentPath in
  add component this = JS.Return (added, after) /\
  getName added = getName component /\
  getChildren added = getChildren component /\
  getPath added
  = (if bool_decide (getPath this = "") then getName component
     else getPath this +:+ "/" +:+ getName component) /\
  getSize after = (getSize this + getSize component)%Z /\
  count after = (count this + 1)%Z /\
  getChild (getName component) after
  = JS.Return
      match getChild (getName component) this with
      | JS.Return (JS.object earlier) => JS.object earlier
      | _ => JS.object added
      end /\
  forall other : string,
    other <> getName component -> getChild other after = getChild other this.
Proof.
  intros this added after.
  split; [done |]. split; [apply getName_setParentPath |].
  split; [by destruct component |].
  split; [by destruct component |].
  split.
  { subst after this. rewrite !getSize_children, map_app, Zsum_app. simpl.
    subst added. rewrite getSize_setParentPath. lia. }
  split.
  { unfold count, JS.length. simpl. rewrite length_app. simpl. lia. }
  split.
  - subst after this. unfold getChild. f_equal. rewrite find_app.
    destruct (List.find _ children); [done |].
    simpl. subst added. rewrite getName_setParentPath.
    by rewrite bool_decide_eq_true_2.
  - intros other Hother. subst after this. unfold getChild. f_equal.
    rewrite find_app. destruct (List.find _ children); [done |].
    simpl. subst added. rewrite getName_setParentPath.
    by rewrite bool_decide_eq_false_2.
Qed.

Lemma findByExtension_files (extension : string) (this : FileSystemComponent) :
  findByExtension extension this
  = filter (fun x => JS.endsWith (getName x) extension = true) (files this).
Proof.
  unfold findByExtension. rewrite find_files.
  - apply filter_ext_Forall.
    eapply Forall_impl; [apply files_leaves |].
    intros x Hleaf. simpl. rewrite andb_true_iff, bool_decide_eq_true.
    apply getType_file in Hleaf. tauto.
  - intros x [Hfile%bool_decide_eq_true _]%andb_true_iff.
    by apply getType_file.
Qed.

(** Of two endings of the same string, the shorter ends the longer. *)
Lemma common_ending (a b x y : string) :
  a +:+ x = b +:+ y -> String.length x <= String.length y ->
  exists c, y = c +:+ x.
Proof.
  revert a. induction b as [|ch b IH]; intros a Heq Hlen.
  - exists a. done.
  - destruct a as [|ch' a].
    + change (x = String ch (b +:+ y)) in Heq. subst x.
      change (S (String.length (b +:+ y)) <= String.length y) in Hlen.
      rewrite length_append in Hlen. lia.
    + change (String ch' (a +:+ x) = String ch (b +:+ y)) in Heq.
      injection Heq as _ Heq. by apply (IH a).
Qed.

Lemma endings_exclusive (name x y : string) :
  String.length x <= String.length y ->
  (forall c, y <> c +:+ x) ->
  JS.endsWith name x = true -> JS.endsWith name y = true -> False.
Proof.
  intros Hlen Hne [a Ha]%endsWith_spec [b Hb]%endsWith_spec.
  destruct (common_ending a b x y) as [c Hc]; [congruence | done |].
  by apply (Hne c).
Qed.

Lemma css_not_js (c : string) : ".css" <> c +:+ ".js".
Proof.
  intros Heq. destruct c as [|c1 [|c2 c]]; [done | cbv in Heq; congruence |].
  apply (f_equal String.length) in Heq.
  change (4 = S (S (String.length (c +:+ ".js")))) in Heq.
  rewrite length_append in Heq. simpl in Heq. lia.
Qed.

Lemma html_not_js (c : string) : ".html" <> c +:+ ".js".
Proof.
  intros Heq. destruct c as [|c1 [|c2 [|c3 c]]];
    [done | cbv in Heq; congruence | cbv in Heq; congruence |].
  apply (f_equal String.length) in Heq.
  change (5 = S (S (S (String.length (c +:+ ".js"))))) in Heq.
  rewrite length_append in Heq. simpl in Heq. lia.
Qed.

Lemma html_not_css (c : string) : ".html" <> c +:+ ".css".
Proof.
  intros Heq. destruct c as [|c1 [|c2 c]]; [done | cbv in Heq; congruence |].
  apply (f_equal String.length) in Heq.
  change (5 = S (S (String.length (c +:+ ".css")))) in Heq.
  rewrite length_append in Heq. simpl in Heq. lia.
Qed.

Lemma length_filter_exclusive {A} (P1 P2 P3 : A -> Prop)
    `{forall x, Decision (P1 x)} `{forall x, Decision (P2 x)}
    `{forall x, Decision (P3 x)} (l : list A) :
  (forall x, P1 x -> P2 x -> False) ->
  (forall x, P1 x -> P3 x -> False) ->
  (forall x, P2 x -> P3 x -> False) ->
  List.length (filter P1 l) + List.length (filter P2 l) + List.length (filter P3 l)
  <= List.length l.
Proof.
  intros H12 H13 H23. induction l as [|x l IH]; [done |].
  rewrite !filter_cons.
  destruct (decide (P1 x)), (decide (P2 x)), (decide (P3 x)); simpl;
    try lia; exfalso; eauto.
Qed.

Lemma analyze_fold (found : list FileSystemComponent) (avgBytesPerLine : Z)
    (stats : ProjectDirectory.Stats) :
  fold_left
    (fun stats file =>
       {| ProjectDirectory.files := ProjectDirectory.files stats + 1;
          ProjectDirectory.size := ProjectDirectory.size stats + getSize file;
          ProjectDirectory.lines :=
            ProjectDirectory.lines stats
            + ProjectDirectory.estimateLines (getSize file) avgBytesPerLine |})%Z
    found stats
  = {| ProjectDirectory.files := ProjectDirectory.files stats + JS.length found;
       ProjectDirectory.size := ProjectDirectory.size stats + Zsum (map getSize found);
       ProjectDirectory.lines :=
         ProjectDirectory.lines stats
         + Zsum (map (fun file =>
                        ProjectDirectory.estimateLines (getSize file) avgBytesPerLine)
                   found) |}%Z.
Proof.
  revert stats. induction found as [|file found IH]; intros stats.
  - destruct stats. unfold JS.length. simpl. f_equal; lia.
  - simpl. rewrite IH. unfold JS.length. simpl. f_equal; lia.
Qed.

(** [Math.round(size / avgBytesPerLine)] in integer arithmetic. *)
Lemma estimateLines_div (size : Z) (avgBytesPerLine : positive) :
  ProjectDirectory.estimateLines size (Z.pos avgBytesPerLine)
  = ((2 * size + Z.pos avgBytesPerLine) / (2 * Z.pos avgBytesPerLine))%Z.
Proof.
  unfold ProjectDirectory.estimateLines, JS.Math_round, Qfloor, Qplus, Qdiv, Qmult,
    Qinv, inject_Z. simpl. f_equal; lia.
Qed.

Lemma estimateLines_near (size : Z) (avgBytesPerLine : positive) :
  let estimate := ProjectDirectory.estimateLines size (Z.pos avgBytesPerLine) in
  (- Z.pos avgBytesPerLine
   < 2 * Z.pos avgBytesPerLine * estimate - 2 * size
   <= Z.pos avgBytesPerLine)%Z.
Proof.
  intros estimate. subst estimate. rewrite estimateLines_div.
  pose proof (Z.mul_div_le (2 * size + Z.pos avgBytesPerLine)
                (2 * Z.pos avgBytesPerLine) ltac:(lia)).
  pose proof (Z.mul_succ_div_gt (2 * size + Z.pos avgBytesPerLine)
                (2 * Z.pos avgBytesPerLine) ltac:(lia)).
  lia.
Qed.

Lemma analyze_near (found : list FileSystemComponent) (avgBytesPerLine : positive) :
  let stats := ProjectDirectory.analyze found (Z.pos avgBytesPerLine) in
  ProjectDirectory.files stats = JS.length found /\
  ProjectDirectory.size stats = Zsum (map getSize found) /\
  (Z.abs (2 * Z.pos avgBytesPerLine * ProjectDirectory.lines stats
          - 2 * ProjectDirectory.size stats)
   <= Z.pos avgBytesPerLine * ProjectDirectory.files stats)%Z.
Proof.
  intros stats. subst stats. unfold ProjectDirectory.analyze. rewrite analyze_fold.
  cbn [ProjectDirectory.files ProjectDirectory.size ProjectDirectory.lines].
  split; [lia |]. split; [lia |].
  unfold JS.length. induction found as [|file found IH]; [simpl; lia |].
  rewrite !map_cons, !Zsum_cons. simpl List.length.
  pose proof (estimateLines_near (getSize file) avgBytesPerLine) as Hnear.
  cbv zeta in Hnear. lia.
Qed.

(** X15. analyzeSourceCode of a project counts, for each of '.js', '.css'
    and '.html', the files below the project whose name ends with the
    extension and adds up their sizes; the estimated number of lines differs
    from size / (bytes per line) by at most half a line per file.  No file
    is counted under two extensions, so the three counts together never
    exceed countFiles. *)
Theorem analyzeSourceCode_counts_each_file_once
    (name : string) (children : list FileSystemComponent) (parentPath : string) :
  let this := Directory ProjectDirectory name children parentPath in
  let stats := ProjectDirectory.analyzeSourceCode this in
  Forall
    (fun '(extension, avgBytesPerLine, counted) =>
       ProjectDirectory.files counted = JS.length (findByExtension extension this) /\
       ProjectDirectory.size counted
       = Zsum (map getSize (findByExtension extension this)) /\
       (Z.abs (2 * avgBytesPerLine * ProjectDirectory.lines counted
               - 2 * ProjectDirectory.size counted)
        <= avgBytesPerLine * ProjectDirectory.files counted)%Z)
    [(".js", 50%Z, ProjectDirectory.js stats);
     (".css", 40%Z, ProjectDirectory.css stats);
     (".html", 80%Z, ProjectDirectory.html stats)] /\
  (ProjectDirectory.files (ProjectDirectory.js stats)
   + ProjectDirectory.files (ProjectDirectory.css stats)
   + ProjectDirectory.files (ProjectDirectory.html stats)
   <= countFiles this)%Z.
Proof.
  intros this stats. split.
  - repeat constructor.
    + apply (analyze_near (findByExtension ".js" this) 50).
    + apply (analyze_near (findByExtension ".js" this) 50).
    + apply (analyze_near (findByExtension ".js" this) 50).
    + apply (analyze_near (findByExtension ".css" this) 40).
    + apply (analyze_near (findByExtension ".css" this) 40).
    + apply (analyze_near (findByExtension ".css" this) 40).
    + apply (analyze_near (findByExtension ".html" this) 80).
    + apply (analyze_near (findByExtension ".html" this) 80).
    + apply (analyze_near (findByExtension ".html" this) 80).
  - subst stats. unfold ProjectDirectory.analyzeSourceCode.
    cbn [ProjectDirectory.js ProjectDirectory.css ProjectDirectory.html].
    destruct (analyze_near (findByExtension ".js" this) 50) as (-> & _).
    destruct (analyze_near (findByExtension ".css" this) 40) as (-> & _).
    destruct (analyze_near (findByExtension ".html" this) 80) as (-> & _).
    rewrite countFiles_files, !findByExtension_files. unfold JS.length.
    pose proof (length_filter_exclusive
                  (fun x => JS.endsWith (getName x) ".js" = true)
                  (fun x => JS.endsWith (getName x) ".css" = true)
                  (fun x => JS.endsWith (getName x) ".html" = true)
                  (files this)) as Hcount.
    cbv beta in Hcount.
    assert (Hle : List.length
                    (filter (fun x => JS.endsWith (getName x) ".js" = true) (files this))
                  + List.length
                      (filter (fun x => JS.endsWith (getName x) ".css" = true) (files this))
                  + List.length
                      (filter (fun x => JS.endsWith (getName x) ".html" = true) (files this))
                  <= List.length (files this)).
    { apply Hcount.
      - intros x. apply endings_exclusive; [simpl; lia | apply css_not_js].
      - intros x. apply endings_exclusive; [simpl; lia | apply html_not_js].
      - intros x. apply endings_exclusive; [simpl; lia | apply html_not_css]. }
    lia.
Qed.

End CompositeFurther.

(** ** Decorator: any nesting of decorators *)

Section DecoratorFurther.
Import Decorator.

(** In this section the costs are exact rationals. *)
Local Abbreviation getCost := (Decorator.getCost (N := Q)).

(** X16. Whatever decorators wrap a simple coffee, in any number and
    nesting, the base decorator included, the cost is at least the 2.0 of
    the simple coffee and the description begins with 'Simple coffee'; a
    further decorator never lowers the cost, and the base CoffeeDecorator
    changes neither cost nor description. *)
Theorem every_coffee_extends_the_simple_coffee (coffee : Coffee) (t : topping) :
  (2 <= getCost coffee)%Q /\
  (getCost coffee <= getCost (wrap t coffee))%Q /\
  getCost (CoffeeDecorator coffee) = getCost coffee /\
  getDescription (CoffeeDecorator coffee) = getDescription coffee /\
  exists toppings : string, getDescription coffee = "Simple coffee" +:+ toppings.
Proof.
  split; [| split; [| split; [done | split; [done |]]]].
  - induction coffee as [| coffee IH | coffee IH | coffee IH | coffee IH | coffee IH];
      simpl; first [lra | done].
  - destruct t; simpl; lra.
  - induction coffee as [| coffee [toppings IH] | coffee [toppings IH]
                         | coffee [toppings IH] | coffee [toppings IH]
                         | coffee [toppings IH]]; simpl.
    + by exists "".
    + by exists toppings.
    + exists (toppings +:+ ", with milk"). by rewrite IH, append_assoc.
    + exists (toppings +:+ ", with sugar"). by rewrite IH, append_assoc.
    + exists (toppings +:+ ", with whipped cream"). by rewrite IH, append_assoc.
    + exists (toppings +:+ ", with vanilla syrup"). by rewrite IH, append_assoc.
Qed.

End DecoratorFurther.

(** ** Bridge: channels, power, the universal remote control *)

Section BridgeFurther.
Import Bridge.

Lemma le_true (x y : Q) : JS.le x y = true -> (x <= y)%Q.
Proof. apply Qle_bool_iff. Qed.

Lemma lt_true (x y : Q) : JS.lt x y = true -> (x < y)%Q.
Proof.
  unfold JS.lt. intros Hlt%negb_true_iff. apply Qnot_le_lt.
  intros Hle%Qle_bool_iff. congruence.
Qed.

Lemma TV_setChannel_range (channel : Q) (tv : TV.t) :
  channelRange (ATV tv) -> channelRange (ATV (TV.setChannel channel tv)).
Proof.
  intros (Hlow & Hhigh & Hmax). unfold TV.setChannel.
  destruct (negb (TV.isOn tv)); [done |].
  destruct (JS.lt 0 channel && JS.le channel (TV.maxChannels tv)) eqn:Htest; [| done].
  apply andb_true_iff in Htest as [Hlt%lt_true Hle%le_true].
  simpl. rewrite Hmax in Hle. done.
Qed.

Lemma TV_setVolume_range (percent : float) (tv : TV.t) :
  channelRange (ATV tv) -> channelRange (ATV (TV.setVolume percent tv)).
Proof. unfold TV.setVolume. by destruct (negb (TV.isOn tv)). Qed.

Lemma Radio_setChannel_range (channel : Q) (radio : Radio.t) :
  channelRange (ARadio radio) -> channelRange (ARadio (Radio.setChannel channel radio)).
Proof.
  intros Hrange. unfold Radio.setChannel.
  destruct (negb (Radio.isOn radio)); [done |].
  destruct (Radio.isFM radio) eqn:Hband.
  - destruct (JS.le 87.5 channel && JS.le channel 108.0) eqn:Htest; [| done].
    apply andb_true_iff in Htest as [Hlow%le_true Hhigh%le_true].
    done.
  - destruct (JS.le 540 channel && JS.le channel 1600) eqn:Htest; [| done].
    apply andb_true_iff in Htest as [Hlow%le_true Hhigh%le_true].
    done.
Qed.

Lemma Radio_setVolume_range (percent : float) (radio : Radio.t) :
  channelRange (ARadio radio) -> channelRange (ARadio (Radio.setVolume percent radio)).
Proof. unfold Radio.setVolume. by destruct (negb (Radio.isOn radio)). Qed.

Lemma Radio_toggleBand_range (radio : Radio.t) :
  channelRange (ARadio radio) -> channelRange (ARadio (Radio.toggleBand radio)).
Proof.
  intros Hrange. unfold Radio.toggleBand.
  destruct (negb (Radio.isOn radio)); [done |].
  simpl. destruct (Radio.isFM radio); simpl; split; by vm_compute.
Qed.

Lemma SmartSpeaker_channel (speaker : SmartSpeaker.t) (op : operation) :
  exists speaker',
    perform (ASmartSpeaker speaker) op = ASmartSpeaker speaker' /\
    SmartSpeaker.channel speaker' = SmartSpeaker.channel speaker /\
    SmartSpeaker.availableApps speaker' = SmartSpeaker.availableApps speaker.
Proof.
  destruct op; simpl;
    unfold RemoteControl.power, RemoteControl.volumeUp, RemoteControl.volumeDown,
      AdvancedRemoteControl.mute, AdvancedRemoteControl.channelUp,
      AdvancedRemoteControl.channelDown, AdvancedRemoteControl.performSpecialAction,
      RemoteControl.setChannel, setVolume, setChannel, turnOn, turnOff,
      SmartSpeaker.voiceCommand, SmartSpeaker.setCurrentApp, SmartSpeaker.setVolume,
      SmartSpeaker.setChannel;
    simpl;
    repeat match goal with
           | |- context [if ?b then _ else _] => destruct b; simpl
           end;
    eauto.
Qed.

Lemma perform_channelRange (device : Device) (op : operation) :
  channelRange device ->
  channelRange (perform device op) /\
  deviceType (getStatus (perform device op)) = deviceType (getStatus device).
Proof.
  intros Hrange. destruct device as [tv | radio | speaker].
  - destruct op; simpl; try done;
      unfold RemoteControl.power, RemoteControl.volumeUp, RemoteControl.volumeDown,
        AdvancedRemoteControl.mute, AdvancedRemoteControl.channelUp,
        AdvancedRemoteControl.channelDown, RemoteControl.setChannel; simpl;
      try (split; [| done]);
      first [ by apply TV_setChannel_range
            | by apply TV_setVolume_range
            | by destruct (bool_decide _) ].
  - destruct op; simpl; try done;
      unfold RemoteControl.power, RemoteControl.volumeUp, RemoteControl.volumeDown,
        AdvancedRemoteControl.mute, AdvancedRemoteControl.channelUp,
        AdvancedRemoteControl.channelDown, RemoteControl.setChannel; simpl;
      try (split; [| done]);
      first [ by apply Radio_setChannel_range
            | by apply Radio_setVolume_range
            | by apply Radio_toggleBand_range
            | by destruct (bool_decide _)
            | idtac ].
    + pose proof (Radio_setChannel_range (Radio.channel radio + 0.1) radio Hrange).
      pose proof (Radio_setChannel_range (Radio.channel radio + 10) radio Hrange).
      by destruct (Radio.isFM radio).
    + pose proof (Radio_setChannel_range (Radio.channel radio - 0.1) radio Hrange).
      pose proof (Radio_setChannel_range (Radio.channel radio - 10) radio Hrange).
      by destruct (Radio.isFM radio).
  - destruct (SmartSpeaker_channel speaker op) as (speaker' & -> & Hchannel & _).
    simpl in *. by rewrite Hchannel.
Qed.

Lemma performAll_channelRange (ops : list operation) (device : Device) :
  channelRange device ->
  channelRange (performAll ops device) /\
  deviceType (getStatus (performAll ops device)) = deviceType (getStatus device).
Proof.
  revert device. induction ops as [|op ops IH]; intros device Hrange; [done |].
  destruct (perform_channelRange device op Hrange) as [Hrange' Htype].
  destruct (IH _ Hrange') as [Hall Htypes]. split; [done |].
  simpl. by rewrite Htypes.
Qed.

(** X17. Whatever operations are performed on a new TV or radio, with any
    numbers as arguments, the device stays a TV or a radio, the channel of
    the TV stays one of its 100 channels, [0 < channel <= 100], and the
    frequency of the radio stays inside the band it is tuned to, 87.5 to
    108.0 on FM and 540 to 1600 on AM. *)
Theorem channel_stays_in_range (brand : string) (ops : list operation) :
  (exists tv : TV.t,
     performAll ops (newTV brand) = ATV tv /\
     (0 < TV.channel tv)%Q /\ (TV.channel tv <= 100)%Q) /\
  (exists radio : Radio.t,
     performAll ops (newRadio brand) = ARadio radio /\
     if Radio.isFM radio
     then (87.5 <= Radio.channel radio)%Q /\ (Radio.channel radio <= 108.0)%Q
     else (540 <= Radio.channel radio)%Q /\ (Radio.channel radio <= 1600)%Q).
Proof.
  split.
  - destruct (performAll_channelRange ops (newTV brand)) as [Hrange Htype].
    { simpl. repeat split; by vm_compute. }
    destruct (performAll ops (newTV brand)) as [tv | radio | speaker];
      [| discriminate | discriminate].
    exists tv. destruct Hrange as (Hlow & Hhigh & _). done.
  - destruct (performAll_channelRange ops (newRadio brand)) as [Hrange Htype].
    { simpl. split; by vm_compute. }
    destruct (performAll ops (newRadio brand)) as [tv | radio | speaker];
      [discriminate | | discriminate].
    by exists radio.
Qed.

Lemma turnOff_off (device : Device) : isOn device = false -> turnOff device = device.
Proof.
  destruct device as [[] | [] | []]; simpl; by intros ->.
Qed.

Lemma turnOn_on (device : Device) : isOn device = true -> turnOn device = device.
Proof.
  destruct device as [[] | [] | []]; simpl; by intros ->.
Qed.

Lemma powerStatus_isOn (device : Device) :
  bool_decide (powerStatus (getStatus device) = "ON") = isOn device.
Proof. destruct device as [[? []] | [? []] | [? []]]; done. Qed.

(** X18. The power button toggles: it turns an off device on and an on
    device off, and pressed twice it leaves the device exactly as it was.
    While a device is off, every operation other than turnOn and power
    leaves it exactly as it is. *)
Theorem power_toggles_and_off_device_ignores (device : Device) (op : operation) :
  isOn (RemoteControl.power device) = negb (isOn device) /\
  RemoteControl.power (RemoteControl.power device) = device /\
  (isOn device = false -> switchesOn op = false -> perform device op = device).
Proof.
  split; [| split].
  - unfold RemoteControl.power. rewrite powerStatus_isOn.
    destruct device as [[? []] | [? []] | [? []]]; done.
  - unfold RemoteControl.power. rewrite !powerStatus_isOn.
    destruct device as [[? []] | [? []] | [? []]]; done.
  - intros Hoff Hop.
    destruct op; try discriminate; simpl;
      unfold RemoteControl.volumeUp, RemoteControl.volumeDown,
        AdvancedRemoteControl.mute, AdvancedRemoteControl.channelUp,
        AdvancedRemoteControl.channelDown, AdvancedRemoteControl.performSpecialAction,
        RemoteControl.setChannel;
      try (by apply turnOff_off);
      destruct device as [tv | radio | speaker]; simpl in *;
      unfold TV.setVolume, TV.setChannel, Radio.setVolume, Radio.setChannel,
        Radio.toggleBand, SmartSpeaker.setVolume, SmartSpeaker.setChannel,
        SmartSpeaker.voiceCommand;
      rewrite ?Hoff; simpl; try done;
      by destruct (Radio.isFM radio).
Qed.

(** X19. On a smart speaker that is on, channelUp and channelDown cycle
    through the available apps: from the app at position [i] of the five
    apps, channelUp selects the app at position [(i + 1) mod 5] and
    channelDown the one at [(i + 4) mod 5], wrapping around at both ends, so
    that channelDown after channelUp gives the speaker back as it was. *)
Theorem speaker_channel_buttons_cycle_through_the_apps
    (speaker : SmartSpeaker.t) (i : nat) (app next previous : string) :
  let apps := ["Music"; "Podcast"; "News"; "Weather"; "Home Control"] in
  SmartSpeaker.isOn speaker = true ->
  SmartSpeaker.availableApps speaker = apps ->
  SmartSpeaker.currentApp speaker = Some app ->
  apps !! i = Some app ->
  apps !! ((i + 1) mod 5) = Some next ->
  apps !! ((i + 4) mod 5) = Some previous ->
  AdvancedRemoteControl.channelUp (ASmartSpeaker speaker)
  = ASmartSpeaker (SmartSpeaker.setCurrentApp next speaker) /\
  AdvancedRemoteControl.channelDown (ASmartSpeaker speaker)
  = ASmartSpeaker (SmartSpeaker.setCurrentApp previous speaker) /\
  AdvancedRemoteControl.channelDown
    (AdvancedRemoteControl.channelUp (ASmartSpeaker speaker))
  = ASmartSpeaker speaker.
Proof.
  intros apps Hon Happs Hcurrent Hi Hnext Hprevious.
  destruct speaker as [brand on volume channel current available].
  simpl in Hon, Happs, Hcurrent. subst on available current apps.
  do 5 (destruct i as [|i];
        [ injection Hi as <-; injection Hnext as <-; injection Hprevious as <-;
          repeat split; reflexivity
        | ]).
  discriminate.
Qed.

(** From the last app, 'Home Control', channelUp wraps around to 'Music'. *)
Lemma speaker_channel_buttons_cycle_through_the_apps_witness :
  let speaker :=
    SmartSpeaker.setCurrentApp "Home Control"
      (SmartSpeaker.turnOn (SmartSpeaker.new "Amazon")) in
  AdvancedRemoteControl.channelUp (ASmartSpeaker speaker)
  = ASmartSpeaker (SmartSpeaker.setCurrentApp "Music" speaker) /\
  AdvancedRemoteControl.channelDown (ASmartSpeaker speaker)
  = ASmartSpeaker (SmartSpeaker.setCurrentApp "Weather" speaker) /\
  AdvancedRemoteControl.channelDown
    (AdvancedRemoteControl.channelUp (ASmartSpeaker speaker))
  = ASmartSpeaker speaker.
Proof.
  intros speaker.
  apply (speaker_channel_buttons_cycle_through_the_apps
           speaker 4 "Home Control" "Music" "Weather"); reflexivity.
Defined.

Lemma remote_step_invariant (this : UniversalRemoteControl.t)
    (c : UniversalRemoteControl.call) :
  remoteInvariant this -> remoteInvariant (UniversalRemoteControl.step this c).
Proof.
  intros [Hindex Hdevice]. destruct c as [device |]; unfold remoteInvariant; simpl.
  - unfold JS.length in *. rewrite length_app. simpl. split; [lia |].
    rewrite Hdevice. symmetry. apply get_app_l. unfold JS.length. lia.
  - split; [| done].
    rewrite Z.rem_mod_nonneg by lia.
    apply Z.mod_pos_bound. lia.
Qed.

Lemma remote_run_invariant (calls : list UniversalRemoteControl.call)
    (this : UniversalRemoteControl.t) :
  remoteInvariant this ->
  remoteInvariant (UniversalRemoteControl.run calls this) /\
  UniversalRemoteControl.devices (UniversalRemoteControl.run calls this)
  = UniversalRemoteControl.devices this ++ added calls.
Proof.
  revert this. induction calls as [|c calls IH]; intros this Hinv.
  - split; [done |]. simpl. by rewrite app_nil_r.
  - destruct (IH _ (remote_step_invariant this c Hinv)) as [Hrun Hdevices].
    split; [exact Hrun |].
    change (UniversalRemoteControl.run (c :: calls) this)
      with (UniversalRemoteControl.run calls (UniversalRemoteControl.step this c)).
    rewrite Hdevices. destruct c as [device |]; simpl; [| done].
    by rewrite <- app_assoc.
Qed.

Lemma switchDevice_iter (this : UniversalRemoteControl.t) (k : nat) :
  remoteInvariant this ->
  Nat.iter k UniversalRemoteControl.switchDevice this
  = {| UniversalRemoteControl.device :=
         JS.get (UniversalRemoteControl.devices this)
           ((UniversalRemoteControl.currentDeviceIndex this + Z.of_nat k)
            mod JS.length (UniversalRemoteControl.devices this));
       UniversalRemoteControl.devices := UniversalRemoteControl.devices this;
       UniversalRemoteControl.currentDeviceIndex :=
         (UniversalRemoteControl.currentDeviceIndex this + Z.of_nat k)
         mod JS.length (UniversalRemoteControl.devices this) |}.
Proof.
  intros [Hindex Hdevice]. induction k as [|k IH].
  - simpl. rewrite Z.add_0_r, Z.mod_small by lia.
    destruct this. simpl in *. by rewrite Hdevice.
  - rewrite Nat.iter_succ, IH. unfold UniversalRemoteControl.switchDevice. simpl.
    set (n := JS.length (UniversalRemoteControl.devices this)) in *.
    set (i := UniversalRemoteControl.currentDeviceIndex this) in *.
    assert (Hmod : Z.rem ((i + Z.of_nat k) mod n + 1) n = ((i + Z.of_nat (S k)) mod n)%Z).
    { rewrite Z.rem_mod_nonneg;
        [| pose proof (Z.mod_pos_bound (i + Z.of_nat k) n); lia | lia].
      rewrite Zplus_mod_idemp_l. f_equal. lia. }
    by rewrite Hmod.
Qed.

(** X20. Whatever devices are added to a universal remote control and
    however often it is switched, the remote holds the first device followed
    by the added ones in order, the index of the active device is a position
    of that list and the active device is the entry at the index; addDevice
    does not change the active device, and switching as many times as there
    are devices brings the remote back to where it was. *)
Theorem universal_remote_cycles_through_its_devices
    (first extra : UniversalRemoteControl.ref)
    (calls : list UniversalRemoteControl.call) :
  let this := UniversalRemoteControl.run calls (UniversalRemoteControl.new first) in
  UniversalRemoteControl.devices this = first :: added calls /\
  (0 <= UniversalRemoteControl.currentDeviceIndex this
   < JS.length (UniversalRemoteControl.devices this))%Z /\
  (exists device : UniversalRemoteControl.ref,
     UniversalRemoteControl.device this = JS.object device /\
     JS.get (UniversalRemoteControl.devices this)
       (UniversalRemoteControl.currentDeviceIndex this) = JS.object device) /\
  UniversalRemoteControl.device (UniversalRemoteControl.addDevice extra this)
  = UniversalRemoteControl.device this /\
  Nat.iter (List.length (UniversalRemoteControl.devices this))
    UniversalRemoteControl.switchDevice this = this.
Proof.
  intros this.
  destruct (remote_run_invariant calls (UniversalRemoteControl.new first))
    as [[Hindex Hdevice] Hdevices].
  { split; [by vm_compute | done]. }
  fold this in Hindex, Hdevice, Hdevices.
  split; [done |]. split; [done |]. split; [| split; [done |]].
  - destruct (get_in_range (UniversalRemoteControl.devices this)
                (UniversalRemoteControl.currentDeviceIndex this) Hindex) as [device Hget].
    exists device. by rewrite Hdevice.
  - rewrite switchDevice_iter by done.
    change (Z.of_nat (List.length (UniversalRemoteControl.devices this)))
      with (JS.length (UniversalRemoteControl.devices this)).
    rewrite <- (Z.mul_1_l (JS.length (UniversalRemoteControl.devices this))) at 1 3.
    rewrite Z.mod_add by lia. rewrite Z.mod_small by lia.
    destruct this. simpl in *. by rewrite Hdevice.
Qed.

Lemma masterPower_step (on : bool) (store : gmap UniversalRemoteControl.ref Device)
    (device r : UniversalRemoteControl.ref) :
  match store !! device with
  | Some object =>
      if negb (Bool.eqb (bool_decide (powerStatus (getStatus object) = "ON")) on)
      then <[device := if on then turnOn object else turnOff object]> store
      else store
  | None => store
  end !! r
  = if decide (r = device)
    then (if on then turnOn else turnOff) <$> store !! r
    else store !! r.
Proof.
  destruct (decide (r = device)) as [-> | Hne].
  - destruct (store !! device) as [object |] eqn:Hobject; [| by rewrite Hobject].
    rewrite powerStatus_isOn.
    destruct (isOn object) eqn:Hon, on; simpl;
      rewrite ?lookup_insert_eq, ?Hobject; simpl; try done.
    + by rewrite turnOn_on.
    + by rewrite turnOff_off.
  - destruct (store !! device) as [object |]; [| done].
    destruct (negb _); [by rewrite lookup_insert_ne | done].
Qed.

Lemma turn_idempotent (on : bool) (device : Device) :
  (if on then turnOn else turnOff) ((if on then turnOn else turnOff) device)
  = (if on then turnOn else turnOff) device.
Proof. by destruct on, device as [[] | [] | []]. Qed.

Lemma masterPower_lookup (on : bool) (devices : list UniversalRemoteControl.ref)
    (store : gmap UniversalRemoteControl.ref Device) (r : UniversalRemoteControl.ref) :
  fold_left
    (fun store device =>
       match store !! device with
       | Some object =>
           if negb (Bool.eqb (bool_decide (powerStatus (getStatus object) = "ON")) on)
           then <[device := if on then turnOn object else turnOff object]> store
           else store
       | None => store
       end)
    devices store !! r
  = if decide (r ∈ devices)
    then (if on then turnOn else turnOff) <$> store !! r
    else store !! r.
Proof.
  revert store. induction devices as [|device devices IH]; intros store; [done |].
  simpl. rewrite IH, masterPower_step.
  destruct (decide (r ∈ devices)) as [Hin | Hnotin],
    (decide (r = device)) as [-> | Hne].
  - rewrite decide_True by by left.
    destruct (store !! device); simpl; [| done]. by rewrite turn_idempotent.
  - by rewrite decide_True by by right.
  - by rewrite decide_True by by left.
  - rewrite decide_False; [done |]. by intros [? | ?]%elem_of_cons.
Qed.

(** X21. masterPower(on) switches every device of the remote to the given
    power state and changes nothing else: each device object the remote
    holds ends as turnOn (or turnOff) leaves it, with its volume and channel
    as they were, however often it is listed; every other object of the
    store is untouched, and a second masterPower with the same argument
    changes nothing. *)
Theorem masterPower_switches_every_device
    (on : bool) (store : gmap UniversalRemoteControl.ref Device)
    (this : UniversalRemoteControl.t) (r : UniversalRemoteControl.ref) :
  let after := UniversalRemoteControl.masterPower on store this in
  after !! r
  = (if decide (r ∈ UniversalRemoteControl.devices this)
     then (if on then turnOn else turnOff) <$> store !! r
     else store !! r) /\
  (forall object : Device,
     r ∈ UniversalRemoteControl.devices this ->
     after !! r = Some object ->
     isOn object = on /\
     exists before : Device,
       store !! r = Some before /\ volume object = volume before /\
       deviceType (getStatus object) = deviceType (getStatus before)) /\
  UniversalRemoteControl.masterPower on after this = after.
Proof.
  intros after.
  assert (Hlookup : forall (store : gmap UniversalRemoteControl.ref Device) r,
             UniversalRemoteControl.masterPower on store this !! r
             = if decide (r ∈ UniversalRemoteControl.devices this)
               then (if on then turnOn else turnOff) <$> store !! r
               else store !! r).
  { intros store' r'. apply masterPower_lookup. }
  split; [apply Hlookup |]. split.
  - intros object Hin Hobject. subst after. rewrite Hlookup in Hobject.
    rewrite decide_True in Hobject by done.
    destruct (store !! r) as [before |]; [| done].
    injection Hobject as <-. split.
    + by destruct on, before as [[] | [] | []].
    + exists before. split; [done |].
      by destruct on, before as [[] | [] | []].
  - apply map_eq. intros r'. subst after. rewrite !Hlookup.
    destruct (decide (r' ∈ UniversalRemoteControl.devices this)); [| done].
    destruct (store !! r'); simpl; [| done]. by rewrite turn_idempotent.
Qed.

End BridgeFurther.

(** ** Observer: what the displays receive, stock market, event emitter *)

Section ObserverFurther.
Import Observer.

Lemma notify_fold_store (s : WeatherStation.t) (l : list ref) (w : world) (r : ref) :
  station w = s -> NoDup l ->
  store (fold_left
           (fun w observer =>
              {| station := station w;
                 store := alter (update (station w)) observer (store w);
                 updates := updates w ++ [observer] |}) l w) !! r
  = if decide (r ∈ l) then update s <$> store w !! r else store w !! r.
Proof.
  revert w. induction l as [|o l IH]; intros w Hs Hnd; [done |].
  apply NoDup_cons in Hnd as [Ho Hnd]. simpl. rewrite IH by done. simpl.
  rewrite Hs. destruct (decide (r ∈ l)) as [Hin | Hnotin].
  - rewrite decide_True by by right.
    rewrite lookup_alter_ne; [done |]. by intros ->.
  - destruct (decide (r = o)) as [-> | Hne].
    + rewrite decide_True by by left. by rewrite lookup_alter_eq.
    + rewrite decide_False by (by intros [? | ?]%elem_of_cons).
      by rewrite lookup_alter_ne.
Qed.

(** X22. setMeasurements stores the three measurements in the station and
    passes them on: in any state reached by attach, detach, notify and
    setMeasurements calls, every attached display is updated exactly once
    from the new measurements, in the order of attachment.  A
    current-conditions display then holds the new temperature and humidity,
    a statistics display its temperatures with the new one appended, a
    forecast display the new pressure as current and its former current
    pressure as last, and a heat-index display stays one; the displays that
    are not attached are untouched. *)
Theorem setMeasurements_updates_the_attached_displays
    (objects : gmap ref WeatherObserver) (calls : list call)
    (temperature humidity pressure : Q) (r : ref) :
  let w := run calls (initial objects) in
  let after := setMeasurements temperature humidity pressure w in
  station after = measured temperature humidity pressure (station w) /\
  WeatherStation.getTemperature (station after) = temperature /\
  WeatherStation.getHumidity (station after) = humidity /\
  WeatherStation.getPressure (station after) = pressure /\
  updates after = updates w ++ WeatherStation.observers (station w) /\
  (r ∈ WeatherStation.observers (station w) ->
   (forall t h : Q,
      store w !! r = Some (CurrentConditionsDisplay t h) ->
      store after !! r = Some (CurrentConditionsDisplay temperature humidity)) /\
   (forall temperatures : list Q,
      store w !! r = Some (StatisticsDisplay temperatures) ->
      store after !! r = Some (StatisticsDisplay (temperatures ++ [temperature]))) /\
   (forall currentPressure lastPressure : Q,
      store w !! r = Some (ForecastDisplay currentPressure lastPressure) ->
      store after !! r = Some (ForecastDisplay pressure currentPressure)) /\
   (forall heatIndex : Q,
      store w !! r = Some (HeatIndexDisplay heatIndex) ->
      exists heatIndex' : Q, store after !! r = Some (HeatIndexDisplay heatIndex')) /\
   (store w !! r = None -> store after !! r = None)) /\
  (r ∉ WeatherStation.observers (station w) -> store after !! r = store w !! r).
Proof.
  intros w after.
  assert (Hnd : NoDup (WeatherStation.observers (station w)))
    by apply run_NoDup, initial_NoDup.
  assert (Hstore :
    store after !! r
    = (if decide (r ∈ WeatherStation.observers (station w))
       then update (measured temperature humidity pressure (station w)) <$> store w !! r
       else store w !! r)).
  { subst after. unfold setMeasurements, notify.
    by rewrite (notify_fold_store
                  (measured temperature humidity pressure (station w))). }
  assert (Hstation :
    station after = measured temperature humidity pressure (station w)).
  { subst after. unfold setMeasurements. by rewrite notify_station. }
  split; [exact Hstation |]. rewrite Hstation.
  split; [done |]. split; [done |]. split; [done |]. split; [| split].
  - subst after. unfold setMeasurements. by rewrite notify_updates.
  - intros Hin. rewrite decide_True in Hstore by done.
    repeat split; intros; rewrite Hstore; simplify_option_eq; eauto.
  - intros Hnotin. by rewrite decide_False in Hstore.
Qed.

Lemma fold_min_spec (rest : list Q) (first : Q) :
  let least := fold_left JS.Math_min rest first in
  In least (first :: rest) /\
  (least <= first)%Q /\ Forall (fun t => (least <= t)%Q) rest.
Proof.
  revert first. induction rest as [|t rest IH]; intros first; simpl.
  - split; [by left |]. split; [apply Qle_refl | constructor].
  - destruct (IH (JS.Math_min first t)) as (Hin & Hle & Hall).
    assert (Hmin : JS.Math_min first t = first \/ JS.Math_min first t = t).
    { unfold JS.Math_min, Qmin, GenericMinMax.gmin.
      destruct (Qcompare first t); auto. }
    split; [| split].
    + destruct Hin as [Hin | Hin]; [| by right; right].
      rewrite <- Hin. destruct Hmin as [-> | ->]; [by left | by right; left].
    + eapply Qle_trans; [exact Hle |]. apply Q.le_min_l.
    + constructor; [| done].
      eapply Qle_trans; [exact Hle |]. apply Q.le_min_r.
Qed.

Lemma fold_max_spec (rest : list Q) (first : Q) :
  let greatest := fold_left JS.Math_max rest first in
  In greatest (first :: rest) /\
  (first <= greatest)%Q /\ Forall (fun t => (t <= greatest)%Q) rest.
Proof.
  revert first. induction rest as [|t rest IH]; intros first; simpl.
  - split; [by left |]. split; [apply Qle_refl | constructor].
  - destruct (IH (JS.Math_max first t)) as (Hin & Hle & Hall).
    assert (Hmax : JS.Math_max first t = first \/ JS.Math_max first t = t).
    { unfold JS.Math_max, Qmax, GenericMinMax.gmax.
      destruct (Qcompare first t); auto. }
    split; [| split].
    + destruct Hin as [Hin | Hin]; [| by right; right].
      rewrite <- Hin. destruct Hmax as [-> | ->]; [by left | by right; left].
    + eapply Qle_trans; [| exact Hle]. apply Q.le_max_l.
    + constructor; [| done].
      eapply Qle_trans; [| exact Hle]. apply Q.le_max_r.
Qed.

(** X23. Once a statistics display has recorded a temperature, its minimum
    and its maximum are recorded temperatures, and every recorded
    temperature lies between them. *)
Theorem statistics_min_and_max_bound_the_temperatures (temperatures : list Q) :
  temperatures <> [] ->
  In (getMinTemperature temperatures) temperatures /\
  In (getMaxTemperature temperatures) temperatures /\
  Forall (fun t => (getMinTemperature temperatures <= t)%Q /\
                   (t <= getMaxTemperature temperatures)%Q) temperatures.
Proof.
  destruct temperatures as [|first rest]; [done |]. intros _.
  destruct (fold_min_spec rest first) as (Hmin & Hminfirst & Hminrest).
  destruct (fold_max_spec rest first) as (Hmax & Hmaxfirst & Hmaxrest).
  split; [exact Hmin |]. split; [exact Hmax |].
  constructor; [done |].
  apply Forall_forall. intros t Ht.
  rewrite Forall_forall in Hminrest, Hmaxrest. split; auto.
Qed.

(** Three recorded temperatures. *)
Lemma statistics_min_and_max_bound_the_temperatures_witness :
  let temperatures := [25; 26.5; 22]%Q in
  In (getMinTemperature temperatures) temperatures /\
  In (getMaxTemperature temperatures) temperatures /\
  Forall (fun t => (getMinTemperature temperatures <= t)%Q /\
                   (t <= getMaxTemperature temperatures)%Q) temperatures.
Proof.
  intros temperatures.
  apply (statistics_min_and_max_bound_the_temperatures temperatures).
  discriminate.
Defined.

Lemma set_spec (key : ref) (value : list string) (entries : list (ref * list string)) :
  NoDup entries.*1 ->
  NoDup (StockMarket.set key value entries).*1 /\
  forall k v,
    (k, v) ∈ StockMarket.set key value entries
    <-> (k = key /\ v = value) \/ (k <> key /\ (k, v) ∈ entries).
Proof.
  induction entries as [|[k0 v0] entries IH]; intros Hnd.
  - simpl. split; [apply NoDup_singleton |].
    intros k v. rewrite list_elem_of_singleton, elem_of_nil.
    split; [intros [= -> ->]; by left | intros [[-> ->] | [_ []]]; done].
  - rewrite fmap_cons in Hnd. apply NoDup_cons in Hnd as [Hk0 Hnd]. simpl in Hk0.
    simpl. destruct (decide (k0 = key)) as [-> | Hne].
    + split.
      * rewrite fmap_cons. apply NoDup_cons. done.
      * intros k v. rewrite !elem_of_cons. split.
        -- intros [[= -> ->] | Hin]; [by left |]. right.
           split; [| by right]. intros ->. apply Hk0.
           apply list_elem_of_fmap. by exists (key, v).
        -- intros [[-> ->] | [Hk [[= -> ->] | Hin]]]; [by left | done | by right].
    + destruct (IH Hnd) as [Hnd' Hin']. split.
      * rewrite fmap_cons. apply NoDup_cons. split; [| done]. simpl.
        intros ([k v] & Hk & Hin)%list_elem_of_fmap. simpl in Hk. subst k.
        apply Hin' in Hin as [[-> _] | [_ Hin]]; [done |].
        apply Hk0. apply list_elem_of_fmap. by exists (k0, v).
      * intros k v. rewrite !elem_of_cons, Hin'. split.
        -- intros [[= -> ->] | [[-> ->] | [Hk Hin]]].
           ++ right. split; [done | by left].
           ++ by left.
           ++ right. split; [done | by right].
        -- intros [[-> ->] | [Hk [[= -> ->] | Hin]]].
           ++ right. by left.
           ++ by left.
           ++ right. right. done.
Qed.

Lemma delete_spec (key : ref) (entries : list (ref * list string)) :
  NoDup entries.*1 ->
  NoDup (StockMarket.delete key entries).*1 /\
  forall k v,
    (k, v) ∈ StockMarket.delete key entries <-> k <> key /\ (k, v) ∈ entries.
Proof.
  intros Hnd. split.
  - unfold StockMarket.delete.
    induction entries as [|[k0 v0] entries IH]; [done |].
    rewrite fmap_cons in Hnd. apply NoDup_cons in Hnd as [Hk0 Hnd].
    rewrite filter_cons. destruct (decide ((k0, v0).1 <> key)); [| by apply IH].
    rewrite fmap_cons. apply NoDup_cons. split; [| by apply IH].
    intros ([k v] & Hk & Hin%list_elem_of_filter)%list_elem_of_fmap.
    simpl in Hk. subst k. apply Hk0. apply list_elem_of_fmap.
    exists (k0, v). by destruct Hin.
  - intros k v. unfold StockMarket.delete. by rewrite list_elem_of_filter.
Qed.


Lemma updateStock_alerts (market : StockMarket.t) (symbol : string) (price : Q)
    (object : StockObserver) :
  StockMarket.getStockPrice symbol market = JS.object price ->
  Forall (alertFor symbol price) (updateStock market symbol object).2.
Proof.
  intros Hprice. destruct object as [name held | thresholds]; simpl.
  - by destruct (JS.truthy_string symbol).
  - destruct (JS.truthy_string symbol); [| done]. rewrite Hprice.
    destruct (thresholds !! symbol) as [[min max] |]; [| done].
    destruct (JS.lt price min) eqn:Hmin.
    { constructor; [| constructor]. split; [done |]. split; [done |].
      left. split; [done |]. by apply lt_true. }
    destruct (JS.lt max price) eqn:Hmax; [| done].
    constructor; [| constructor]. split; [done |]. split; [done |].
    right. split; [done |]. by apply lt_true.
Qed.

Lemma notify_entries (symbol : string) (price : Q)
    (entries : list (ref * list string)) (m : market) :
  NoDup entries.*1 ->
  StockMarket.getStockPrice symbol (subject m) = JS.object price ->
  let after := fold_left (notifyEntry symbol) entries m in
  subject after = subject m /\
  updated after
  = updated m
    ++ map (fun entry => (entry.1, symbol))
         (filter (fun entry => StockMarket.subscribed symbol entry.2 = true) entries) /\
  (exists triggered,
     alerts after = alerts m ++ triggered /\
     Forall (alertFor symbol price) triggered) /\
  (forall observer stocks,
     (observer, stocks) ∈ entries ->
     objects after !! observer
     = if StockMarket.subscribed symbol stocks
       then (fun object => (updateStock (subject m) symbol object).1)
            <$> objects m !! observer
       else objects m !! observer) /\
  (forall observer, observer ∉ entries.*1 ->
                    objects after !! observer = objects m !! observer).
Proof.
  revert m. induction entries as [|[observer stocks] entries IH]; intros m Hnd Hprice.
  - simpl. split; [done |]. split; [by rewrite app_nil_r |].
    split; [exists []; by rewrite app_nil_r |].
    split; [by intros ? ? ?%elem_of_nil | done].
  - rewrite fmap_cons in Hnd. apply NoDup_cons in Hnd as [Hfirst Hnd].
    simpl in Hfirst. cbn [fold_left]. rewrite filter_cons. cbn [snd].
    set (m' := notifyEntry symbol m (observer, stocks)).
    assert (Hm' : subject m' = subject m /\
                  updated m'
                  = updated m ++ (if StockMarket.subscribed symbol stocks
                                  then [(observer, symbol)] else []) /\
                  (exists triggered,
                     alerts m' = alerts m ++ triggered /\
                     Forall (alertFor symbol price) triggered) /\
                  objects m' !! observer
                  = (if StockMarket.subscribed symbol stocks
                     then (fun object => (updateStock (subject m) symbol object).1)
                          <$> objects m !! observer
                     else objects m !! observer) /\
                  (forall other, other <> observer ->
                                 objects m' !! other = objects m !! other)).
    { subst m'. unfold notifyEntry.
      destruct (StockMarket.subscribed symbol stocks).
      - destruct (objects m !! observer) as [object |] eqn:Hobject.
        + pose proof (updateStock_alerts (subject m) symbol price object Hprice)
            as Halerts.
          destruct (updateStock (subject m) symbol object) as [object' triggered]
            eqn:Hupdate.
          simpl. split; [done |]. split; [done |].
          split; [by exists triggered |].
          split; [by rewrite lookup_insert_eq, Hupdate |].
          intros other Hother. by rewrite lookup_insert_ne.
        + simpl. split; [done |]. split; [done |].
          split; [exists []; by rewrite app_nil_r |]. by rewrite Hobject.
      - split; [done |]. split; [by rewrite app_nil_r |].
        split; [exists []; by rewrite app_nil_r | done]. }
    destruct Hm' as (Hsubject & Hupdated & (triggered & Halerts & Hfor) & Hobject & Hothers).
    destruct (IH m' Hnd) as (Hs & Hu & (triggered' & Ha & Hf) & Ho & Hn);
      [by rewrite Hsubject |].
    split; [by rewrite Hs |]. split.
    { rewrite Hu, Hupdated.
      destruct (StockMarket.subscribed symbol stocks) eqn:Hsub.
      - rewrite decide_True by done. simpl. by rewrite <- app_assoc.
      - rewrite decide_False by done. by rewrite app_nil_r. }
    split.
    { exists (triggered ++ triggered'). rewrite Ha, Halerts, app_assoc.
      split; [done |]. by apply Forall_app. }
    split.
    + intros observer' stocks' [[= -> ->] | Hin]%elem_of_cons.
      * by rewrite Hn, Hobject.
      * rewrite (Ho _ _ Hin), Hsubject. rewrite Hothers; [done |].
        intros ->. apply Hfirst. apply list_elem_of_fmap. by exists (observer, stocks').
    + intros other Hother. rewrite fmap_cons in Hother.
      apply not_elem_of_cons in Hother as [Hne Hother].
      rewrite (Hn _ Hother). by apply Hothers.
Qed.

Lemma marketStep_keys (m : market) (c : marketCall) :
  NoDup (StockMarket.observers (subject m)).*1 ->
  NoDup (StockMarket.observers (subject (marketStep m c))).*1.
Proof.
  intros Hnd. destruct c as [observer stocks | observer | symbol price]; simpl.
  - by apply set_spec.
  - unfold StockMarket.detach. destruct (negb _); [done |]. by apply delete_spec.
  - unfold setStockPrice, notifyStock. simpl.
    set (m' := {| subject := _ |}).
    destruct (notify_entries symbol price (StockMarket.observers (subject m)) m')
      as (-> & _); [done | | done].
    unfold StockMarket.getStockPrice. simpl. by rewrite lookup_insert_eq.
Qed.

Lemma marketRun_keys (calls : list marketCall) (m : market) :
  NoDup (StockMarket.observers (subject m)).*1 ->
  NoDup (StockMarket.observers (subject (marketRun calls m))).*1.
Proof.
  revert m. induction calls as [|c calls IH]; intros m Hnd; [done |].
  apply IH. by apply marketStep_keys.
Qed.

(** X24. In any state of the stock market reached by attach, detach and
    setStockPrice calls, each observer has one subscription, the one of its
    latest attach.  setStockPrice stores the price and updates, once each
    and in the order of first attachment, exactly the observers whose
    subscription is empty or includes the symbol; a subscribed dashboard
    then holds the new price under the symbol, and every alert that is
    triggered reports that symbol and price and a threshold the price is
    outside of.  attach replaces the subscription of an observer and keeps
    the others; after detach the observer has no subscription. *)
Theorem stock_observer_is_updated_once_by_its_latest_subscription
    (created : gmap ref StockObserver) (calls : list marketCall)
    (symbol : string) (price : Q) (observer : ref) (topics : list string) :
  let m := marketRun calls (newMarket created) in
  let after := setStockPrice symbol price m in
  let entries := StockMarket.observers (subject m) in
  NoDup entries.*1 /\
  StockMarket.getStockPrice symbol (subject after) = JS.object price /\
  StockMarket.observers (subject after) = entries /\
  updated after
  = updated m
    ++ map (fun entry => (entry.1, symbol))
         (filter (fun entry => StockMarket.subscribed symbol entry.2 = true) entries) /\
  (exists triggered,
     alerts after = alerts m ++ triggered /\
     Forall (alertFor symbol price) triggered) /\
  (forall stocks name held,
     (observer, stocks) ∈ entries ->
     StockMarket.subscribed symbol stocks = true ->
     JS.truthy_string symbol = true ->
     objects m !! observer = Some (StockDashboard name held) ->
     objects after !! observer
     = Some (StockDashboard name (<[symbol := JS.object price]> held))) /\
  (forall k v,
     (k, v) ∈ StockMarket.observers (StockMarket.attach observer topics (subject m))
     <-> (k = observer /\ v = topics) \/ (k <> observer /\ (k, v) ∈ entries)) /\
  (forall k v,
     (k, v) ∈ StockMarket.observers (StockMarket.detach observer (subject m))
     <-> k <> observer /\ (k, v) ∈ entries).
Proof.
  intros m after entries.
  assert (Hnd : NoDup entries.*1).
  { apply marketRun_keys. simpl. apply NoDup_nil_2. }
  set (m' := {| subject :=
                  {| StockMarket.observers := entries;
                     StockMarket.stocks :=
                       <[symbol := price]> (StockMarket.stocks (subject m)) |};
                objects := objects m; updated := updated m; alerts := alerts m |}).
  assert (Hprice : StockMarket.getStockPrice symbol (subject m') = JS.object price).
  { unfold StockMarket.getStockPrice. simpl. by rewrite lookup_insert_eq. }
  destruct (notify_entries symbol price entries m' Hnd Hprice)
    as (Hsubject & Hupdated & Halerts & Hobjects & _).
  change (fold_left (notifyEntry symbol) entries m') with after in *.
  split; [done |]. split; [by rewrite Hsubject |]. split; [by rewrite Hsubject |].
  split; [done |]. split; [done |]. split; [| split].
  - intros stocks name held Hin Hsub Htruthy Hobject.
    rewrite (Hobjects _ _ Hin), Hsub.
    change (objects m' !! observer) with (objects m !! observer).
    rewrite Hobject. cbn [fmap option_fmap option_map updateStock fst].
    by rewrite Htruthy, Hprice.
  - by apply set_spec.
  - intros k v. unfold StockMarket.detach, StockMarket.has.
    fold entries. case_bool_decide as Hhas; simpl.
    + by apply delete_spec.
    + split; [| by intros [_ ?]]. intros Hin. split; [| done].
      intros ->. apply Hhas. apply list_elem_of_fmap. by exists (observer, v).
Qed.

Lemma on_events (eventName : string) (callback : EventEmitter.callback)
    (this : EventEmitter.t) :
  EventEmitter.events (EventEmitter.on eventName callback this)
  = <[eventName :=
        default [] (EventEmitter.events this !! eventName) ++ [callback]]>
      (EventEmitter.events this).
Proof.
  unfold EventEmitter.on. cbn [EventEmitter.events].
  destruct (bool_decide_reflect (is_Some (EventEmitter.events this !! eventName)))
    as [_ | Hnone]; [done |].
  apply eq_None_not_Some in Hnone.
  by rewrite lookup_insert_eq, insert_insert_eq, Hnone.
Qed.

Lemma indexOf_app_first {A} `{EqDecision A} (l : list A) (x : A) :
  exists before after,
    l ++ [x] = before ++ x :: after /\ (x ∉ before) /\
    JS.indexOf (l ++ [x]) x = Z.of_nat (List.length before) /\
    (x ∉ l -> before = l /\ after = []).
Proof.
  destruct (indexOf_elem_of (l ++ [x]) x) as (before & after & Heq & Hfirst & Hindex).
  { apply elem_of_app. right. by apply list_elem_of_singleton. }
  exists before, after. split; [done |]. split; [done |]. split; [done |].
  intros Hnotin.
  assert (Hlen : List.length before = List.length l).
  { destruct (Nat.lt_trichotomy (List.length before) (List.length l)) as [Hlt | [-> | Hgt]];
      [| done |].
    - exfalso. apply Hnotin.
      assert (Hx : (l ++ [x]) !! List.length before = Some x)
        by (rewrite Heq; apply list_lookup_middle; done).
      rewrite lookup_app_l in Hx by done. by apply list_elem_of_lookup_2 in Hx.
    - exfalso. apply (f_equal List.length) in Heq.
      rewrite !length_app in Heq. simpl in Heq. lia. }
  assert (Hbefore : before = l).
  { apply (f_equal (take (List.length l))) in Heq.
    rewrite take_app_length in Heq. rewrite <- Hlen in Heq.
    by rewrite take_app_length in Heq. }
  split; [done |]. subst before.
  apply app_inv_head in Heq. by injection Heq as <-.
Qed.

(** X25. on registers the callback once more, without looking whether it is
    registered already: the listener count of the event grows by one and
    emit calls the callback last, after the callbacks registered before, in
    the order of registration, each with the arguments of emit.  The
    function that on returns removes one registration of the callback, the
    earliest, so that for a callback that was not registered before the
    callbacks of the event are as they were.  After removeAllListeners for
    the event it fails, the event having no callbacks to search. *)
Theorem on_registers_and_unsubscribe_removes_one_registration
    {A} (eventName : string) (callback : EventEmitter.callback) (args : A)
    (this : EventEmitter.t) :
  let callbacks := default [] (EventEmitter.events this !! eventName) in
  let registered := EventEmitter.on eventName callback this in
  EventEmitter.listenerCount eventName registered
  = (EventEmitter.listenerCount eventName this + 1)%Z /\
  EventEmitter.emit eventName args registered
  = EventEmitter.emit eventName args this ++ [(callback, args)] /\
  (exists before after unsubscribed,
     callbacks ++ [callback] = before ++ callback :: after /\
     (callback ∉ before) /\
     EventEmitter.unsubscribe eventName callback registered = Some unsubscribed /\
     EventEmitter.events unsubscribed
     = <[eventName := before ++ after]> (EventEmitter.events this) /\
     (callback ∉ callbacks -> before ++ after = callbacks)) /\
  (JS.truthy_string eventName = true ->
   EventEmitter.unsubscribe eventName callback
     (EventEmitter.removeAllListeners (Some eventName) registered) = None).
Proof.
  intros callbacks registered.
  assert (Hevents : EventEmitter.events registered !! eventName
                    = Some (callbacks ++ [callback])).
  { subst registered. by rewrite on_events, lookup_insert_eq. }
  split; [| split; [| split]].
  - unfold EventEmitter.listenerCount. rewrite Hevents. subst callbacks.
    unfold JS.length. rewrite length_app. simpl.
    destruct (EventEmitter.events this !! eventName); simpl; lia.
  - unfold EventEmitter.emit. rewrite Hevents, map_app. subst callbacks.
    by destruct (EventEmitter.events this !! eventName).
  - destruct (indexOf_app_first callbacks callback)
      as (before & after & Heq & Hfirst & Hindex & Hnew).
    exists before, after.
    exists {| EventEmitter.events :=
                <[eventName := before ++ after]> (EventEmitter.events registered) |}.
    split; [done |]. split; [done |]. split; [| split].
    + unfold EventEmitter.unsubscribe. rewrite Hevents, Hindex.
      destruct (Z.eqb_spec (Z.of_nat (List.length before)) (-1)); [lia |].
      simpl. by rewrite Heq, splice1_middle.
    + cbn [EventEmitter.events]. subst registered.
      by rewrite on_events, insert_insert_eq.
    + intros Hnotin. destruct (Hnew Hnotin) as [-> ->]. by rewrite app_nil_r.
  - intros Htruthy. unfold EventEmitter.unsubscribe, EventEmitter.removeAllListeners.
    rewrite Htruthy. cbn [EventEmitter.events]. by rewrite lookup_delete_eq.
Qed.

End ObserverFurther.

(** ** Singleton: construction before the first getInstance *)

Section SingletonFurther.
Import Singleton.

Lemma run_news (n : nat) :
  run (repeat New n) initial = {| instance := None; allocated := n |}.
Proof.
  assert (Hgen : forall k,
             run (repeat New n) {| instance := None; allocated := k |}
             = {| instance := None; allocated := n + k |}).
  { induction n as [|n IH]; intros k; [done |].
    simpl. unfold construct. simpl.
    change (fold_left step (repeat New n) {| instance := None; allocated := S k |})
      with (run (repeat New n) {| instance := None; allocated := S k |}).
    rewrite IH. f_equal. lia. }
  unfold initial. rewrite Hgen. f_equal. lia.
Qed.

(** X26. The constructor only refuses once getInstance has been called:
    before that, [new Singleton()] succeeds as often as it is called, each
    time with a new object that does not become the instance, and the first
    getInstance that follows creates one more object, different from all of
    them, and keeps it as the instance. *)
Theorem construction_before_getInstance_is_not_refused (n : nat) :
  let w := run (repeat New n) initial in
  instance w = None /\
  construct w = (JS.Return n, {| instance := None; allocated := S n |}) /\
  getInstance w = (JS.Return n, {| instance := Some n; allocated := S n |}) /\
  forall k : nat,
    k < n ->
    construct (run (repeat New k) initial)
    = (JS.Return k, {| instance := None; allocated := S k |}) /\
    k <> n.
Proof.
  intros w. subst w. rewrite run_news.
  split; [done |]. split; [done |]. split; [done |].
  intros k Hk. rewrite run_news. split; [done | lia].
Qed.

End SingletonFurther.

(** ** Proxy: cache hits and statistics *)

Section ProxyFurther.
Import Proxy.

Lemma getData_hit (query : string) (cached : QueryResult)
    (this : DatabaseProxy.t) (now : clock) :
  DatabaseProxy.cache this !! query = Some cached ->
  DatabaseProxy.getData query this now
  = (JS.Return cached,
     {| DatabaseProxy.connectionString := DatabaseProxy.connectionString this;
        DatabaseProxy.accessLevel := DatabaseProxy.accessLevel this;
        DatabaseProxy.realDatabase := DatabaseProxy.realDatabase this;
        DatabaseProxy.cache := DatabaseProxy.cache this;
        DatabaseProxy.cacheHits := DatabaseProxy.cacheHits this + 1;
        DatabaseProxy.cacheMisses := DatabaseProxy.cacheMisses this;
        DatabaseProxy.lastAccess := Some now |},
     now).
Proof. intros Hhit. unfold DatabaseProxy.getData. simpl. by rewrite Hhit. Qed.

Lemma getData_caches (query : string) (this : DatabaseProxy.t) (now : clock) :
  exists result,
    (DatabaseProxy.getData query this now).1.1 = JS.Return result /\
    DatabaseProxy.cache (DatabaseProxy.getData query this now).1.2 !! query
    = Some result.
Proof.
  destruct (DatabaseProxy.cache this !! query) as [cached |] eqn:Hcache.
  - exists cached. by rewrite (getData_hit query cached).
  - destruct (getData_miss query this now Hcache) as (_ & _ & result & Hresult & Hcached).
    exists result. split; [done |]. by rewrite Hcached, lookup_insert_eq.
Qed.

Lemma close_spec (this : DatabaseProxy.t) (now : clock) :
  let closed := DatabaseProxy.close this now in
  DatabaseProxy.cache closed.1 = DatabaseProxy.cache this /\
  DatabaseProxy.cacheHits closed.1 = DatabaseProxy.cacheHits this /\
  DatabaseProxy.cacheMisses closed.1 = DatabaseProxy.cacheMisses this /\
  DatabaseProxy.lastAccess closed.1 = DatabaseProxy.lastAccess this /\
  (DatabaseProxy.realDatabase closed.1 = None
   <-> DatabaseProxy.realDatabase this = None) /\
  (forall database, DatabaseProxy.realDatabase closed.1 = Some database ->
                    DatabaseSource.isConnected database = false) /\
  (now <= closed.2)%Z /\
  DatabaseProxy.close closed.1 closed.2 = closed.
Proof.
  unfold DatabaseProxy.close.
  destruct (DatabaseProxy.realDatabase this) as [database |] eqn:Hdatabase.
  - destruct (DatabaseSource.isConnected database) eqn:Hconnected.
    + unfold DatabaseSource.disconnect. rewrite Hconnected. simpl.
      repeat split; try done; try lia. by intros ? [= <-].
    + simpl. rewrite Hdatabase, Hconnected.
      repeat split; try done; try lia. by intros ? [= <-].
  - simpl. rewrite Hdatabase. repeat split; try done; lia.
Qed.

(** X27. A read that follows a read of the same query is served from the
    cache: it returns the very result of the first read, timestamp
    included, takes no time, counts one hit and leaves the database and the
    cache as they are.  close disconnects the database but keeps the cache,
    so that after close the same read is still answered from the cache,
    without connecting again; closing twice is closing once. *)
Theorem repeated_read_is_served_from_the_cache
    (query : string) (this : DatabaseProxy.t) (now later : clock) :
  let first := DatabaseProxy.getData query this now in
  let second := DatabaseProxy.getData query first.1.2 later in
  let closed := DatabaseProxy.close first.1.2 first.2 in
  let third := DatabaseProxy.getData query closed.1 later in
  exists result,
    first.1.1 = JS.Return result /\
    second.1.1 = JS.Return result /\
    second.2 = later /\
    DatabaseProxy.realDatabase second.1.2 = DatabaseProxy.realDatabase first.1.2 /\
    DatabaseProxy.cache second.1.2 = DatabaseProxy.cache first.1.2 /\
    DatabaseProxy.cacheHits second.1.2 = (DatabaseProxy.cacheHits first.1.2 + 1)%Z /\
    DatabaseProxy.cacheMisses second.1.2 = DatabaseProxy.cacheMisses first.1.2 /\
    (forall database, DatabaseProxy.realDatabase closed.1 = Some database ->
                      DatabaseSource.isConnected database = false) /\
    DatabaseProxy.close closed.1 closed.2 = closed /\
    third.1.1 = JS.Return result /\
    third.2 = later /\
    DatabaseProxy.realDatabase third.1.2 = DatabaseProxy.realDatabase closed.1.
Proof.
  intros first second closed third.
  destruct (getData_caches query this now) as (result & Hresult & Hcached).
  fold first in Hresult, Hcached.
  exists result. split; [done |].
  subst second. rewrite (getData_hit query result) by done. simpl.
  do 6 (split; [done |]).
  destruct (close_spec first.1.2 first.2) as (Hcache & _ & _ & _ & _ & Hoff & _ & Htwice).
  fold closed in Hcache, Hoff, Htwice.
  split; [done |]. split; [done |].
  subst third. rewrite (getData_hit query result) by by rewrite Hcache.
  done.
Qed.

Lemma getData_miss_explicit (query : string) (this : DatabaseProxy.t) (now : clock) :
  DatabaseProxy.cache this !! query = None ->
  exists database delay result,
    (delay = 500 \/ delay = 1500)%Z /\
    Proxy.query result = query /\ timestamp result = (now + delay)%Z /\
    DatabaseProxy.getData query this now
    = (JS.Return result,
       {| DatabaseProxy.connectionString := DatabaseProxy.connectionString this;
          DatabaseProxy.accessLevel := DatabaseProxy.accessLevel this;
          DatabaseProxy.realDatabase := Some database;
          DatabaseProxy.cache := <[query := result]> (DatabaseProxy.cache this);
          DatabaseProxy.cacheHits := DatabaseProxy.cacheHits this;
          DatabaseProxy.cacheMisses := DatabaseProxy.cacheMisses this + 1;
          DatabaseProxy.lastAccess := Some now |},
       (now + delay)%Z).
Proof.
  intros Hmiss. unfold DatabaseProxy.getData. simpl. rewrite Hmiss.
  unfold DatabaseProxy.getRealDatabase, DatabaseSource.getData. simpl.
  destruct (DatabaseProxy.realDatabase this) as [database |]; simpl.
  - destruct (DatabaseSource.isConnected database); simpl.
    + eexists _, 500%Z, (mkQueryResult query (now + 500) _).
      split; [by left |]. split; [reflexivity |]. split; [reflexivity |].
      reflexivity.
    + eexists _, 1500%Z, (mkQueryResult query (now + 1500) _).
      split; [by right |]. split; [reflexivity |]. split; [reflexivity |].
      replace (now + 1000 + 500)%Z with (now + 1500)%Z by lia. reflexivity.
  - eexists _, 1500%Z, (mkQueryResult query (now + 1500) _).
    split; [by right |]. split; [reflexivity |]. split; [reflexivity |].
    replace (now + 1000 + 500)%Z with (now + 1500)%Z by lia. reflexivity.
Qed.

Lemma saveData_explicit (data : JS.value) (this : DatabaseProxy.t) (now : clock) :
  let accessed :=
    {| DatabaseProxy.connectionString := DatabaseProxy.connectionString this;
       DatabaseProxy.accessLevel := DatabaseProxy.accessLevel this;
       DatabaseProxy.realDatabase := DatabaseProxy.realDatabase this;
       DatabaseProxy.cache := DatabaseProxy.cache this;
       DatabaseProxy.cacheHits := DatabaseProxy.cacheHits this;
       DatabaseProxy.cacheMisses := DatabaseProxy.cacheMisses this;
       DatabaseProxy.lastAccess := Some now |} in
  (exists e, DatabaseProxy.saveData data this now = (JS.Throw e, accessed, now)) \/
  (exists database delay,
     (delay = 800 \/ delay = 1800)%Z /\
     DatabaseProxy.saveData data this now
     = (JS.Return true,
        {| DatabaseProxy.connectionString := DatabaseProxy.connectionString this;
           DatabaseProxy.accessLevel := DatabaseProxy.accessLevel this;
           DatabaseProxy.realDatabase := Some database;
           DatabaseProxy.cache := ∅;
           DatabaseProxy.cacheHits := DatabaseProxy.cacheHits this;
           DatabaseProxy.cacheMisses := DatabaseProxy.cacheMisses this;
           DatabaseProxy.lastAccess := Some now |},
        (now + delay)%Z)).
Proof.
  intros accessed. unfold DatabaseProxy.saveData, DatabaseProxy.checkAccess. simpl.
  destruct (negb (bool_decide (DatabaseProxy.accessLevel this = "write"))); simpl.
  { left. by eexists. }
  destruct (negb (JS.truthy_value data) || negb (bool_decide (JS.typeof data = "object"))).
  { left. by eexists. }
  right. unfold DatabaseProxy.getRealDatabase, DatabaseSource.saveData. simpl.
  destruct (DatabaseProxy.realDatabase this) as [database |]; simpl.
  - destruct (DatabaseSource.isConnected database); simpl.
    + eexists _, 800%Z. split; [by left | reflexivity].
    + eexists _, 1800%Z. split; [by right |].
      replace (now + 1000 + 800)%Z with (now + 1800)%Z by lia. reflexivity.
  - eexists _, 1800%Z. split; [by right |].
    replace (now + 1000 + 800)%Z with (now + 1800)%Z by lia. reflexivity.
Qed.

Lemma proxyStep_invariant (start : clock) (state : DatabaseProxy.t * clock)
    (c : proxyCall) :
  proxyInvariant start state -> proxyInvariant start (proxyStep state c).
Proof.
  destruct state as [this now].
  intros (Hnow & Hhits & Hsize & Hcache & Hlazy & Hlast).
  destruct c as [query | data | | | ms]; simpl.
  - destruct (DatabaseProxy.cache this !! query) as [cached |] eqn:Hcached.
    + rewrite (getData_hit query cached) by done. simpl.
      split; [done |]. split; [lia |]. split; [done |]. split; [done |].
      split; [done |]. intros accessed [= <-]. lia.
    + destruct (getData_miss_explicit query this now Hcached)
        as (database & delay & result & Hdelay & Hquery & Htime & ->).
      simpl. split; [lia |]. split; [done |]. split.
      { rewrite map_size_insert_None by done. lia. }
      split.
      { intros q r [[<- <-] | [Hne Hr]]%lookup_insert_Some; [split; [done | lia] |].
        destruct (Hcache q r Hr). split; [done | lia]. }
      split; [done |]. intros accessed [= <-]. lia.
  - destruct (saveData_explicit data this now)
      as [[e ->] | (database & delay & Hdelay & ->)]; simpl.
    + split; [done |]. split; [done |]. split; [done |]. split; [done |].
      split; [done |]. intros accessed [= <-]. lia.
    + split; [lia |]. split; [done |]. split.
      { rewrite map_size_empty. lia. }
      split; [by intros q r ?%lookup_empty_Some |].
      split; [done |]. intros accessed [= <-]. lia.
  - split; [done |]. split; [done |]. split.
    { rewrite map_size_empty. lia. }
    split; [by intros q r ?%lookup_empty_Some |].
    split; [| done]. intros Hnone. destruct (Hlazy Hnone) as [_ ->]. done.
  - destruct (close_spec this now)
      as (Hc & Hh & Hm & Hl & Hdb & _ & Hlater & _).
    destruct (DatabaseProxy.close this now) as [closed later]. simpl in *.
    split; [lia |]. split; [lia |]. split; [by rewrite Hc, Hm |]. split.
    { intros q r Hr. rewrite Hc in Hr. destruct (Hcache q r Hr). split; [done | lia]. }
    split.
    { intros Hnone%Hdb. rewrite Hc, Hm. by apply Hlazy. }
    intros accessed Haccessed. rewrite Hl in Haccessed.
    specialize (Hlast accessed Haccessed). lia.
  - split; [lia |]. split; [done |]. split; [done |]. split.
    { intros q r Hr. destruct (Hcache q r Hr). split; [done | lia]. }
    split; [done |]. intros accessed Haccessed.
    specialize (Hlast accessed Haccessed). lia.
Qed.

Lemma proxyRun_invariant (start : clock) (calls : list proxyCall)
    (state : DatabaseProxy.t * clock) :
  proxyInvariant start state -> proxyInvariant start (proxyRun calls state).
Proof.
  revert state. induction calls as [|c calls IH]; intros state Hinv; [done |].
  apply IH. by apply proxyStep_invariant.
Qed.

Lemma hitRatio_range (hits misses : Z) :
  (0 <= hits)%Z -> (0 <= misses)%Z ->
  let total := (hits + misses)%Z in
  let ratio := (inject_Z hits / inject_Z (if (total =? 0)%Z then 1 else total))%Q in
  (0 <= ratio)%Q /\ (ratio <= 1)%Q.
Proof.
  intros Hhits Hmisses total ratio. subst ratio.
  set (divisor := if (total =? 0)%Z then 1%Z else total).
  assert (Hdivisor : (0 < divisor)%Z /\ (hits <= divisor)%Z).
  { subst divisor total. destruct (Z.eqb_spec (hits + misses) 0); lia. }
  destruct Hdivisor as [Hpos Hle].
  assert (Hqpos : (0 < inject_Z divisor)%Q).
  { change 0%Q with (inject_Z 0). by rewrite <- Zlt_Qlt. }
  split.
  - apply Qle_shift_div_l; [done |]. rewrite Qmult_0_l.
    change 0%Q with (inject_Z 0). by rewrite <- Zle_Qle.
  - apply Qle_shift_div_r; [done |]. rewrite Qmult_1_l. by rewrite <- Zle_Qle.
Qed.

(** X28. Whatever reads, writes, cache clearings, closings and waits follow
    the creation of a proxy, its counters and its cache stay consistent:
    hits and misses are not negative, the cache never holds more entries
    than there were misses, every cached result is the answer to the query
    it is stored under and was produced after the creation of the proxy and
    not after the present time, the hit ratio is between 0 and 1, time never
    runs backwards, and as long as no real database has been created the
    cache is empty and no miss has been counted. *)
Theorem proxy_statistics_stay_consistent
    (connectionString accessLevel : string) (start : clock)
    (calls : list proxyCall) :
  let state := proxyRun calls (DatabaseProxy.new connectionString accessLevel, start) in
  let this := state.1 in
  let now := state.2 in
  let stats := DatabaseProxy.getCacheStats this in
  (start <= now)%Z /\
  (0 <= DatabaseProxy.hits stats)%Z /\
  (0 <= DatabaseProxy.size stats <= DatabaseProxy.misses stats)%Z /\
  (0 <= DatabaseProxy.hitRatio stats)%Q /\
  (DatabaseProxy.hitRatio stats <= 1)%Q /\
  (forall query result,
     DatabaseProxy.cache this !! query = Some result ->
     Proxy.query result = query /\ (start < timestamp result <= now)%Z) /\
  (DatabaseProxy.realDatabase this = None ->
   DatabaseProxy.cache this = ∅ /\ DatabaseProxy.cacheMisses this = 0%Z) /\
  (forall accessed, DatabaseProxy.statsLastAccess stats = Some accessed ->
                    (start <= accessed <= now)%Z).
Proof.
  intros state this now stats.
  assert (Hinv : proxyInvariant start state).
  { apply proxyRun_invariant. unfold proxyInvariant. simpl.
    split; [lia |]. split; [lia |]. split; [by rewrite map_size_empty |].
    split; [by intros q r ?%lookup_empty_Some |]. done. }
  subst this now stats. destruct state as [this now].
  destruct Hinv as (Hnow & Hhits & Hsize & Hcache & Hlazy & Hlast). simpl.
  assert (Hmisses : (0 <= DatabaseProxy.cacheMisses this)%Z) by lia.
  destruct (hitRatio_range _ _ Hhits Hmisses) as [Hlow Hhigh].
  split; [done |]. split; [done |]. split; [lia |].
  split; [done |]. split; [done |]. done.
Qed.

End ProxyFurther.

(** ** Simple factory: what createUser builds *)

Section SimpleFactoryFurther.
Import SimpleFactory.

(** X29. createUser decides by the lower-cased type alone: it returns an
    admin, a customer or a guest exactly when the type, in any casing, is
    'admin', 'customer' or 'guest', and throws otherwise, naming the type as
    it was given.  Every user carries the name and the e-mail of the data
    and the creation time of the host; an admin never has level 0 and has
    the three default permissions unless the data gives others, a customer
    never has an empty subscription, and a guest expires 24 hours after its
    creation. *)
Theorem createUser_builds_the_user_of_the_lower_cased_type
    (host : Host) (type : string) (data : UserData) :
  match createUser host type data with
  | JS.Return (AdminUser user permissions adminLevel) =>
      JS.toLowerCase type = "admin" /\ user = newUser host data /\
      permissions = default ["read"; "write"; "delete"] (dataPermissions data) /\
      adminLevel <> 0%Z /\
      (forall level, dataAdminLevel data = Some level -> level <> 0%Z ->
                     adminLevel = level)
  | JS.Return (CustomerUser user subscription customerId) =>
      JS.toLowerCase type = "customer" /\ user = newUser host data /\
      subscription <> "" /\
      (forall chosen, dataSubscription data = Some chosen -> chosen <> "" ->
                      subscription = chosen) /\
      customerId = "CUST-" +:+ JS.toString (random10000 host)
  | JS.Return (GuestUser user sessionId expiresAt) =>
      JS.toLowerCase type = "guest" /\ user = newUser host data /\
      sessionId = "SESSION-" +:+ JS.toString (random10000 host) /\
      expiresAt = (dateNow host + 86400000)%Z
  | JS.Throw e =>
      JS.toLowerCase type <> "admin" /\ JS.toLowerCase type <> "customer" /\
      JS.toLowerCase type <> "guest" /\
      JS.message e = "User type " +:+ type +:+ " is not recognized."
  end.
Proof.
  unfold createUser.
  destruct (bool_decide_reflect (JS.toLowerCase type = "admin")) as [Hadmin | Hadmin].
  { simpl. split; [done |]. split; [done |]. split; [done |].
    destruct (dataAdminLevel data) as [level |]; [| by split].
    destruct (Z.eqb_spec level 0) as [-> | Hlevel].
    - split; [done |]. by intros ? [= <-].
    - split; [done |]. by intros ? [= <-]. }
  destruct (bool_decide_reflect (JS.toLowerCase type = "customer"))
    as [Hcustomer | Hcustomer].
  { simpl. split; [done |]. split; [done |].
    destruct (dataSubscription data) as [chosen |]; [| by repeat split].
    unfold JS.truthy_string.
    destruct (bool_decide_reflect (chosen = "")) as [-> | Hchosen]; simpl.
    - split; [done |]. split; [| done]. by intros ? [= <-].
    - split; [done |]. split; [| done]. by intros ? [= <-]. }
  destruct (bool_decide_reflect (JS.toLowerCase type = "guest")) as [Hguest | Hguest].
  { simpl. split; [done |]. split; [done |]. split; [done |]. lia. }
  done.
Qed.

End SimpleFactoryFurther.

(** ** Adapter: a payment and what follows it *)

Section AdapterFurther.
Import Adapter.

Lemma lookupIntent_insert (transactionId other intent : string)
    (this : ModernPaymentAdapter.t) :
  other <> transactionId ->
  ModernPaymentAdapter.lookupIntent other
    {| ModernPaymentAdapter.modernApi := ModernPaymentAdapter.modernApi this;
       ModernPaymentAdapter.name := ModernPaymentAdapter.name this;
       ModernPaymentAdapter.intentMap :=
         <[transactionId := intent]> (ModernPaymentAdapter.intentMap this) |}
  = ModernPaymentAdapter.lookupIntent other this.
Proof.
  intros Hother. unfold ModernPaymentAdapter.lookupIntent. simpl.
  by rewrite lookup_insert_ne.
Qed.

(** X30. A payment processed through the adapter of the modern API can be
    verified and refunded under the transaction ID it returned: the payment
    succeeds, the ID is mapped to the intent the API created, verifyPayment
    of that ID reports 'completed', and refundPayment of that ID returns a
    successful refund of the intent, for the amount asked, which the API
    receives multiplied by 100, a product of doubles (a refund of 19.99 is
    passed on as 1998.9999999999998, not as 1999 cents).  The transactions
    known before, under other IDs, resolve as they did. *)
Theorem processed_payment_can_be_verified_and_refunded
    (host later : Host) (amount refunded : float) (currency other : string)
    (paymentDetails : PaymentDetails) (this : ModernPaymentAdapter.t) :
  let paid :=
    ModernPaymentAdapter.processPayment host amount currency paymentDetails this in
  let result := paid.1 in
  let adapter := paid.2 in
  let intentId := ("pi_" +:+ randomId host)%string in
  success result = true /\
  Adapter.amount result = amount /\
  ModernPaymentAdapter.lookupIntent (transactionId result) adapter
  = JS.Return intentId /\
  (exists verification,
     ModernPaymentAdapter.verifyPayment later (transactionId result) adapter
     = JS.Return verification /\
     verifiedTransaction verification = transactionId result /\
     status verification = "completed") /\
  (exists refund,
     ModernPaymentAdapter.refundPayment later (transactionId result) refunded adapter
     = JS.Return refund /\
     refundSuccess refund = true /\
     originalTransaction refund = transactionId result /\
     refundedAmount refund = refunded /\
     ModernPaymentAPI.payment_intent (refundResponse refund) = intentId /\
     ModernPaymentAPI.refundAmount (refundResponse refund)
     = (refunded * 100)%float) /\
  (other <> transactionId result ->
   ModernPaymentAdapter.lookupIntent other adapter
   = ModernPaymentAdapter.lookupIntent other this).
Proof.
  intros paid result adapter intentId.
  assert (Hlookup : ModernPaymentAdapter.lookupIntent (transactionId result) adapter
                    = JS.Return intentId).
  { unfold ModernPaymentAdapter.lookupIntent. subst adapter result paid. simpl.
    by rewrite lookup_insert_eq. }
  split; [done |]. split; [done |]. split; [done |]. split; [| split].
  - unfold ModernPaymentAdapter.verifyPayment. rewrite Hlookup. simpl.
    by eexists.
  - unfold ModernPaymentAdapter.refundPayment. rewrite Hlookup. simpl.
    by eexists.
  - intros Hother. by apply lookupIntent_insert.
Qed.

(** A refund of 19.99 reaches the API as 1998.9999999999998. *)
Example refund_of_19_99 :
  let host := Adapter.mkHost 1700000000000%Z "k3j9x0abc12" 42%Z in
  let adapter :=
    ModernPaymentAdapter.new (ModernPaymentAPI.new "client-id-789" "client-secret-789") in
  let paid :=
    ModernPaymentAdapter.processPayment host 19.99 "USD"
      (mkPaymentDetails "4111111111111111" "12/25" "John Doe" "123") adapter in
  JS.bind
    (ModernPaymentAdapter.refundPayment host (transactionId paid.1) 19.99 paid.2)
    (fun refund => JS.Return (ModernPaymentAPI.refundAmount (refundResponse refund)))
  = JS.Return 1998.9999999999998%float /\
  (1998.9999999999998 =? 1999)%float = false.
Proof. by vm_compute. Qed.

End AdapterFurther.
